(** * spo-backend: the theme video publish/archive engine

    A shallow embedding of the theme library services of spo-backend
    (src/services/theme.service.ts), of the two resource library
    providers they drive (src/resources/providers/local.resource.ts and
    webdav.resource.ts, on top of src/resources/base.resource.ts and
    src/resources/resource.service.ts) and of the part of the upload
    service they call (UploadService.createTask).

    Asynchronous methods are embedded as state-and-exception passing
    functions: an [await]ed call is a call, a rejected promise is an
    [Err] result, [try]/[catch] is [try_catch].  Console output is not
    modelled. *)

From Stdlib Require Import Ascii ZArith Lia.
From stdpp Require Import gmap strings list fin_maps pretty.

(* ===================================================================== *)
(** * JavaScript strings                                                  *)
(* ===================================================================== *)

Module Js.

Definition slash : ascii := "/"%char.
Definition dot : ascii := "."%char.
Definition backslash : ascii := "\"%char.

Definition str_eqb (a b : string) : bool := String.eqb a b.

Definition is_empty (s : string) : bool :=
  match s with EmptyString => true | String _ _ => false end.

(** [s.startsWith(p)] *)
Fixpoint startsWith (s p : string) {struct p} : bool :=
  match p with
  | EmptyString => true
  | String c p' =>
      match s with
      | EmptyString => false
      | String d s' => Ascii.eqb c d && startsWith s' p'
      end
  end.

(** [s.endsWith(p)]: [p] is a suffix of [s]. *)
Fixpoint endsWith (s p : string) : bool :=
  if str_eqb s p then true
  else match s with
       | EmptyString => false
       | String _ s' => endsWith s' p
       end.

(** [s.split('/')]: the segments between slashes; never empty. *)
Fixpoint split_slash (s : string) : list string :=
  match s with
  | EmptyString => [EmptyString]
  | String c s' =>
      if Ascii.eqb c slash then EmptyString :: split_slash s'
      else match split_slash s' with
           | [] => [String c EmptyString]
           | seg :: rest => String c seg :: rest
           end
  end.

(** [segs.join(sep)] *)
Fixpoint join (sep : string) (segs : list string) : string :=
  match segs with
  | [] => EmptyString
  | [s] => s
  | s :: rest => s +:+ sep +:+ join sep rest
  end.

Definition has_slash (s : string) : bool :=
  match split_slash s with [_] => false | _ => true end.

(** ASCII part of [String.prototype.toLowerCase]. *)
Definition lower_ascii (c : ascii) : ascii :=
  let n := nat_of_ascii c in
  if (65 <=? n)%nat && (n <=? 90)%nat then ascii_of_nat (n + 32) else c.

Fixpoint toLowerCase (s : string) : string :=
  match s with
  | EmptyString => EmptyString
  | String c s' => String (lower_ascii c) (toLowerCase s')
  end.

(** [arr.includes(x)] for arrays of strings. *)
Definition includes (arr : list string) (x : string) : bool :=
  existsb (str_eqb x) arr.

(** [s.replace(/\\/g, '/')] *)
Fixpoint backslashes_to_slashes (s : string) : string :=
  match s with
  | EmptyString => EmptyString
  | String c s' =>
      String (if Ascii.eqb c backslash then slash else c)
             (backslashes_to_slashes s')
  end.

(** [s.replace(/\/+/g, '/')] *)
Fixpoint collapse_slashes (s : string) : string :=
  match s with
  | EmptyString => EmptyString
  | String c s' =>
      if Ascii.eqb c slash && startsWith s' "/" then collapse_slashes s'
      else String c (collapse_slashes s')
  end.

End Js.

(* ===================================================================== *)
(** * Node's [path] module (POSIX flavour)                                *)
(* ===================================================================== *)

(** The services import Node's [path].  Its functions are described here
    on path segments: a path is cut at its slashes, and the documented
    behaviour of [path.posix] is stated on the segments. *)

Module NodePath.
Import Js.

(** A plain name: a single segment that is neither empty nor one of the
    two special entries. *)
Definition plain (s : string) : bool :=
  negb (is_empty s) && negb (has_slash s)
  && negb (str_eqb s ".") && negb (str_eqb s "..").

(** One step of [normalizeString]: [stack] holds the segments kept so
    far, the last one first. *)
Definition norm_step (allowAboveRoot : bool) (stack : list string)
    (seg : string) : list string :=
  if is_empty seg || str_eqb seg "." then stack
  else if str_eqb seg ".." then
    match stack with
    | top :: rest =>
        if str_eqb top ".."
        then (if allowAboveRoot then ".." :: stack else stack)
        else rest
    | [] => if allowAboveRoot then [".."] else []
    end
  else seg :: stack.

Definition norm_stack (allowAboveRoot : bool) (p : string) : list string :=
  fold_left (norm_step allowAboveRoot) (split_slash p) [].

Definition normalizeString (p : string) (allowAboveRoot : bool) : string :=
  join "/" (rev (norm_stack allowAboveRoot p)).

Definition isAbsolute (p : string) : bool := startsWith p "/".

(** [path.normalize] *)
Definition normalize (p : string) : string :=
  if is_empty p then "."
  else
    let absolute := isAbsolute p in
    let trailingSeparator := endsWith p "/" in
    let q := normalizeString p (negb absolute) in
    if is_empty q then
      (if absolute then "/" else if trailingSeparator then "./" else ".")
    else
      let q := if trailingSeparator then q +:+ "/" else q in
      if absolute then "/" +:+ q else q.

(** [path.join(...args)] *)
Definition join (args : list string) : string :=
  match filter (fun a => negb (is_empty a) = true) args with
  | [] => "."
  | parts => normalize (Js.join "/" parts)
  end.

Definition join2 (a b : string) : string := join [a; b].

Fixpoint drop_trailing_empty_rev (r : list string) : list string :=
  match r with
  | s :: r' => if is_empty s then drop_trailing_empty_rev r' else r
  | [] => []
  end.

(** The segments of [p] up to its last non-empty one, last first. *)
Definition trimmed_rev (p : string) : list string :=
  drop_trailing_empty_rev (rev (split_slash p)).

(** [path.basename(p)] *)
Definition basename (p : string) : string :=
  match trimmed_rev p with
  | s :: _ => s
  | [] => EmptyString
  end.

(** [path.dirname(p)] *)
Definition dirname (p : string) : string :=
  match trimmed_rev p with
  | [] => if isAbsolute p then "/" else "."
  | _ :: pre_rev =>
      match rev pre_rev with
      | [] => "."
      | [e] => if is_empty e then "/" else e
      | [e1; e2] =>
          if is_empty e1 && is_empty e2 then "//" else Js.join "/" [e1; e2]
      | pre => Js.join "/" pre
      end
  end.

(** Position of the extension in a base name: the text before the last
    dot and the text from it, when the base name has an extension. *)
Fixpoint split_last_dot (s : string) : option (string * string) :=
  match s with
  | EmptyString => None
  | String c s' =>
      match split_last_dot s' with
      | Some (pre, ext) => Some (String c pre, ext)
      | None => if Ascii.eqb c dot then Some (EmptyString, s) else None
      end
  end.

(** [path.extname(p)] *)
Definition extname (p : string) : string :=
  let base := basename p in
  match split_last_dot base with
  | Some (pre, ext) =>
      if is_empty pre || str_eqb base ".." then EmptyString else ext
  | None => EmptyString
  end.

(** [path.parse(p).name] *)
Definition parse_name (p : string) : string :=
  let base := basename p in
  match split_last_dot base with
  | Some (pre, ext) =>
      if is_empty pre || str_eqb base ".." then base else pre
  | None => base
  end.

End NodePath.


(* ===================================================================== *)
(** * Promises: results, exceptions and state                             *)
(* ===================================================================== *)

(** A thrown value.  [new Error(msg)] carries only a message; errors of
    Node's [fs] also carry a [code] ("ENOENT", ...); errors of the WebDAV
    client carry the HTTP [response] with its status. *)
Record JsError := mkJsError {
  message : string;
  code : option string;
  response_status : option nat
}.

Definition Error (msg : string) : JsError := mkJsError msg None None.

Inductive result (A : Type) : Type :=
| Ok (a : A)
| Err (e : JsError).
Arguments Ok {A} a.
Arguments Err {A} e.

Definition is_ok {A} (r : result A) : bool :=
  match r with Ok _ => true | Err _ => false end.

Global Instance result_ret : MRet result := λ A a, Ok a.
Global Instance result_bind : MBind result := λ A B f r,
  match r with Ok a => f a | Err e => Err e end.
Global Instance result_fmap : FMap result := λ A B f r,
  match r with Ok a => Ok (f a) | Err e => Err e end.

(** [try { r } catch (e) { h e }] for code that only reads. *)
Definition catch {A} (r : result A) (h : JsError → result A) : result A :=
  match r with Ok a => Ok a | Err e => h e end.

(** An asynchronous method that may change the state [S] of the outside
    world: what it changed before it threw stays changed. *)
Definition Async (S A : Type) : Type := S → result A * S.

Global Instance async_ret {S} : MRet (Async S) := λ A a s, (Ok a, s).
Global Instance async_bind {S} : MBind (Async S) := λ A B f m s,
  match m s with
  | (Ok a, s') => f a s'
  | (Err e, s') => (Err e, s')
  end.

Definition throw {S A} (e : JsError) : Async S A := λ s, (Err e, s).

Definition try_catch {S A} (m : Async S A) (h : JsError → Async S A)
  : Async S A :=
  λ s, match m s with
       | (Ok a, s') => (Ok a, s')
       | (Err e, s') => h e s'
       end.

(** A read-only call inside a method. *)
Definition read {S A} (f : S → result A) : Async S A := λ s, (f s, s).

(* ===================================================================== *)
(** * The outside world: Node's fs, the WebDAV client, the collation      *)
(* ===================================================================== *)

(** [fs.Dirent] and [fs.Stats], as far as the providers look at them. *)
Record Dirent := mkDirent { d_name : string; d_isDirectory : bool }.
Record Stats := mkStats { st_isDirectory : bool; st_size : Z; st_mtime : Z }.

(** [fs/promises] over a state [D] of the host's file system. *)
Class FsPromises (D : Type) := {
  fs_access : string → D → result unit;
  fs_stat : string → D → result Stats;
  fs_readdir : string → D → result (list Dirent);
  fs_mkdir_recursive : string → Async D unit;
  fs_rename : string → string → Async D unit
}.

(** [FileStat] of the webdav package. *)
Record FileStat := mkFileStat {
  fst_basename : string;
  fst_isDirectory : bool;
  fst_size : Z;
  fst_lastmod : option Z
}.

Record MediaMeta := mkMediaMeta {
  mm_duration : option Z;
  mm_resolution : option (Z * Z)
}.

(** The client of the webdav package over a state [R] of the server, and
    [ffprobe] on one of its URLs ([None]: ffprobe gave an error or no
    data). *)
Class WebDAVClient (R : Type) := {
  dav_stat : string → R → result FileStat;
  dav_getDirectoryContents : string → R → result (list FileStat);
  dav_createDirectory : string → bool → Async R unit;
  dav_moveFile : string → string → Async R unit;
  dav_ffprobe : string → R → option MediaMeta
}.

(** [String.prototype.localeCompare] of the host. *)
Class Locale := localeCompare : string → string → Z.

(* ===================================================================== *)
(** * src/resources/types.ts and base.resource.ts                         *)
(* ===================================================================== *)

Module ResourceType.
Inductive t := video | image | audio | folder.
End ResourceType.
Abbreviation ResourceType := ResourceType.t.

Global Instance ResourceType_eq_dec : EqDecision ResourceType.
Proof. solve_decision. Defined.

Record ResourceInfo := mkResourceInfo {
  name : string;
  path : string;
  type : ResourceType;
  size : option Z;
  modifiedTime : option Z;
  extension : option string;
  duration : option Z;
  resolution : option (Z * Z)
}.

Module BaseResourceLibrary.
Import Js.

Definition videoExts : list string :=
  [".mp4"; ".avi"; ".mov"; ".mkv"; ".flv"; ".wmv"; ".webm"; ".m4v"; ".mpg"; ".mpeg"].
Definition imageExts : list string :=
  [".jpg"; ".jpeg"; ".png"; ".gif"; ".bmp"; ".webp"; ".svg"; ".ico"].
Definition audioExts : list string :=
  [".mp3"; ".wav"; ".flac"; ".aac"; ".ogg"; ".wma"; ".m4a"].

Definition isVideo (ext : string) : bool := includes videoExts (toLowerCase ext).
Definition isImage (ext : string) : bool := includes imageExts (toLowerCase ext).
Definition isAudio (ext : string) : bool := includes audioExts (toLowerCase ext).

Definition getResourceType (filePath : string) : ResourceType :=
  let ext := NodePath.extname filePath in
  if isVideo ext then ResourceType.video
  else if isImage ext then ResourceType.image
  else if isAudio ext then ResourceType.audio
  else ResourceType.folder.

(** [Array.prototype.sort] with a comparator: a stable sort. *)
Fixpoint sort_insert {A} (cmp : A → A → Z) (x : A) (l : list A) : list A :=
  match l with
  | [] => [x]
  | y :: l' => if (cmp x y <=? 0)%Z then x :: l else y :: sort_insert cmp x l'
  end.

Definition array_sort {A} (cmp : A → A → Z) (l : list A) : list A :=
  foldr (sort_insert cmp) [] l.

Definition is_folder (r : ResourceInfo) : bool := bool_decide (type r = ResourceType.folder).

(** [sortResources(resources, 'name', 'asc')], the only way the
    providers call it: by name, folders first. *)
Definition sortResources `{Locale} (resources : list ResourceInfo)
  : list ResourceInfo :=
  let sorted := array_sort (λ a b, localeCompare (name a) (name b)) resources in
  List.filter is_folder sorted ++ List.filter (λ r, negb (is_folder r)) sorted.

End BaseResourceLibrary.

(* ===================================================================== *)
(** * src/resources/providers/local.resource.ts                           *)
(* ===================================================================== *)

Record LocalResourceConfig := mkLocalResourceConfig {
  l_basePath : string;
  l_allowedExtensions : option (list string)
}.

Module LocalResourceLibrary.
Import Js BaseResourceLibrary.

Section WithFs.
Context {D : Type} `{FsPromises D} `{Locale}.
Variable this : LocalResourceConfig.

(** The body of the inner [try] of [list] for one directory entry:
    [None] when the entry is skipped by a [continue] or is no media
    file. *)
Definition list_entry (dirPath : string) (item : Dirent) (d : D)
  : result (option ResourceInfo) :=
  let itemPath := NodePath.join2 dirPath (d_name item) in
  let fullItemPath := NodePath.join2 (l_basePath this) itemPath in
  if d_isDirectory item then
    mret (Some (mkResourceInfo (d_name item) itemPath ResourceType.folder None None None None None))
  else
    stats ← fs_stat fullItemPath d;
    let ext := NodePath.extname (d_name item) in
    let excluded :=
      match l_allowedExtensions this with
      | Some (_ :: _ as allowed) => negb (includes allowed (toLowerCase ext))
      | _ => false
      end in
    if excluded then mret None
    else
      let resourceType := getResourceType (d_name item) in
      if bool_decide (resourceType ≠ ResourceType.folder) then
        mret (Some (mkResourceInfo (d_name item) itemPath resourceType
                      (Some (st_size stats)) (Some (st_mtime stats))
                      (Some ext) None None))
      else mret None.

(** The [for] loop of [list]: hidden entries are skipped, an entry
    whose information cannot be read is skipped with a warning. *)
Fixpoint list_loop (dirPath : string) (items : list Dirent) (d : D)
  : list ResourceInfo :=
  match items with
  | [] => []
  | item :: rest =>
      (if startsWith (d_name item) "." then []
       else match catch (list_entry dirPath item d) (λ _, Ok None) with
            | Ok (Some r) => [r]
            | _ => []
            end)
      ++ list_loop dirPath rest d
  end.

Definition list (dirPath : string) (d : D) : result (list ResourceInfo) :=
  catch
    (let fullPath := NodePath.join2 (l_basePath this) dirPath in
     items ← fs_readdir fullPath d;
     mret (sortResources (list_loop dirPath items d)))
    (λ _, Ok []).

Definition getInfo (filePath : string) (d : D) : result ResourceInfo :=
  let fullPath := NodePath.join2 (l_basePath this) filePath in
  stats ← fs_stat fullPath d;
  let name := NodePath.basename filePath in
  let ext := NodePath.extname name in
  mret (mkResourceInfo name filePath
          (if st_isDirectory stats then ResourceType.folder else getResourceType name)
          (Some (st_size stats)) (Some (st_mtime stats))
          (if is_empty ext then None else Some ext) None None).

Definition createFolder (folderPath : string) : Async D unit :=
  let fullPath := NodePath.join2 (l_basePath this) folderPath in
  try_catch (fs_mkdir_recursive fullPath)
    (λ _, throw (Error ("创建文件夹失败: " +:+ folderPath))).

Definition move (sourcePath targetPath : string) : Async D unit :=
  let fullSourcePath := NodePath.join2 (l_basePath this) sourcePath in
  let fullTargetPath := NodePath.join2 (l_basePath this) targetPath in
  try_catch
    (_ ← read (fs_access fullSourcePath);
     _ ← try_catch
           (_ ← read (fs_access fullTargetPath);
            throw (Error ("目标路径已存在: " +:+ targetPath)))
           (λ error,
              if bool_decide (code error ≠ Some "ENOENT")
              then throw error else mret ());
     let targetDir := NodePath.dirname fullTargetPath in
     _ ← fs_mkdir_recursive targetDir;
     fs_rename fullSourcePath fullTargetPath)
    (λ error, throw error).

End WithFs.
End LocalResourceLibrary.

(* ===================================================================== *)
(** * src/resources/providers/webdav.resource.ts                          *)
(* ===================================================================== *)

Record WebDAVResourceConfig := mkWebDAVResourceConfig {
  w_url : string;
  w_basePath : option string
}.

Module WebDAVResourceLibrary.
Import Js BaseResourceLibrary.

(** [this.basePath = config.basePath || '/'] *)
Definition basePath (this : WebDAVResourceConfig) : string :=
  match w_basePath this with
  | Some b => if is_empty b then "/" else b
  | None => "/"
  end.

Definition normalizePath (filePath : string) : string :=
  let normalized := backslashes_to_slashes filePath in
  let normalized :=
    if negb (startsWith normalized "/") then "/" +:+ normalized else normalized in
  collapse_slashes normalized.

Definition fullPathOf (this : WebDAVResourceConfig) (p : string) : string :=
  normalizePath (NodePath.join2 (basePath this) p).

Definition getAccessPath (this : WebDAVResourceConfig) (filePath : string) : string :=
  w_url this +:+ collapse_slashes (fullPathOf this filePath).

Section WithClient.
Context {R : Type} `{WebDAVClient R} `{Locale}.
Variable this : WebDAVResourceConfig.

(** [probeMedia] never rejects: it resolves to [null] on an error. *)
Definition probeMedia (input : string) (r : R) : result (option MediaMeta) :=
  Ok (dav_ffprobe input r).

(** The media fields added to the information of a video or audio
    file, inside their own [try]. *)
Definition withMedia (itemPath : string) (info : ResourceInfo) (r : R)
  : ResourceInfo :=
  if bool_decide (type info = ResourceType.video) || bool_decide (type info = ResourceType.audio) then
    match catch (probeMedia (getAccessPath this itemPath) r) (λ _, Ok None) with
    | Ok (Some meta) =>
        mkResourceInfo (name info) (path info) (type info) (size info)
          (modifiedTime info) (extension info)
          (match mm_duration meta with Some x => Some x | None => duration info end)
          (match mm_resolution meta with Some x => Some x | None => resolution info end)
    | _ => info
    end
  else info.

Definition list_entry (dirPath : string) (item : FileStat) (r : R)
  : result (option ResourceInfo) :=
  let itemPath :=
    backslashes_to_slashes (NodePath.join2 dirPath (fst_basename item)) in
  if fst_isDirectory item then
    mret (Some (mkResourceInfo (fst_basename item) itemPath ResourceType.folder
                  None None None None None))
  else
    let ext := NodePath.extname (fst_basename item) in
    let resourceType := getResourceType (fst_basename item) in
    if bool_decide (resourceType ≠ ResourceType.folder) then
      let baseInfo :=
        mkResourceInfo (fst_basename item) itemPath resourceType
          (Some (fst_size item)) (fst_lastmod item)
          (if is_empty ext then None else Some ext) None None in
      mret (Some (withMedia itemPath baseInfo r))
    else mret None.

Fixpoint list_loop (dirPath : string) (items : list FileStat) (r : R)
  : list ResourceInfo :=
  match items with
  | [] => []
  | item :: rest =>
      (if startsWith (fst_basename item) "." then []
       else if str_eqb (fst_basename item) "." || str_eqb (fst_basename item) ".."
       then []
       else match catch (list_entry dirPath item r) (λ _, Ok None) with
            | Ok (Some info) => [info]
            | _ => []
            end)
      ++ list_loop dirPath rest r
  end.

Definition list (dirPath : string) (r : R) : result (list ResourceInfo) :=
  catch
    (let fullPath := fullPathOf this dirPath in
     items ← dav_getDirectoryContents fullPath r;
     mret (sortResources (list_loop dirPath items r)))
    (λ _, Ok []).

Definition getInfo (filePath : string) (r : R) : result ResourceInfo :=
  catch
    (let fullPath := fullPathOf this filePath in
     stat ← dav_stat fullPath r;
     let name := NodePath.basename filePath in
     let ext := NodePath.extname name in
     let info :=
       mkResourceInfo name filePath
         (if fst_isDirectory stat then ResourceType.folder else getResourceType name)
         (Some (fst_size stat)) (fst_lastmod stat)
         (if is_empty ext then None else Some ext) None None in
     mret (withMedia filePath info r))
    (λ _, Err (Error ("无法获取文件信息: " +:+ filePath))).

Definition createFolder (folderPath : string) : Async R unit :=
  let fullPath := fullPathOf this folderPath in
  try_catch (dav_createDirectory fullPath false)
    (λ _, throw (Error ("创建文件夹失败: " +:+ folderPath))).

Definition move (sourcePath targetPath : string) : Async R unit :=
  let fullSourcePath := fullPathOf this sourcePath in
  let fullTargetPath := fullPathOf this targetPath in
  try_catch
    (_ ← read (dav_stat fullSourcePath);
     _ ← try_catch
           (_ ← read (dav_stat fullTargetPath);
            throw (Error ("目标路径已存在: " +:+ targetPath)))
           (λ error,
              match response_status error with
              | Some status =>
                  if bool_decide (status ≠ 404%nat) then throw error else mret ()
              | None => mret ()
              end);
     let targetDir := normalizePath (NodePath.dirname fullTargetPath) in
     _ ← try_catch
           (_ ← read (dav_stat targetDir); mret ())
           (λ _, dav_createDirectory targetDir true);
     dav_moveFile fullSourcePath fullTargetPath)
    (λ error, throw error).

End WithClient.
End WebDAVResourceLibrary.

(* ===================================================================== *)
(** * An in-memory file tree, host file system and WebDAV server          *)
(* ===================================================================== *)

(** A model of the storage the providers run against: a finite map from
    locations (the names from the root down) to files and directories.
    It backs both [fs/promises] and a WebDAV server. *)

Module MemFs.

Inductive Node := NFile (size mtime : Z) | NDir.

Global Instance Node_eq_dec : EqDecision Node.
Proof. solve_decision. Defined.

Definition is_file (o : option Node) : bool :=
  match o with Some (NFile _ _) => true | _ => false end.

Abbreviation Tree := (gmap (list string) Node).

(** The location a path string denotes; relative paths start at the
    root of the tree. *)
Definition key_of (p : string) : list string :=
  rev (NodePath.norm_stack false p).

(** The root always exists. *)
Definition lookup (t : Tree) (k : list string) : option Node :=
  match k with [] => Some NDir | _ => t !! k end.

(** The non-empty prefixes of a location, itself included. *)
Definition prefixes (k : list string) : list (list string) :=
  map (λ i, take i k) (seq 1 (length k)).

Definition parent (k : list string) : list string := take (length k - 1) k.

Definition is_prefix (a k : list string) : bool :=
  bool_decide (take (length a) k = a).

Definition fsError (c : string) : JsError := mkJsError c (Some c) None.

(** A component of the path that is a file stops the walk. *)
Definition blocked (t : Tree) (k : list string) : bool :=
  existsb (λ pre, is_file (lookup t pre)) (prefixes (parent k)).

Definition resolve (t : Tree) (k : list string) : result Node :=
  if blocked t k then Err (fsError "ENOTDIR")
  else match lookup t k with
       | Some n => Ok n
       | None => Err (fsError "ENOENT")
       end.

(** The entries directly under a directory, in the order of the tree. *)
Definition children (t : Tree) (k : list string) : list (string * Node) :=
  omap (λ kn : list string * Node,
          match rev kn.1 with
          | n :: r => if bool_decide (rev r = k) then Some (n, kn.2) else None
          | [] => None
          end)
       (map_to_list t).

Definition mkdirs (t : Tree) (k : list string) : Tree :=
  foldr (λ pre acc, <[pre := NDir]> acc) t (prefixes k).

Definition mkdir_recursive (k : list string) : Async Tree unit :=
  λ t,
    if is_file (lookup t k) then (Err (fsError "EEXIST"), t)
    else if blocked t k then (Err (fsError "ENOTDIR"), t)
    else (Ok (), mkdirs t k).

(** Every entry at or under [ks] moves to the same place under [kt]. *)
Definition rekey (ks kt : list string) (kn : list string * Node)
  : list string * Node :=
  if is_prefix ks kn.1 then (kt ++ drop (length ks) kn.1, kn.2) else kn.

Definition move_subtree (ks kt : list string) (t : Tree) : Tree :=
  list_to_map (map (rekey ks kt) (map_to_list t)).

Definition remove_subtree (k : list string) (t : Tree) : Tree :=
  filter (λ kn : list string * Node, is_prefix k kn.1 = false) t.

(** [rename(2)] *)
Definition rename (ks kt : list string) : Async Tree unit :=
  λ t,
    match resolve t ks with
    | Err e => (Err e, t)
    | Ok n =>
        match ks, kt with
        | [], _ | _, [] => (Err (fsError "EBUSY"), t)
        | _, _ =>
            match resolve t (parent kt) with
            | Err e => (Err e, t)
            | Ok (NFile _ _) => (Err (fsError "ENOTDIR"), t)
            | Ok NDir =>
                match n with
                | NFile _ _ =>
                    match lookup t kt with
                    | Some NDir => (Err (fsError "EISDIR"), t)
                    | _ => (Ok (), <[kt := n]> (delete ks t))
                    end
                | NDir =>
                    if bool_decide (ks = kt) then (Ok (), t)
                    else if is_prefix ks kt then (Err (fsError "EINVAL"), t)
                    else match lookup t kt with
                         | Some (NFile _ _) => (Err (fsError "ENOTDIR"), t)
                         | Some NDir =>
                             match children t kt with
                             | [] => (Ok (), move_subtree ks kt (delete kt t))
                             | _ => (Err (fsError "ENOTEMPTY"), t)
                             end
                         | None => (Ok (), move_subtree ks kt t)
                         end
                end
            end
        end
    end.

Definition stats_of (n : Node) : Stats :=
  match n with
  | NFile size mtime => mkStats false size mtime
  | NDir => mkStats true 0 0
  end.

Definition dirent_of (e : string * Node) : Dirent :=
  mkDirent e.1 (bool_decide (e.2 = NDir)).

Definition readdir (k : list string) (t : Tree) : result (list Dirent) :=
  n ← resolve t k;
  match n with
  | NDir => Ok (map dirent_of (children t k))
  | NFile _ _ => Err (fsError "ENOTDIR")
  end.

(** The host file system. *)
Global Instance mem_fs : FsPromises Tree := {|
  fs_access p t := n ← resolve t (key_of p); mret ();
  fs_stat p t := n ← resolve t (key_of p); mret (stats_of n);
  fs_readdir p t := readdir (key_of p) t;
  fs_mkdir_recursive p := mkdir_recursive (key_of p);
  fs_rename ps pt := rename (key_of ps) (key_of pt)
|}.

(** A WebDAV server on the same kind of tree.  [None] is a server that
    cannot be reached: every request fails without a response. *)
Definition davError (status : nat) : JsError :=
  mkJsError "Invalid response" None (Some status).
Definition netError : JsError := mkJsError "ECONNREFUSED" (Some "ECONNREFUSED") None.

Definition filestat_of (k : list string) (n : Node) : FileStat :=
  match n with
  | NFile size mtime => mkFileStat (default "" (last k)) false size (Some mtime)
  | NDir => mkFileStat (default "" (last k)) true 0 None
  end.

Definition dav_found (t : Tree) (k : list string) : result Node :=
  if blocked t k then Err (davError 404)
  else match lookup t k with
       | Some n => Ok n
       | None => Err (davError 404)
       end.

(** MKCOL, and the client's walk down the path when [recursive]. *)
Definition dav_mkcol (k : list string) (recursive : bool) : Async Tree unit :=
  λ t,
    if recursive then
      if existsb (λ pre, is_file (lookup t pre)) (prefixes k)
      then (Err (davError 405), t)
      else (Ok (), mkdirs t k)
    else
      match lookup t k with
      | Some _ => (Err (davError 405), t)
      | None =>
          match dav_found t (parent k) with
          | Ok NDir => (Ok (), <[k := NDir]> t)
          | _ => (Err (davError 409), t)
          end
      end.

(** MOVE: the client sends [Overwrite: T], the destination is
    replaced. *)
Definition dav_move (ks kt : list string) : Async Tree unit :=
  λ t,
    match dav_found t ks with
    | Err e => (Err e, t)
    | Ok n =>
        match ks, kt with
        | [], _ | _, [] => (Err (davError 403), t)
        | _, _ =>
            match dav_found t (parent kt) with
            | Ok NDir =>
                if bool_decide (ks = kt) then (Err (davError 403), t)
                else if is_prefix ks kt || is_prefix kt ks
                then (Err (davError 403), t)
                else
                  match n with
                  | NFile _ _ =>
                      (Ok (), <[kt := n]> (delete ks (remove_subtree kt t)))
                  | NDir =>
                      (Ok (), move_subtree ks kt (remove_subtree kt t))
                  end
            | _ => (Err (davError 409), t)
            end
        end
    end.

Global Instance mem_dav : WebDAVClient (option Tree) := {|
  dav_stat p o :=
    match o with
    | Some t => n ← dav_found t (key_of p); mret (filestat_of (key_of p) n)
    | None => Err netError
    end;
  dav_getDirectoryContents p o :=
    match o with
    | Some t =>
        n ← dav_found t (key_of p);
        match n with
        | NDir => Ok (map (λ e, filestat_of [e.1] e.2) (children t (key_of p)))
        | NFile _ _ => Ok []
        end
    | None => Err netError
    end;
  dav_createDirectory p recursive o :=
    match o with
    | Some t => let '(r, t') := dav_mkcol (key_of p) recursive t in (r, Some t')
    | None => (Err netError, None)
    end;
  dav_moveFile ps pt o :=
    match o with
    | Some t => let '(r, t') := dav_move (key_of ps) (key_of pt) t in (r, Some t')
    | None => (Err netError, None)
    end;
  dav_ffprobe _ _ := None
|}.

(** Comparison of the code units, standing for the host's collation. *)
Definition byte_compare (a b : string) : Z :=
  match String.compare a b with
  | Lt => (-1)%Z
  | Eq => 0%Z
  | Gt => 1%Z
  end.

Global Instance byte_locale : Locale := byte_compare.

End MemFs.

(* ===================================================================== *)
(** * The database rows and the state of the whole system                 *)
(* ===================================================================== *)

Record ThemeResourcePath := mkThemeResourcePath {
  rp_libraryId : Z;
  rp_folderPath : string
}.

(** A row of the theme table with its [resourcePaths] relation, as
    [ThemeModel.findById] returns it.  [archiveFolderName] may be null. *)
Record Theme := mkTheme {
  theme_name : string;
  archiveFolderName : option string;
  resourcePaths : list ThemeResourcePath
}.

(** The configuration of a resource library row by its [type]; the
    factory registers providers for 'local' and 'webdav' only. *)
Inductive LibraryConfig :=
| LocalConfig (config : LocalResourceConfig)
| WebDAVConfig (config : WebDAVResourceConfig)
| OtherConfig (type : string).

Record ResourceLibraryRow := mkResourceLibraryRow {
  rl_name : string;
  rl_isActive : bool;
  rl_config : LibraryConfig
}.

Record UploadTask := mkUploadTask {
  task_id : Z;
  task_platformId : Z;
  task_libraryId : Z;
  task_resourcePath : string;
  task_resourceType : string;
  task_title : string;
  task_description : string;
  task_tags : string;
  task_status : string;
  task_scheduledAt : option Z
}.

(** An instance of [IResourceLibrary] made by the factory. *)
Inductive Library :=
| LocalLib (this : LocalResourceConfig)
| WebDAVLib (this : WebDAVResourceConfig).

Record World (D R : Type) := mkWorld {
  themes : gmap Z Theme;
  resourceLibraries : gmap Z ResourceLibraryRow;
  uploadTasks : list UploadTask;
  disk : D;
  servers : gmap string R
}.
Arguments mkWorld {D R}.
Arguments themes {D R}.
Arguments resourceLibraries {D R}.
Arguments uploadTasks {D R}.
Arguments disk {D R}.
Arguments servers {D R}.

Definition set_disk {D R} (d : D) (w : World D R) : World D R :=
  mkWorld (themes w) (resourceLibraries w) (uploadTasks w) d (servers w).

Definition set_server {D R} (url : string) (o : option R) (w : World D R)
  : World D R :=
  match o with
  | Some r => mkWorld (themes w) (resourceLibraries w) (uploadTasks w) (disk w)
                (<[url := r]> (servers w))
  | None => w
  end.

Definition add_task {D R} (t : UploadTask) (w : World D R) : World D R :=
  mkWorld (themes w) (resourceLibraries w) (uploadTasks w ++ [t]) (disk w) (servers w).

(* ===================================================================== *)
(** * src/resources/factory.ts and resource.service.ts                    *)
(* ===================================================================== *)

Module ResourceLibraryFactory.

Definition create (config : LibraryConfig) : result Library :=
  match config with
  | LocalConfig c => Ok (LocalLib c)
  | WebDAVConfig c => Ok (WebDAVLib c)
  | OtherConfig type => Err (Error ("资源库类型 " +:+ type +:+ " 未注册"))
  end.

End ResourceLibraryFactory.

(** The methods of a library instance, run on the state of the system. *)
Module IResourceLibrary.
Section WithBackends.
Context {D R : Type} `{FsPromises D} `{WebDAVClient (option R)} `{Locale}.

Definition list (library : Library) (p : string) (w : World D R)
  : result (list ResourceInfo) :=
  match library with
  | LocalLib this => LocalResourceLibrary.list this p (disk w)
  | WebDAVLib this => WebDAVResourceLibrary.list this p (servers w !! w_url this)
  end.

Definition getInfo (library : Library) (p : string) (w : World D R)
  : result ResourceInfo :=
  match library with
  | LocalLib this => LocalResourceLibrary.getInfo this p (disk w)
  | WebDAVLib this => WebDAVResourceLibrary.getInfo this p (servers w !! w_url this)
  end.

Definition on_disk {A} (m : Async D A) : Async (World D R) A :=
  λ w, let '(r, d) := m (disk w) in (r, set_disk d w).

Definition on_server {A} (url : string) (m : Async (option R) A)
  : Async (World D R) A :=
  λ w, let '(r, o) := m (servers w !! url) in (r, set_server url o w).

Definition createFolder (library : Library) (p : string)
  : Async (World D R) unit :=
  match library with
  | LocalLib this => on_disk (LocalResourceLibrary.createFolder this p)
  | WebDAVLib this =>
      on_server (w_url this) (WebDAVResourceLibrary.createFolder this p)
  end.

Definition move (library : Library) (s t : string) : Async (World D R) unit :=
  match library with
  | LocalLib this => on_disk (LocalResourceLibrary.move this s t)
  | WebDAVLib this =>
      on_server (w_url this) (WebDAVResourceLibrary.move this s t)
  end.

End WithBackends.
End IResourceLibrary.

Module ResourceService.
Section WithBackends.
Context {D R : Type} `{FsPromises D} `{WebDAVClient (option R)} `{Locale}.

(** [ResourceService.getLibraryInstance].  The cache of instances is
    left out: an instance is its configuration, and no method of the
    theme service changes a library row. *)
Definition getLibraryInstance (libraryId : Z) (w : World D R) : result Library :=
  match resourceLibraries w !! libraryId with
  | None =>
      Err (Error ("资源库 " +:+ pretty libraryId +:+ " 不存在"))
  | Some libraryConfig =>
      if negb (rl_isActive libraryConfig)
      then Err (Error ("资源库 " +:+ rl_name libraryConfig +:+ " 未激活"))
      else ResourceLibraryFactory.create (rl_config libraryConfig)
  end.

(** [browseLibrary(libraryId, path, { type })]: the theme service
    passes no other option. *)
Definition browseLibrary (libraryId : Z) (p : string)
    (type_option : option ResourceType) (w : World D R)
  : result (list ResourceInfo) :=
  instance ← getLibraryInstance libraryId w;
  resources ← IResourceLibrary.list instance p w;
  mret (match type_option with
        | Some ty => List.filter (λ r, bool_decide (type r = ty)) resources
        | None => resources
        end).

End WithBackends.
End ResourceService.

(* ===================================================================== *)
(** * ThemeModel and UploadService.createTask                             *)
(* ===================================================================== *)

Module ThemeModel.
Section WithBackends.
Context {D R : Type}.

Definition findById (id : Z) (w : World D R) : option Theme := themes w !! id.

(** [theme?.resourcePaths || []] *)
Definition getThemeVideos (themeId : Z) (w : World D R)
  : list ThemeResourcePath :=
  match themes w !! themeId with
  | Some theme => resourcePaths theme
  | None => []
  end.

End WithBackends.
End ThemeModel.

Record CreateTaskData := mkCreateTaskData {
  ct_platformId : Z;
  ct_libraryId : Z;
  ct_resourcePath : string;
  ct_title : string;
  ct_description : option string;
  ct_tags : option string;
  ct_scheduledAt : option Z
}.

(** The database behind [prisma.uploadTask.create]: it stores the row
    under an id of its choosing, or rejects it with an error and stores
    nothing.  The schema of the table is not in the sources. *)
Class UploadTaskTable (W : Type) :=
  prisma_uploadTask_create : CreateTaskData → W → result Z.

Module UploadService.
Section WithBackends.
Context {D R : Type} {table : UploadTaskTable (World D R)}.

(** [data.x || ''] *)
Definition or_empty (o : option string) : string := default "" o.

(** [createTask(data)]: [prisma.uploadTask.create] stores the row and
    returns it with its id; the [catch] logs a rejection and throws the
    error again. *)
Definition createTask (data : CreateTaskData) : Async (World D R) UploadTask :=
  try_catch
    (λ w,
       match prisma_uploadTask_create data w with
       | Ok id =>
           let task :=
             mkUploadTask id
               (ct_platformId data) (ct_libraryId data) (ct_resourcePath data)
               "video" (ct_title data) (or_empty (ct_description data))
               (or_empty (ct_tags data)) "pending" (ct_scheduledAt data) in
           (Ok task, add_task task w)
       | Err error => (Err error, w)
       end)
    (λ error, throw error).

End WithBackends.
End UploadService.

(* ===================================================================== *)
(** * src/services/theme.service.ts                                       *)
(* ===================================================================== *)

(** An element of the array [getThemeVideos] returns:
    [{ ...video, libraryId, libraryPath, fullPath, isPublished }]. *)
Record VideoEntry := mkVideoEntry {
  info : ResourceInfo;
  libraryId : Z;
  libraryPath : string;
  fullPath : string;
  isPublished : bool
}.

(** An element of [results] of the batch archive operations. *)
Record MoveResult := mkMoveResult {
  mr_path : string;
  mr_success : bool;
  mr_message : option string
}.

Record ArchiveReport := mkArchiveReport {
  total : nat;
  archived : nat;
  failed : nat;
  results : list MoveResult
}.

Record UnarchiveReport := mkUnarchiveReport {
  u_total : nat;
  unarchived : nat;
  u_failed : nat;
  u_results : list MoveResult
}.

Record PublishOptions := mkPublishOptions {
  accountIds : list Z;
  videoPaths : list string;
  autoArchive : option bool;
  title : option string;
  tags : option (list string);
  scheduledAt : option Z
}.

Record PublishTask := mkPublishTask {
  pt_taskId : Z;
  pt_accountId : Z;
  pt_videoName : string;
  pt_videoPath : string;
  pt_libraryId : Z;
  pt_autoArchive : bool
}.

Record PublishReport := mkPublishReport {
  tasks : list PublishTask;
  totalTasks : nat;
  accountCount : nat;
  videoCount : nat
}.

Record ThemeStatistics := mkThemeStatistics {
  published : nat;
  unpublished : nat
}.

(** [for (const x of xs) { await f(x) }] *)
Fixpoint forEach {S A} (f : A → Async S unit) (xs : list A) : Async S unit :=
  match xs with
  | [] => mret ()
  | x :: rest => _ ← f x; forEach f rest
  end.

(** [arr.push(...xs)] on a local array. *)
Definition push {A} (xs : list A) : Async (list A) unit :=
  λ arr, (Ok (), arr ++ xs).

Module ThemeService.
Section WithBackends.
Context {D R : Type} `{FsPromises D} `{WebDAVClient (option R)} `{Locale}.
Context {table : UploadTaskTable (World D R)}.

Definition themeNotFound : JsError := Error "主题库不存在".

(** [theme.archiveFolderName || 'published'] *)
Definition effectiveArchiveFolderName (theme : Theme) : string :=
  match archiveFolderName theme with
  | Some n => if Js.is_empty n then "published" else n
  | None => "published"
  end.

Definition is_video (r : ResourceInfo) : bool := bool_decide (type r = ResourceType.video).

Definition withInfo (resourcePath : ThemeResourcePath) (libraryPath : string)
    (isPublished : bool) (video : ResourceInfo) : VideoEntry :=
  mkVideoEntry video (rp_libraryId resourcePath) libraryPath
    (libraryPath +:+ "/" +:+ name video) isPublished.

(** The body of the loop of [getThemeVideos] over the resource paths;
    the state is the local array [allVideos]. *)
Definition collectResourcePath (archiveFolderName : string) (w : World D R)
    (resourcePath : ThemeResourcePath) : Async (list VideoEntry) unit :=
  try_catch
    (mainResources ← read (λ _,
       ResourceService.browseLibrary (rp_libraryId resourcePath)
         (rp_folderPath resourcePath) (Some ResourceType.video) w);
     let mainVideos := List.filter is_video mainResources in
     let mainVideosWithInfo :=
       map (withInfo resourcePath (rp_folderPath resourcePath) false) mainVideos in
     _ ← push mainVideosWithInfo;
     let archivePath := NodePath.join2 (rp_folderPath resourcePath) archiveFolderName in
     try_catch
       (archiveResources ← read (λ _,
          ResourceService.browseLibrary (rp_libraryId resourcePath)
            archivePath (Some ResourceType.video) w);
        let archiveVideos := List.filter is_video archiveResources in
        let archiveVideosWithInfo :=
          map (withInfo resourcePath archivePath true) archiveVideos in
        push archiveVideosWithInfo)
       (λ _, mret ()))
    (λ _, mret ()).

Definition getThemeVideos (themeId : Z) (w : World D R)
  : result (list VideoEntry) :=
  match ThemeModel.findById themeId w with
  | None => Err themeNotFound
  | Some theme =>
      let resourcePaths := ThemeModel.getThemeVideos themeId w in
      let archiveFolderName := effectiveArchiveFolderName theme in
      let '(r, allVideos) :=
        forEach (collectResourcePath archiveFolderName w) resourcePaths [] in
      match r with
      | Ok _ => Ok allVideos
      | Err e => Err e
      end
  end.

Definition getThemeStatistics (themeId : Z) (w : World D R)
  : result ThemeStatistics :=
  videos ← getThemeVideos themeId w;
  let publishedVideos := List.filter isPublished videos in
  let unpublishedVideos := List.filter (λ v, negb (isPublished v)) videos in
  mret (mkThemeStatistics (length publishedVideos) (length unpublishedVideos)).

(** [options.title || path.parse(video.name).name] *)
Definition taskTitle (options : PublishOptions) (video : VideoEntry) : string :=
  match title options with
  | Some t => if Js.is_empty t then NodePath.parse_name (name (info video)) else t
  | None => NodePath.parse_name (name (info video))
  end.

(** [options.tags?.join(',') || ''] *)
Definition taskTags (options : PublishOptions) : string :=
  match tags options with
  | Some ts => Js.join "," ts
  | None => ""
  end.

(** [options.autoArchive !== false] *)
Definition effectiveAutoArchive (options : PublishOptions) : bool :=
  match autoArchive options with
  | Some false => false
  | _ => true
  end.

Fixpoint publishVideos (options : PublishOptions) (accountId : Z)
    (videos : list VideoEntry) (tasks : list PublishTask)
  : Async (World D R) (list PublishTask) :=
  match videos with
  | [] => mret tasks
  | video :: rest =>
      task ← UploadService.createTask
               (mkCreateTaskData accountId (libraryId video) (fullPath video)
                  (taskTitle options video) None (Some (taskTags options))
                  (scheduledAt options));
      publishVideos options accountId rest
        (tasks ++ [mkPublishTask (task_id task) accountId (name (info video))
                     (fullPath video) (libraryId video)
                     (effectiveAutoArchive options)])
  end.

Fixpoint publishAccounts (options : PublishOptions) (accounts : list Z)
    (videos : list VideoEntry) (tasks : list PublishTask)
  : Async (World D R) (list PublishTask) :=
  match accounts with
  | [] => mret tasks
  | accountId :: rest =>
      tasks' ← publishVideos options accountId videos tasks;
      publishAccounts options rest videos tasks'
  end.

Definition batchPublishThemeVideos (themeId : Z) (options : PublishOptions)
  : Async (World D R) PublishReport :=
  λ w,
    match ThemeModel.findById themeId w with
    | None => (Err themeNotFound, w)
    | Some theme =>
        if bool_decide (length (accountIds options) = 0%nat)
        then (Err (Error "没有指定账号"), w)
        else if bool_decide (length (videoPaths options) = 0%nat)
        then (Err (Error "没有指定视频"), w)
        else
          match getThemeVideos themeId w with
          | Err e => (Err e, w)
          | Ok allVideos =>
              let videosToPublish :=
                List.filter (λ video, Js.includes (videoPaths options) (fullPath video))
                  allVideos in
              if bool_decide (length videosToPublish = 0%nat)
              then (Err (Error "没有找到匹配的视频"), w)
              else
                (tasks ← publishAccounts options (accountIds options)
                           videosToPublish [];
                 mret (mkPublishReport tasks (length tasks)
                         (length (accountIds options))
                         (length videosToPublish))) w
          end
    end.

(** [try { await library.getInfo(archivePath) } catch { await
    library.createFolder(archivePath) }] *)
Definition ensureFolder (library : Library) (archivePath : string)
  : Async (World D R) unit :=
  try_catch
    (_ ← read (IResourceLibrary.getInfo library archivePath); mret ())
    (λ _, IResourceLibrary.createFolder library archivePath).

Definition archiveVideo (themeId libraryId : Z) (videoPath : string)
  : Async (World D R) unit :=
  λ w,
    match ThemeModel.findById themeId w with
    | None => (Err themeNotFound, w)
    | Some theme =>
        (library ← read (ResourceService.getLibraryInstance libraryId);
         let directory := NodePath.dirname videoPath in
         let filename := NodePath.basename videoPath in
         let archiveFolderName := effectiveArchiveFolderName theme in
         let archivePath := NodePath.join2 directory archiveFolderName in
         let targetPath := NodePath.join2 archivePath filename in
         _ ← ensureFolder library archivePath;
         IResourceLibrary.move library videoPath targetPath) w
    end.

Definition unarchiveVideo (themeId libraryId : Z) (videoPath : string)
  : Async (World D R) unit :=
  λ w,
    match ThemeModel.findById themeId w with
    | None => (Err themeNotFound, w)
    | Some theme =>
        (library ← read (ResourceService.getLibraryInstance libraryId);
         let directory := NodePath.dirname videoPath in
         let filename := NodePath.basename videoPath in
         let archiveFolderName := effectiveArchiveFolderName theme in
         if negb (Js.endsWith directory archiveFolderName)
         then throw (Error "视频不在归档文件夹中")
         else
           let parentDir := NodePath.dirname directory in
           let targetPath := NodePath.join2 parentDir filename in
           IResourceLibrary.move library videoPath targetPath) w
    end.

(** The loop of the two batch operations: each video is moved inside
    its own [try], and its outcome is pushed on [results]. *)
Fixpoint moveEach (moveVideo : Z → string → Async (World D R) unit)
    (videos : list VideoEntry) (results : list MoveResult)
  : Async (World D R) (list MoveResult) :=
  match videos with
  | [] => mret results
  | video :: rest =>
      results' ←
        try_catch
          (_ ← moveVideo (libraryId video) (fullPath video);
           mret (results ++ [mkMoveResult (fullPath video) true None]))
          (λ error,
             mret (results ++
                     [mkMoveResult (fullPath video) false (Some (message error))]));
      moveEach moveVideo rest results'
  end.

Definition count_success (results : list MoveResult) : nat :=
  length (List.filter mr_success results).

Definition count_failure (results : list MoveResult) : nat :=
  length (List.filter (λ r, negb (mr_success r)) results).

Definition batchArchiveVideos (themeId : Z) (videoPaths : list string)
  : Async (World D R) ArchiveReport :=
  λ w,
    match ThemeModel.findById themeId w with
    | None => (Err themeNotFound, w)
    | Some theme =>
        match getThemeVideos themeId w with
        | Err e => (Err e, w)
        | Ok allVideos =>
            let videosToArchive :=
              List.filter
                (λ video, Js.includes videoPaths (fullPath video)
                          && negb (isPublished video))
                allVideos in
            (results ← moveEach (archiveVideo themeId) videosToArchive [];
             mret (mkArchiveReport (length videoPaths) (count_success results)
                     (count_failure results) results)) w
        end
    end.

Definition batchUnarchiveVideos (themeId : Z) (videoPaths : list string)
  : Async (World D R) UnarchiveReport :=
  λ w,
    match ThemeModel.findById themeId w with
    | None => (Err themeNotFound, w)
    | Some theme =>
        match getThemeVideos themeId w with
        | Err e => (Err e, w)
        | Ok allVideos =>
            let videosToUnarchive :=
              List.filter
                (λ video, Js.includes videoPaths (fullPath video)
                          && isPublished video)
                allVideos in
            (results ← moveEach (unarchiveVideo themeId) videosToUnarchive [];
             mret (mkUnarchiveReport (length videoPaths) (count_success results)
                     (count_failure results) results)) w
        end
    end.

End WithBackends.
End ThemeService.

(* ===================================================================== *)
(** * Notions the statements below are written with                       *)
(* ===================================================================== *)

Section Notions.
Context {D R : Type} `{FsPromises D} `{WebDAVClient (option R)} `{Locale}.

(** The entries a resource path contributes from its main folder: what
    listing the folder gives, tagged unpublished; nothing when the
    listing call raises. *)
Definition mainEntries (w : World D R) (resourcePath : ThemeResourcePath)
  : list VideoEntry :=
  match ResourceService.browseLibrary (rp_libraryId resourcePath)
          (rp_folderPath resourcePath) (Some ResourceType.video) w with
  | Ok resources =>
      map (ThemeService.withInfo resourcePath (rp_folderPath resourcePath) false)
          (List.filter ThemeService.is_video resources)
  | Err _ => []
  end.

(** The entries a resource path contributes from its archive folder. *)
Definition archiveEntries (archiveFolderName : string) (w : World D R)
    (resourcePath : ThemeResourcePath) : list VideoEntry :=
  let archivePath := NodePath.join2 (rp_folderPath resourcePath) archiveFolderName in
  match ResourceService.browseLibrary (rp_libraryId resourcePath)
          archivePath (Some ResourceType.video) w with
  | Ok resources =>
      map (ThemeService.withInfo resourcePath archivePath true)
          (List.filter ThemeService.is_video resources)
  | Err _ => []
  end.

(** The outcomes of moving each video of a list in turn, whatever the
    outcome of the ones before, and the state after the last one. *)
Fixpoint attempts (moveVideo : Z → string → Async (World D R) unit)
    (videos : list VideoEntry) (w : World D R)
  : list (result unit) * World D R :=
  match videos with
  | [] => ([], w)
  | video :: rest =>
      let '(r, w1) := moveVideo (libraryId video) (fullPath video) w in
      let '(rs, w2) := attempts moveVideo rest w1 in
      (r :: rs, w2)
  end.

(** The entry of [results] for a video whose move had the outcome [r]. *)
Definition resultOf (video : VideoEntry) (r : result unit) : MoveResult :=
  match r with
  | Ok _ => mkMoveResult (fullPath video) true None
  | Err e => mkMoveResult (fullPath video) false (Some (message e))
  end.

Definition resultsOf (videos : list VideoEntry) (rs : list (result unit))
  : list MoveResult :=
  zip_with resultOf videos rs.

(** The videos of an inventory a batch archive (or unarchive, when
    [wantPublished]) of [videoPaths] moves. *)
Definition eligible (wantPublished : bool) (videoPaths : list string)
    (allVideos : list VideoEntry) : list VideoEntry :=
  List.filter
    (λ video, Js.includes videoPaths (fullPath video)
              && (if wantPublished then isPublished video
                  else negb (isPublished video)))
    allVideos.

(** The task record and the upload task made for an account and a video. *)
Definition publishTaskFor (options : PublishOptions) (taskId : Z)
    (accountId : Z) (video : VideoEntry) : PublishTask :=
  mkPublishTask taskId accountId (name (info video)) (fullPath video)
    (libraryId video) (ThemeService.effectiveAutoArchive options).

Definition uploadTaskFor (options : PublishOptions) (taskId : Z)
    (accountId : Z) (video : VideoEntry) : UploadTask :=
  mkUploadTask taskId accountId (libraryId video) (fullPath video) "video"
    (ThemeService.taskTitle options video) ""
    (ThemeService.taskTags options) "pending" (scheduledAt options).

End Notions.

(** The pairs of accounts and videos in the order the tasks are made:
    account by account, and video by video for each. *)
Definition accountVideoPairs (accounts : list Z) (videos : list VideoEntry)
  : list (Z * VideoEntry) :=
  a ← accounts; map (λ v, (a, v)) videos.

(** What C2 says of [results], read to the letter: every requested path
    that is the path of an inventory video with the required status has
    exactly one entry. *)
Definition one_result_per_matched_path (wantPublished : bool)
    (videoPaths : list string) (allVideos : list VideoEntry)
    (results : list MoveResult) : Prop :=
  ∀ p, p ∈ videoPaths →
       (∃ v, v ∈ allVideos ∧ fullPath v = p ∧ isPublished v = wantPublished) →
       length (List.filter (λ r, Js.str_eqb (mr_path r) p) results) = 1%nat.

Definition publishTaskOf (options : PublishOptions) (x : Z * (Z * VideoEntry))
  : PublishTask :=
  publishTaskFor options x.1 x.2.1 x.2.2.

Definition uploadTaskOf (options : PublishOptions) (x : Z * (Z * VideoEntry))
  : UploadTask :=
  uploadTaskFor options x.1 x.2.1 x.2.2.

Definition with_tasks {D R} (ts : list UploadTask) (w : World D R) : World D R :=
  mkWorld (themes w) (resourceLibraries w) (uploadTasks w ++ ts) (disk w) (servers w).

(** The id a task table that counts its rows gives the next one. *)
Definition nextId {D R} (w : World D R) : Z :=
  Z.of_nat (length (uploadTasks w)) + 1.

Section Fanning.
Context {D R : Type} {table : UploadTaskTable (World D R)}.
Variable options : PublishOptions.

(** What [createTask] is called with for an account and a video. *)
Definition dataOf (x : Z * VideoEntry) : CreateTaskData :=
  mkCreateTaskData x.1 (libraryId x.2) (fullPath x.2)
    (ThemeService.taskTitle options x.2) None
    (Some (ThemeService.taskTags options)) (scheduledAt options).

(** The outcome [run] of the [for] loops over pairs of accounts and
    videos, started with the records [acc] in the state [w]: either
    every row was accepted, or the rows before the first one the table
    rejected are stored and the error of that one is raised. *)
Definition fanned (pairs : list (Z * VideoEntry)) (acc : list PublishTask)
    (w : World D R) (run : result (list PublishTask) * World D R) : Prop :=
  ∃ ids,
    run.2 = with_tasks (map (uploadTaskOf options) (zip ids pairs)) w
    ∧ ((length ids = length pairs
        ∧ run.1 = Ok (acc ++ map (publishTaskOf options) (zip ids pairs)))
       ∨ (∃ e x, (length ids < length pairs)%nat
                 ∧ pairs !! length ids = Some x
                 ∧ prisma_uploadTask_create (dataOf x) run.2 = Err e
                 ∧ run.1 = Err e)).

End Fanning.



(* ===================================================================== *)
(** * Paths as lists of names                                             *)
(* ===================================================================== *)

(** The names of a path that take part in its location: the segments
    other than the empty one and [.]. *)
Definition namedSegment (s : string) : bool :=
  negb (Js.is_empty s) && negb (Js.str_eqb s ".").

Definition segs (p : string) : list string :=
  List.filter namedSegment (Js.split_slash p).

(** No segment of the path is [..]. *)
Definition no_dotdot (p : string) : bool :=
  forallb (λ s, negb (Js.str_eqb s "..")) (Js.split_slash p).

Fixpoint has_backslash (s : string) : bool :=
  match s with
  | EmptyString => false
  | String c s' => Ascii.eqb c Js.backslash || has_backslash s'
  end.

(** A path the providers take as it is written: no [..] step and no
    backslash. *)
Definition tame (p : string) : bool := no_dotdot p && negb (has_backslash p).

(** A name of a file or folder: one plain segment without backslash. *)
Definition tameName (n : string) : bool :=
  NodePath.plain n && negb (has_backslash n).

(** The path with the given names, absolute or relative. *)
Definition render (absolute : bool) (names : list string) : string :=
  (if absolute then "/" else "") +:+ Js.join "/" names.

(** The path [archiveVideo] moves a video to, and the one
    [unarchiveVideo] moves it to. *)
Definition archiveTarget (archiveFolderName videoPath : string) : string :=
  NodePath.join2
    (NodePath.join2 (NodePath.dirname videoPath) archiveFolderName)
    (NodePath.basename videoPath).

Definition unarchiveTarget (videoPath : string) : string :=
  NodePath.join2 (NodePath.dirname (NodePath.dirname videoPath))
    (NodePath.basename videoPath).

(** The location on the in-memory disk of a path of a local library. *)
Definition lkey (this : LocalResourceConfig) (p : string) : list string :=
  MemFs.key_of (NodePath.join2 (l_basePath this) p).

(* ===================================================================== *)
(** * Example states of the system                                        *)
(* ===================================================================== *)

Module Examples.
Import MemFs.

Abbreviation MemWorld := (World Tree Tree).

Definition localLibrary (basePath : string) : ResourceLibraryRow :=
  mkResourceLibraryRow "local" true (LocalConfig (mkLocalResourceConfig basePath None)).

Definition davLibrary (url : string) : ResourceLibraryRow :=
  mkResourceLibraryRow "dav" true (WebDAVConfig (mkWebDAVResourceConfig url None)).

(** Scenario A of the specification: [/videos/food] holds [a.mp4] and
    [b.mp4], and [c.mp4] in [published]; the library is rooted at
    [/data]. *)
Definition foodTree : Tree :=
  list_to_map
    [ (["data"], NDir); (["data"; "videos"], NDir);
      (["data"; "videos"; "food"], NDir);
      (["data"; "videos"; "food"; "a.mp4"], NFile 10 1);
      (["data"; "videos"; "food"; "b.mp4"], NFile 20 2);
      (["data"; "videos"; "food"; "published"], NDir);
      (["data"; "videos"; "food"; "published"; "c.mp4"], NFile 30 3) ].

Definition foodTheme : Theme :=
  mkTheme "food" None [mkThemeResourcePath 1 "/videos/food"].

Definition foodWorld : MemWorld :=
  mkWorld {[ 1%Z := foodTheme ]} {[ 1%Z := localLibrary "/data" ]} [] foodTree ∅.

(** Scenario E: the archive folder does not exist yet. *)
Definition freshTree : Tree :=
  list_to_map
    [ (["data"], NDir); (["data"; "videos"], NDir);
      (["data"; "videos"; "food"], NDir);
      (["data"; "videos"; "food"; "a.mp4"], NFile 10 1) ].

Definition freshWorld : MemWorld :=
  mkWorld {[ 1%Z := foodTheme ]} {[ 1%Z := localLibrary "/data" ]} [] freshTree ∅.

(** A resource path whose own folder is called [published]. *)
Definition publishedRootTree : Tree :=
  list_to_map
    [ (["data"], NDir); (["data"; "videos"], NDir);
      (["data"; "videos"; "published"], NDir);
      (["data"; "videos"; "published"; "a.mp4"], NFile 10 1) ].

Definition publishedRootWorld : MemWorld :=
  mkWorld {[ 1%Z := mkTheme "t" None [mkThemeResourcePath 1 "/videos/published"] ]}
    {[ 1%Z := localLibrary "/data" ]} [] publishedRootTree ∅.

(** Two libraries, each with a video at [/v/a.mp4], under one theme. *)
Definition twinTree : Tree :=
  list_to_map
    [ (["d1"], NDir); (["d1"; "v"], NDir); (["d1"; "v"; "a.mp4"], NFile 10 1);
      (["d2"], NDir); (["d2"; "v"], NDir); (["d2"; "v"; "a.mp4"], NFile 20 2) ].

Definition twinWorld : MemWorld :=
  mkWorld
    {[ 1%Z := mkTheme "twin" None
                [mkThemeResourcePath 1 "/v"; mkThemeResourcePath 2 "/v"] ]}
    {[ 1%Z := localLibrary "/d1"; 2%Z := localLibrary "/d2" ]} [] twinTree ∅.

(** [a.mp4] is already in the archive folder under the same name. *)
Definition collisionTree : Tree :=
  list_to_map
    [ (["data"], NDir); (["data"; "v"], NDir);
      (["data"; "v"; "a.mp4"], NFile 10 1);
      (["data"; "v"; "b.mp4"], NFile 20 2);
      (["data"; "v"; "published"], NDir);
      (["data"; "v"; "published"; "a.mp4"], NFile 11 0) ].

Definition collisionWorld : MemWorld :=
  mkWorld {[ 1%Z := mkTheme "c" None [mkThemeResourcePath 1 "/v"] ]}
    {[ 1%Z := localLibrary "/data" ]} [] collisionTree ∅.

(** A video in a folder whose name only ends like the archive folder's. *)
Definition unpublishedTree : Tree :=
  list_to_map
    [ (["data"], NDir); (["data"; "videos"], NDir);
      (["data"; "videos"; "unpublished"], NDir);
      (["data"; "videos"; "unpublished"; "c.mp4"], NFile 30 3) ].

Definition unpublishedWorld : MemWorld :=
  mkWorld {[ 1%Z := mkTheme "u" None [mkThemeResourcePath 1 "/videos"] ]}
    {[ 1%Z := localLibrary "/data" ]} [] unpublishedTree ∅.

(** A WebDAV library with [a.mp4] both in [/v] and in [/v/published]. *)
Definition davConfig : WebDAVResourceConfig :=
  mkWebDAVResourceConfig "http://dav.example" None.

Definition davTree : Tree :=
  list_to_map
    [ (["v"], NDir); (["v"; "a.mp4"], NFile 10 1);
      (["v"; "published"], NDir);
      (["v"; "published"; "a.mp4"], NFile 11 0) ].

Definition localAtRoot : LocalResourceConfig := mkLocalResourceConfig "/" None.

(** An archive folder name of two segments. *)
Definition nestedNameTheme : Theme :=
  mkTheme "n" (Some "old/2024") [mkThemeResourcePath 1 "/videos/food"].

Definition nestedNameWorld : MemWorld :=
  mkWorld {[ 1%Z := nestedNameTheme ]} {[ 1%Z := localLibrary "/data" ]} []
    freshTree ∅.

(** A theme with two resource paths, the second one the archive folder
    of the first, each holding an [a.mp4]. *)
Definition nestedRootsTree : Tree :=
  list_to_map
    [ (["data"], NDir); (["data"; "v"], NDir);
      (["data"; "v"; "a.mp4"], NFile 10 1);
      (["data"; "v"; "published"], NDir);
      (["data"; "v"; "published"; "a.mp4"], NFile 20 2) ].

Definition nestedRootsTheme : Theme :=
  mkTheme "r" None
    [mkThemeResourcePath 1 "/v"; mkThemeResourcePath 1 "/v/published"].

Definition nestedRootsWorld : MemWorld :=
  mkWorld {[ 1%Z := nestedRootsTheme ]} {[ 1%Z := localLibrary "/data" ]} []
    nestedRootsTree ∅.

(** A task table that numbers its rows from 1 and accepts every row. *)
Definition countingTable : UploadTaskTable MemWorld :=
  λ _ w, Ok (nextId w).

(** A task table that knows the account 1 only: it rejects the rows of
    every other account. *)
Definition account1Table : UploadTaskTable MemWorld :=
  λ data w,
    if bool_decide (ct_platformId data = 1%Z) then Ok (nextId w)
    else Err (mkJsError "Foreign key constraint failed" (Some "P2003") None).

End Examples.

(* ===================================================================== *)
(** * Further notions                                                     *)
(* ===================================================================== *)

(** Two slashes in a row somewhere in the string. *)
Fixpoint has_double_slash (s : string) : bool :=
  match s with
  | EmptyString => false
  | String c s' =>
      (Ascii.eqb c Js.slash && Js.startsWith s' "/") || has_double_slash s'
  end.

(* ===================================================================== *)
(** * [search] of the providers                                           *)
(* ===================================================================== *)

Module JsString.

(** [s.includes(sub)] for strings. *)
Fixpoint includes (s sub : string) : bool :=
  Js.startsWith s sub
  || match s with
     | EmptyString => false
     | String _ s' => includes s' sub
     end.

End JsString.

(** [search(keyword, type, maxDepth)] is written the same way in the two
    providers, over their own [list], here [listDir]. *)
Module ResourceSearch.
Section WithList.
Variable listDir : string → result (list ResourceInfo).
Variable keywordLower : string.
Variable type_option : option ResourceType.
Variable maxDepth : Z.

(** [item.name.toLowerCase().includes(keywordLower)] and
    [!type || item.type === type] *)
Definition nameMatches (item : ResourceInfo) : bool :=
  JsString.includes (Js.toLowerCase (name item)) keywordLower.

Definition typeMatches (item : ResourceInfo) : bool :=
  match type_option with
  | None => true
  | Some ty => bool_decide (type item = ty)
  end.

(** The [for] loop of [searchDir] over the items of a listing; the state
    is the array [results], [recurse] is the call of [searchDir] one
    level down and [deeper] is [depth < maxDepth]. *)
Fixpoint searchItems
    (recurse : string → list ResourceInfo → option (list ResourceInfo))
    (deeper : bool) (items : list ResourceInfo) (results : list ResourceInfo)
  : option (list ResourceInfo) :=
  match items with
  | [] => Some results
  | item :: rest =>
      let results1 :=
        if nameMatches item
        then (if typeMatches item then results ++ [item] else results)
        else results in
      if bool_decide (type item = ResourceType.folder) && deeper
      then
        match recurse (path item) results1 with
        | Some results2 => searchItems recurse deeper rest results2
        | None => None
        end
      else searchItems recurse deeper rest results1
  end.

(** The closure [searchDir(dirPath, depth)].  The recursion of the
    source ends because [depth] grows up to [maxDepth]; here it is on
    [fuel], and [None] is running out of it. *)
Fixpoint searchDir (fuel : nat) (dirPath : string) (depth : Z)
    (results : list ResourceInfo) : option (list ResourceInfo) :=
  match fuel with
  | O => None
  | S fuel' =>
      if (depth >? maxDepth)%Z then Some results
      else
        match listDir dirPath with
        | Err _ => Some results
        | Ok items =>
            searchItems (λ p r, searchDir fuel' p (depth + 1) r)
              (depth <? maxDepth)%Z items results
        end
  end.

(** What [search] may push on [results]: an entry of some listing whose
    name and type match. *)
Definition found (item : ResourceInfo) : Prop :=
  nameMatches item = true ∧ typeMatches item = true
  ∧ ∃ dirPath l, listDir dirPath = Ok l ∧ item ∈ l.

End WithList.

(** [search]: the fuel is the number of levels the source can reach. *)
Definition search (listDir : string → result (list ResourceInfo))
    (keyword : string) (type_option : option ResourceType) (maxDepth : Z)
  : option (list ResourceInfo) :=
  searchDir listDir (Js.toLowerCase keyword) type_option maxDepth
    (S (Z.to_nat maxDepth)) "" 0 [].

End ResourceSearch.

Module LocalResourceSearch.
Section WithFs.
Context {D : Type} `{FsPromises D} `{Locale}.

Definition search (this : LocalResourceConfig) (keyword : string)
    (type_option : option ResourceType) (maxDepth : Z) (d : D)
  : option (list ResourceInfo) :=
  ResourceSearch.search (λ dirPath, LocalResourceLibrary.list this dirPath d)
    keyword type_option maxDepth.

End WithFs.
End LocalResourceSearch.

Module WebDAVResourceSearch.
Section WithClient.
Context {R : Type} `{WebDAVClient R} `{Locale}.

Definition search (this : WebDAVResourceConfig) (keyword : string)
    (type_option : option ResourceType) (maxDepth : Z) (c : R)
  : option (list ResourceInfo) :=
  ResourceSearch.search (λ dirPath, WebDAVResourceLibrary.list this dirPath c)
    keyword type_option maxDepth.

End WithClient.
End WebDAVResourceSearch.

(* ===================================================================== *)
(** * More of src/resources/resource.service.ts and of the theme service  *)
(* ===================================================================== *)

Module ResourceInfoService.
Section WithBackends.
Context {D R : Type} `{FsPromises D} `{WebDAVClient (option R)} `{Locale}.

(** [ResourceService.getResourceInfo] *)
Definition getResourceInfo (libraryId : Z) (p : string) (w : World D R)
  : result ResourceInfo :=
  instance ← ResourceService.getLibraryInstance libraryId w;
  IResourceLibrary.getInfo instance p w.

(** The loop of [getMultipleResourceInfo]: the information of a path is
    pushed on [results], a path whose [getInfo] raises is skipped with a
    warning. *)
Fixpoint getInfoEach (instance : Library) (paths : list string)
    (results : list ResourceInfo) (w : World D R) : list ResourceInfo :=
  match paths with
  | [] => results
  | p :: rest =>
      match catch (info ← IResourceLibrary.getInfo instance p w;
                   mret (results ++ [info]))
                  (λ _, Ok results) with
      | Ok results' => getInfoEach instance rest results' w
      | Err _ => results
      end
  end.

(** [ResourceService.getMultipleResourceInfo] *)
Definition getMultipleResourceInfo (libraryId : Z) (paths : list string)
    (w : World D R) : result (list ResourceInfo) :=
  instance ← ResourceService.getLibraryInstance libraryId w;
  mret (getInfoEach instance paths [] w).

End WithBackends.
End ResourceInfoService.

Module ThemeResourcePaths.
Section WithBackends.
Context {D R : Type} `{FsPromises D} `{WebDAVClient (option R)} `{Locale}.
Context {A : Type}.

(** [ThemeModel.addResourcePath(themeId, libraryId, folderPath)]: a
    [prisma.themeResourcePath.create], whatever it does to the tables. *)
Variable addResourcePath : Z → Z → string → Async (World D R) A.

(** [ThemeService.addResourcePathToTheme] *)
Definition addResourcePathToTheme (themeId libraryId : Z) (folderPath : string)
  : Async (World D R) A :=
  _ ← try_catch
        (info ← read (ResourceInfoService.getResourceInfo libraryId folderPath);
         if bool_decide (type info ≠ ResourceType.folder)
         then throw (Error "指定的路径不是文件夹")
         else mret ())
        (λ _, throw (Error "文件夹不存在或无法访问"));
  addResourcePath themeId libraryId folderPath.

End WithBackends.
End ThemeResourcePaths.

(* ===================================================================== *)
(** * The cache of library instances of [ResourceService]                 *)
(* ===================================================================== *)

(** The state with the static map [ResourceService.libraryInstances]. *)
Record Cached (D R : Type) := mkCached {
  libraryInstances : gmap Z Library;
  world : World D R
}.
Arguments mkCached {D R}.
Arguments libraryInstances {D R}.
Arguments world {D R}.

Module CachedResourceService.
Section WithBackends.
Context {D R : Type}.

(** [ResourceService.getLibraryInstance], with its cache: what is read
    from the tables on a miss is what [ResourceService.getLibraryInstance]
    above reads. *)
Definition getLibraryInstance (libraryId : Z) : Async (Cached D R) Library :=
  λ s,
    match libraryInstances s !! libraryId with
    | Some instance => (Ok instance, s)
    | None =>
        match ResourceService.getLibraryInstance libraryId (world s) with
        | Err e => (Err e, s)
        | Ok instance =>
            (Ok instance,
             mkCached (<[libraryId := instance]> (libraryInstances s)) (world s))
        end
    end.

(** [clearCache(libraryId?)]: [if (libraryId)] is false for [undefined]
    and for [0]. *)
Definition clearCache (libraryId : option Z) (s : Cached D R) : Cached D R :=
  match libraryId with
  | Some id =>
      if bool_decide (id = 0%Z) then mkCached ∅ (world s)
      else mkCached (delete id (libraryInstances s)) (world s)
  | None => mkCached ∅ (world s)
  end.

(** A call of [ResourceLibraryModel] run on the tables. *)
Definition on_tables {A} (m : Async (World D R) A) : Async (Cached D R) A :=
  λ s, let '(r, w) := m (world s) in (r, mkCached (libraryInstances s) w).

(** [updateLibrary(id, data)]: [hasConfig] is [data.config] being set,
    [modelUpdate] is [ResourceLibraryModel.update(id, data)]. *)
Definition updateLibrary {A} (id : Z) (hasConfig : bool)
    (modelUpdate : Async (World D R) A) : Async (Cached D R) A :=
  λ s,
    let s1 := if hasConfig then clearCache (Some id) s else s in
    on_tables modelUpdate s1.

(** [deleteLibrary(id)], [modelDelete] being
    [ResourceLibraryModel.delete(id)]. *)
Definition deleteLibrary {A} (id : Z) (modelDelete : Async (World D R) A)
  : Async (Cached D R) A :=
  λ s, on_tables modelDelete (clearCache (Some id) s).

End WithBackends.
End CachedResourceService.

(* ===================================================================== *)
(** * [ThemeService.executeBatchPublish]                                  *)
(* ===================================================================== *)

(** [UploadResult] of the uploaders, as far as the theme service reads
    it. *)
Record UploadResult := mkUploadResult {
  ur_success : bool;
  ur_message : option string
}.

(** The two methods of [UploadService] that [executeBatchPublish] calls:
    [executeTask] drives a browser, [getTask] reads the task table. *)
Class UploadRunner (W : Type) := {
  executeTask : Z → Async W UploadResult;
  getTask : Z → W → result (option UploadTask)
}.

(** An element of the array [executeBatchPublish] returns. *)
Record ExecuteResult := mkExecuteResult {
  er_taskId : Z;
  er_success : bool;
  er_message : option string
}.

Module ThemeExecution.
Section WithBackends.
Context {D R : Type} `{FsPromises D} `{WebDAVClient (option R)} `{Locale}.
Context `{UploadRunner (World D R)}.

(** The body of the [try] of the loop for one task. *)
Definition executeOne (themeId : Z) (autoArchive : bool) (taskId : Z)
    (results : list ExecuteResult) : Async (World D R) (list ExecuteResult) :=
  result ← executeTask taskId;
  _ ← (if ur_success result && autoArchive
       then
         task ← read (getTask taskId);
         match task with
         | Some task =>
             ThemeService.archiveVideo themeId (task_libraryId task)
               (task_resourcePath task)
         | None => mret ()
         end
       else mret ());
  mret (results ++ [mkExecuteResult taskId (ur_success result) (ur_message result)]).

Fixpoint executeEach (themeId : Z) (autoArchive : bool) (taskIds : list Z)
    (results : list ExecuteResult) : Async (World D R) (list ExecuteResult) :=
  match taskIds with
  | [] => mret results
  | taskId :: rest =>
      results' ←
        try_catch (executeOne themeId autoArchive taskId results)
          (λ error,
             mret (results ++ [mkExecuteResult taskId false (Some (message error))]));
      executeEach themeId autoArchive rest results'
  end.

(** [executeBatchPublish(themeId, taskIds, autoArchive = true)] *)
Definition executeBatchPublish (themeId : Z) (taskIds : list Z)
    (autoArchive : option bool) : Async (World D R) (list ExecuteResult) :=
  λ w,
    match ThemeModel.findById themeId w with
    | None => (Err ThemeService.themeNotFound, w)
    | Some theme => executeEach themeId (default true autoArchive) taskIds [] w
    end.

(** The uploads alone, each inside its own [try]. *)
Fixpoint uploadEach (taskIds : list Z) (results : list ExecuteResult)
  : Async (World D R) (list ExecuteResult) :=
  match taskIds with
  | [] => mret results
  | taskId :: rest =>
      results' ←
        try_catch
          (result ← executeTask taskId;
           mret (results ++ [mkExecuteResult taskId (ur_success result)
                               (ur_message result)]))
          (λ error,
             mret (results ++ [mkExecuteResult taskId false (Some (message error))]));
      uploadEach rest results'
  end.

End WithBackends.
End ThemeExecution.

(* ===================================================================== *)
(** * Further example states                                              *)
(* ===================================================================== *)

Module MoreExamples.
Import MemFs.

(** Uploads that always succeed, over the task table of the state. *)
Definition uploadsSucceed : UploadRunner Examples.MemWorld := {|
  executeTask _ := λ w, (Ok (mkUploadResult true None), w);
  getTask id w := Ok (List.find (λ t, (task_id t =? id)%Z) (uploadTasks w))
|}.

(** The state with [/v/a.mp4] and [/v/published/a.mp4], and a task for
    the first. *)
Definition collisionTask : UploadTask :=
  mkUploadTask 1 7 1 "/v/a.mp4" "video" "a" "" "" "pending" None.

Definition collisionWorldWithTask : Examples.MemWorld :=
  with_tasks [collisionTask] Examples.collisionWorld.

End MoreExamples.

(* ===================================================================== *)
(** * [rename], [delete] and [test] of the providers                      *)
(* ===================================================================== *)

(** The calls of [fs/promises] that [delete] makes beside [fs.stat]:
    [readdir(p)], [rm(p, { recursive: true, force: true })], [rmdir(p)]
    and [unlink(p)]. *)
Class FsRemoval (D : Type) := {
  fs_readdir_names : string → D → result (list string);
  fs_rm_recursive_force : string → Async D unit;
  fs_rmdir : string → Async D unit;
  fs_unlink : string → Async D unit
}.

(** [client.deleteFile(p)] of the webdav package. *)
Class WebDAVRemoval (R : Type) := {
  dav_deleteFile : string → Async R unit
}.

Module LocalResourceFiles.
Section WithFs.
Context {D : Type} `{FsPromises D} `{FsRemoval D}.
Variable this : LocalResourceConfig.

(** [test()] *)
Definition test (d : D) : bool :=
  match catch (_ ← fs_access (l_basePath this) d;
               stats ← fs_stat (l_basePath this) d;
               mret (st_isDirectory stats))
              (λ _, Ok false) with
  | Ok b => b
  | Err _ => false
  end.

(** [rename(oldPath, newName)] *)
Definition rename (oldPath newName : string) : Async D unit :=
  let fullOldPath := NodePath.join2 (l_basePath this) oldPath in
  let directory := NodePath.dirname fullOldPath in
  let fullNewPath := NodePath.join2 directory newName in
  try_catch
    (_ ← try_catch
           (_ ← read (fs_access fullNewPath);
            throw (Error ("目标名称已存在: " +:+ newName)))
           (λ error,
              if bool_decide (code error ≠ Some "ENOENT")
              then throw error else mret ());
     fs_rename fullOldPath fullNewPath)
    (λ error, throw error).

(** [delete(filePath, recursive = false)] *)
Definition delete (filePath : string) (recursive : bool) : Async D unit :=
  let fullPath := NodePath.join2 (l_basePath this) filePath in
  try_catch
    (stats ← read (fs_stat fullPath);
     if st_isDirectory stats then
       if recursive then fs_rm_recursive_force fullPath
       else
         items ← read (fs_readdir_names fullPath);
         if bool_decide (0 < length items)%nat
         then throw (Error "文件夹不为空，请使用 recursive 选项")
         else fs_rmdir fullPath
     else fs_unlink fullPath)
    (λ _, throw (Error ("删除失败: " +:+ filePath))).

End WithFs.
End LocalResourceFiles.

Module WebDAVResourceFiles.
Section WithClient.
Context {R : Type} `{WebDAVClient R} `{WebDAVRemoval R}.
Variable this : WebDAVResourceConfig.

(** [delete(filePath, recursive = false)] *)
Definition delete (filePath : string) (recursive : bool) : Async R unit :=
  let fullPath := WebDAVResourceLibrary.fullPathOf this filePath in
  try_catch
    (stat ← read (dav_stat fullPath);
     if fst_isDirectory stat then
       _ ← (if negb recursive then
              items ← read (dav_getDirectoryContents fullPath);
              if bool_decide (0 < length items)%nat
              then throw (Error "文件夹不为空，请使用 recursive 选项")
              else mret ()
            else mret ());
       dav_deleteFile fullPath
     else dav_deleteFile fullPath)
    (λ _, throw (Error ("删除失败: " +:+ filePath))).

(** [rename(oldPath, newName)] *)
Definition rename (oldPath newName : string) : Async R unit :=
  let fullOldPath := WebDAVResourceLibrary.fullPathOf this oldPath in
  let directory := NodePath.dirname fullOldPath in
  let fullNewPath :=
    WebDAVResourceLibrary.normalizePath (NodePath.join2 directory newName) in
  try_catch
    (_ ← try_catch
           (_ ← read (dav_stat fullNewPath);
            throw (Error ("目标名称已存在: " +:+ newName)))
           (λ error,
              match response_status error with
              | Some status =>
                  if bool_decide (status ≠ 404%nat) then throw error else mret ()
              | None => mret ()
              end);
     dav_moveFile fullOldPath fullNewPath)
    (λ error, throw error).

End WithClient.
End WebDAVResourceFiles.

(* ===================================================================== *)
(** * Disks and themes a batch archive settles                            *)
(* ===================================================================== *)

(** A disk as a file system has it: every name is one plain segment
    without backslash, and everything above an entry is a folder. *)
Definition well_formed (t : MemFs.Tree) : bool :=
  forallb (λ kn : list string * MemFs.Node,
             forallb tameName kn.1
             && forallb (λ pre, bool_decide (t !! pre = Some MemFs.NDir))
                        (MemFs.prefixes (MemFs.parent kn.1)))
          (map_to_list t).

Section Roots.
Context {D R : Type}.

(** The library of the resource path, when it can be opened, is a local
    one, and its base path and the folder path have no [..] step and no
    backslash. *)
Definition localRoot (w : World D R) (rp : ThemeResourcePath) : bool :=
  match ResourceService.getLibraryInstance (rp_libraryId rp) w with
  | Ok (LocalLib this) => tame (l_basePath this) && tame (rp_folderPath rp)
  | Ok (WebDAVLib _) => false
  | Err _ => true
  end.

(** The location of the folder of a resource path on the disk. *)
Definition rootKey (w : World D R) (rp : ThemeResourcePath)
  : option (list string) :=
  match ResourceService.getLibraryInstance (rp_libraryId rp) w with
  | Ok (LocalLib this) => Some (lkey this (rp_folderPath rp))
  | _ => None
  end.

(** No resource path of the list is the archive folder of one of them,
    or a folder inside it. *)
Definition separateRoots (archiveFolderName : string) (w : World D R)
    (rps : list ThemeResourcePath) : bool :=
  forallb (λ rp,
    forallb (λ rp',
      match rootKey w rp, rootKey w rp' with
      | Some k, Some k' => negb (MemFs.is_prefix (k ++ [archiveFolderName]) k')
      | _, _ => true
      end) rps) rps.

End Roots.

(* ===================================================================== *)
(** * [ResourceService.browseLibrary] with its options                     *)
(* ===================================================================== *)

Module SortBy.
Inductive t := name | size | date.
End SortBy.

Module SortOrder.
Inductive t := asc | desc.
End SortOrder.

Global Instance SortOrder_eq_dec : EqDecision SortOrder.t.
Proof. solve_decision. Defined.

(** The options of [browseLibrary], [includeMetadata] left unset. *)
Record BrowseOptions := mkBrowseOptions {
  o_type : option ResourceType;
  o_sortBy : option SortBy.t;
  o_sortOrder : option SortOrder.t
}.

Module ResourceBrowsing.
Import BaseResourceLibrary.
Section WithBackends.
Context {D R : Type} `{FsPromises D} `{WebDAVClient (option R)} `{Locale}.

(** [compareValue] of the comparator: [a.size || 0] and
    [a.modifiedTime?.getTime() || 0] for what has no size or date. *)
Definition compareValue (sortBy : SortBy.t) (a b : ResourceInfo) : Z :=
  match sortBy with
  | SortBy.name => localeCompare (name a) (name b)
  | SortBy.size => (default 0 (size a) - default 0 (size b))%Z
  | SortBy.date =>
      (default 0 (modifiedTime a) - default 0 (modifiedTime b))%Z
  end.

Definition comparator (sortBy : SortBy.t) (sortOrder : option SortOrder.t)
    (a b : ResourceInfo) : Z :=
  if bool_decide (sortOrder = Some SortOrder.desc)
  then (- compareValue sortBy a b)%Z
  else compareValue sortBy a b.

(** [browseLibrary(libraryId, path, options)] *)
Definition browseLibrary (libraryId : Z) (p : string)
    (options : option BrowseOptions) (w : World D R)
  : result (list ResourceInfo) :=
  instance ← ResourceService.getLibraryInstance libraryId w;
  resources ← IResourceLibrary.list instance p w;
  let resources :=
    match options ≫= o_type with
    | Some ty => List.filter (λ r, bool_decide (type r = ty)) resources
    | None => resources
    end in
  let resources :=
    match options ≫= o_sortBy with
    | Some sortBy =>
        array_sort (comparator sortBy (options ≫= o_sortOrder)) resources
    | None => resources
    end in
  mret resources.

End WithBackends.
End ResourceBrowsing.

(** The number [browseLibrary] sorts a resource by, for [size] and
    [date]. *)
Definition sortKey (sortBy : SortBy.t) (a : ResourceInfo) : Z :=
  match sortBy with
  | SortBy.date => default 0%Z (modifiedTime a)
  | _ => default 0%Z (size a)
  end.

(** Every element of the list stands before the ones it is related to:
    the list is in the order [le]. *)
Fixpoint inOrder {A} (le : A → A → Prop) (l : list A) : Prop :=
  match l with
  | [] => True
  | x :: l' => Forall (le x) l' ∧ inOrder le l'
  end.

(* ===================================================================== *)
(** * [ResourceLibraryModel]: the table of resource libraries             *)
(* ===================================================================== *)

(** A row of the table, the configuration as the JSON text it is stored
    as. *)
Record LibraryRecord := mkLibraryRecord {
  lr_name : string;
  lr_type : string;
  lr_config : string;
  lr_isDefault : bool;
  lr_isActive : bool
}.

Module ResourceLibraryModel.
Section WithConfig.
Variable Config : Type.
(** [configToString]: [JSON.stringify] *)
Variable configToString : Config → string.

Abbreviation Table := (gmap Z LibraryRecord).

Record CreateData := mkCreateData {
  c_name : string;
  c_type : string;
  c_config : Config;
  c_isDefault : option bool
}.

Record UpdateData := mkUpdateData {
  u_name : option string;
  u_type : option string;
  u_config : option Config;
  u_isActive : option bool;
  u_isDefault : option bool
}.

(** What [update] and [delete] of the database client raise when no row
    has the id. *)
Definition recordNotFound : JsError :=
  mkJsError "Record not found" (Some "P2025") None.

Definition withDefault (isDefault : bool) (r : LibraryRecord) : LibraryRecord :=
  mkLibraryRecord (lr_name r) (lr_type r) (lr_config r) isDefault (lr_isActive r).

(** [updateMany({ where: { isDefault: true }, data: { isDefault: false } })],
    with [id: { not: id }] in the [where] when [except] is given. *)
Definition updateManyDefaults (except : option Z) (t : Table) : Table :=
  map_imap (λ id r,
              Some (if lr_isDefault r && negb (bool_decide (except = Some id))
                    then withDefault false r else r)) t.

(** [create(data)]; [newId] is the id the database gives the new row. *)
Definition create (data : CreateData) (newId : Z) : Async Table LibraryRecord :=
  λ t,
    let t := if default false (c_isDefault data)
             then updateManyDefaults None t else t in
    let record :=
      mkLibraryRecord (c_name data) (c_type data) (configToString (c_config data))
        (default false (c_isDefault data)) true in
    (Ok record, <[newId := record]> t).

(** [update(id, data)] *)
Definition update (id : Z) (data : UpdateData) : Async Table LibraryRecord :=
  λ t,
    let t := if default false (u_isDefault data)
             then updateManyDefaults (Some id) t else t in
    match t !! id with
    | None => (Err recordNotFound, t)
    | Some r =>
        let record :=
          mkLibraryRecord (default (lr_name r) (u_name data))
            (default (lr_type r) (u_type data))
            (default (lr_config r) (configToString <$> u_config data))
            (default (lr_isDefault r) (u_isDefault data))
            (default (lr_isActive r) (u_isActive data)) in
        (Ok record, <[id := record]> t)
    end.

(** [delete(id)] *)
Definition delete (id : Z) : Async Table LibraryRecord :=
  λ t,
    match t !! id with
    | None => (Err recordNotFound, t)
    | Some r => (Ok r, base.delete id t)
    end.

(** [setDefault(id)] *)
Definition setDefault (id : Z) : Async Table LibraryRecord :=
  λ t,
    let t := updateManyDefaults None t in
    match t !! id with
    | None => (Err recordNotFound, t)
    | Some r => (Ok (withDefault true r), <[id := withDefault true r]> t)
    end.

End WithConfig.
End ResourceLibraryModel.

(** No two rows of the table are marked as the default library. *)
Definition oneDefault (t : gmap Z LibraryRecord) : Prop :=
  ∀ i j ri rj,
    t !! i = Some ri → t !! j = Some rj →
    lr_isDefault ri = true → lr_isDefault rj = true → i = j.

(** The row [id] is marked as the default library, and no other row. *)
Definition theDefault (id : Z) (t : gmap Z LibraryRecord) : Prop :=
  (∃ r, t !! id = Some r ∧ lr_isDefault r = true)
  ∧ ∀ j rj, t !! j = Some rj → lr_isDefault rj = true → j = id.

(* ===================================================================== *)
(** * Node's path module on the documented examples                      *)
(* ===================================================================== *)

Module NodePathExamples.
Import NodePath.

Example normalize_doc :
  normalize "/foo/bar//baz/asdf/quux/.." = "/foo/bar/baz/asdf".
Proof. reflexivity. Qed.

Example join_doc :
  join ["/foo"; "bar"; "baz/asdf"; "quux"; ".."] = "/foo/bar/baz/asdf".
Proof. reflexivity. Qed.

Example join_archive : join2 "/videos/food" "published" = "/videos/food/published".
Proof. reflexivity. Qed.

Example join_trailing : join2 "/videos/food/" "published" = "/videos/food/published".
Proof. reflexivity. Qed.

Example join_root : join2 "/" "c.mp4" = "/c.mp4".
Proof. reflexivity. Qed.

Example normalize_corner :
  map normalize [""; "/"; "a/"; "./"; "a/.."; "a/../"; "/.."; "../a"; "a/b/../../.."]
  = ["."; "/"; "a/"; "./"; "."; "./"; "/"; "../a"; ".."].
Proof. reflexivity. Qed.

Example dirname_doc : dirname "/foo/bar/baz/asdf/quux" = "/foo/bar/baz/asdf".
Proof. reflexivity. Qed.

Example dirname_corner :
  map dirname [""; "/"; "///"; "a"; "/a"; "//a"; "/a//b"; "/a/b//"; "a/b"; "a//"; "/a/"; "///a"]
  = ["."; "/"; "/"; "."; "/"; "//"; "/a/"; "/a"; "a"; "."; "/"; "//"].
Proof. reflexivity. Qed.

Example basename_doc : basename "/foo/bar/baz/asdf/quux.html" = "quux.html".
Proof. reflexivity. Qed.

Example basename_corner :
  map basename [""; "/"; "a/"; "/a//"; "/videos/food/"] = [""; ""; "a"; "a"; "food"].
Proof. reflexivity. Qed.

Example extname_doc :
  map extname ["index.html"; "index.coffee.md"; "index."; "index"; ".index"; ".index.md"; ".."; "..."]
  = [".html"; ".md"; "."; ""; ""; ".md"; ""; "."].
Proof. reflexivity. Qed.

Example parse_name_doc :
  map parse_name ["/home/user/dir/file.txt"; "a.mp4"; "clip"; ".hidden"; "x.tar.gz"]
  = ["file"; "a"; "clip"; ".hidden"; "x.tar"].
Proof. reflexivity. Qed.

End NodePathExamples.

(* ===================================================================== *)
(** * Exceptions and loops                                                *)
(* ===================================================================== *)

Ltac unfold_async :=
  unfold mbind, mret, async_bind, async_ret, result_bind, result_ret,
    try_catch, throw, read, catch, push in *.

Lemma forEach_app {S A} (f : A → Async S unit) (xs ys : list A) (s : S) :
  forEach f (xs ++ ys) s =
  match forEach f xs s with
  | (Ok _, s') => forEach f ys s'
  | (Err e, s') => (Err e, s')
  end.
Proof.
  revert s. induction xs as [|x xs IH]; intros s; simpl.
  - reflexivity.
  - unfold_async. destruct (f x s) as [[[]|e] s1]; [apply IH|reflexivity].
Qed.

(* ===================================================================== *)
(** * The providers' list never throws                                    *)
(* ===================================================================== *)

Section ListFacts.
Context {D R : Type} `{FsPromises D} `{WebDAVClient (option R)} `{Locale}.

Lemma local_list_total (this : LocalResourceConfig) (dirPath : string) (d : D) :
  ∃ resources, LocalResourceLibrary.list this dirPath d = Ok resources.
Proof.
  unfold LocalResourceLibrary.list. unfold_async.
  destruct (fs_readdir _ d); eauto.
Qed.

Lemma local_list_failed (this : LocalResourceConfig) (dirPath : string) (d : D) e :
  fs_readdir (NodePath.join2 (l_basePath this) dirPath) d = Err e →
  LocalResourceLibrary.list this dirPath d = Ok [].
Proof.
  intros Hr. unfold LocalResourceLibrary.list. unfold_async. now rewrite Hr.
Qed.

Lemma local_list_empty (this : LocalResourceConfig) (dirPath : string) (d : D) :
  fs_readdir (NodePath.join2 (l_basePath this) dirPath) d = Ok [] →
  LocalResourceLibrary.list this dirPath d = Ok [].
Proof.
  intros Hr. unfold LocalResourceLibrary.list. unfold_async. now rewrite Hr.
Qed.

Lemma webdav_list_total (this : WebDAVResourceConfig) (dirPath : string)
    (r : option R) :
  ∃ resources, WebDAVResourceLibrary.list this dirPath r = Ok resources.
Proof.
  unfold WebDAVResourceLibrary.list. unfold_async.
  destruct (dav_getDirectoryContents _ r); eauto.
Qed.

Lemma webdav_list_failed (this : WebDAVResourceConfig) (dirPath : string)
    (r : option R) e :
  dav_getDirectoryContents (WebDAVResourceLibrary.fullPathOf this dirPath) r = Err e →
  WebDAVResourceLibrary.list this dirPath r = Ok [].
Proof.
  intros Hr. unfold WebDAVResourceLibrary.list. unfold_async. now rewrite Hr.
Qed.

Lemma webdav_list_empty (this : WebDAVResourceConfig) (dirPath : string)
    (r : option R) :
  dav_getDirectoryContents (WebDAVResourceLibrary.fullPathOf this dirPath) r = Ok [] →
  WebDAVResourceLibrary.list this dirPath r = Ok [].
Proof.
  intros Hr. unfold WebDAVResourceLibrary.list. unfold_async. now rewrite Hr.
Qed.

Lemma library_list_total (library : Library) (p : string) (w : World D R) :
  ∃ resources, IResourceLibrary.list library p w = Ok resources.
Proof.
  destruct library; simpl; [apply local_list_total|apply webdav_list_total].
Qed.

(** [browseLibrary] raises exactly when the library instance cannot be
    had, whatever the path. *)
Lemma browseLibrary_error (libraryId : Z) (p : string) ty (w : World D R) e :
  ResourceService.browseLibrary libraryId p ty w = Err e ↔
  ResourceService.getLibraryInstance libraryId w = Err e.
Proof.
  unfold ResourceService.browseLibrary. unfold_async.
  destruct (ResourceService.getLibraryInstance libraryId w) as [library|e'].
  - destruct (library_list_total library p w) as [resources ->]. done.
  - split; intros [= ->]; reflexivity.
Qed.

Lemma browseLibrary_ok (libraryId : Z) (p : string) ty (w : World D R) library :
  ResourceService.getLibraryInstance libraryId w = Ok library →
  ∃ resources, ResourceService.browseLibrary libraryId p ty w = Ok resources.
Proof.
  intros Hl. unfold ResourceService.browseLibrary. unfold_async. rewrite Hl.
  destruct (library_list_total library p w) as [resources ->]. eauto.
Qed.

End ListFacts.

(* ===================================================================== *)
(** * The video status resolver                                           *)
(* ===================================================================== *)

Section ResolverFacts.
Context {D R : Type} `{FsPromises D} `{WebDAVClient (option R)} `{Locale}.

(** What one round of the loop of [getThemeVideos] adds to [allVideos]. *)
Lemma collectResourcePath_spec (afn : string) (w : World D R)
    (rp : ThemeResourcePath) (allVideos : list VideoEntry) :
  ThemeService.collectResourcePath afn w rp allVideos =
  (Ok (), allVideos ++ mainEntries w rp ++ archiveEntries afn w rp).
Proof.
  unfold ThemeService.collectResourcePath, mainEntries, archiveEntries.
  unfold_async.
  destruct (ResourceService.browseLibrary (rp_libraryId rp) (rp_folderPath rp) _ w)
    as [mainResources|e] eqn:Hmain.
  - destruct (ResourceService.browseLibrary (rp_libraryId rp)
                (NodePath.join2 (rp_folderPath rp) afn) _ w) as [archiveResources|e'];
      simpl; rewrite <- ?app_assoc, ?app_nil_r; reflexivity.
  - apply browseLibrary_error in Hmain.
    apply (browseLibrary_error _ (NodePath.join2 (rp_folderPath rp) afn)
             (Some ResourceType.video)) in Hmain.
    rewrite Hmain. simpl. now rewrite app_nil_r.
Qed.

Lemma forEach_collect (afn : string) (w : World D R)
    (rps : list ThemeResourcePath) (allVideos : list VideoEntry) :
  forEach (ThemeService.collectResourcePath afn w) rps allVideos =
  (Ok (), allVideos ++ (rp ← rps; mainEntries w rp ++ archiveEntries afn w rp)).
Proof.
  revert allVideos. induction rps as [|rp rps IH]; intros allVideos; simpl.
  - now rewrite app_nil_r.
  - unfold mbind at 1, async_bind. rewrite collectResourcePath_spec.
    rewrite IH. now rewrite <- !app_assoc.
Qed.

Lemma getThemeVideos_spec (themeId : Z) (w : World D R) :
  ThemeService.getThemeVideos themeId w =
  match ThemeModel.findById themeId w with
  | None => Err ThemeService.themeNotFound
  | Some theme =>
      Ok (rp ← resourcePaths theme;
          mainEntries w rp
          ++ archiveEntries (ThemeService.effectiveArchiveFolderName theme) w rp)
  end.
Proof.
  unfold ThemeService.getThemeVideos, ThemeModel.getThemeVideos, ThemeModel.findById.
  destruct (themes w !! themeId) as [theme|]; [|reflexivity].
  now rewrite forEach_collect.
Qed.

Lemma mainEntries_unpublished (w : World D R) rp v :
  v ∈ mainEntries w rp →
  isPublished v = false ∧ libraryId v = rp_libraryId rp
  ∧ libraryPath v = rp_folderPath rp
  ∧ fullPath v = rp_folderPath rp +:+ "/" +:+ name (info v).
Proof.
  unfold mainEntries.
  destruct (ResourceService.browseLibrary _ _ _ w); [|by intros ?%elem_of_nil].
  intros (r & -> & _)%list_elem_of_fmap. done.
Qed.

Lemma archiveEntries_published (afn : string) (w : World D R) rp v :
  v ∈ archiveEntries afn w rp →
  isPublished v = true ∧ libraryId v = rp_libraryId rp
  ∧ libraryPath v = NodePath.join2 (rp_folderPath rp) afn
  ∧ fullPath v = NodePath.join2 (rp_folderPath rp) afn +:+ "/" +:+ name (info v).
Proof.
  unfold archiveEntries.
  destruct (ResourceService.browseLibrary _ _ _ w); [|by intros ?%elem_of_nil].
  intros (r & -> & _)%list_elem_of_fmap. done.
Qed.

End ResolverFacts.

(** C8.  The resolver returns, for the resource paths of the theme in
    their order, the entries of the main folder followed by those of the
    archive folder.  A resource path whose archive folder cannot be
    listed (the directory read fails, the folder is missing) has no
    archive entries, and this touches neither its main entries nor the
    other resource paths: the result is the same concatenation. *)
Theorem resolver_concatenates_roots
    {D R : Type} `{FsPromises D} `{WebDAVClient (option R)} `{Locale}
    (themeId : Z) (w : World D R) :
  ThemeService.getThemeVideos themeId w =
    match ThemeModel.findById themeId w with
    | None => Err ThemeService.themeNotFound
    | Some theme =>
        Ok (rp ← resourcePaths theme;
            mainEntries w rp
            ++ archiveEntries (ThemeService.effectiveArchiveFolderName theme) w rp)
    end
  ∧ (∀ afn rp this e,
       ResourceService.getLibraryInstance (rp_libraryId rp) w = Ok (LocalLib this) →
       fs_readdir (NodePath.join2 (l_basePath this)
                     (NodePath.join2 (rp_folderPath rp) afn)) (disk w) = Err e →
       archiveEntries afn w rp = [])
  ∧ (∀ afn rp this e,
       ResourceService.getLibraryInstance (rp_libraryId rp) w = Ok (WebDAVLib this) →
       dav_getDirectoryContents
         (WebDAVResourceLibrary.fullPathOf this (NodePath.join2 (rp_folderPath rp) afn))
         (servers w !! w_url this) = Err e →
       archiveEntries afn w rp = []).
Proof.
  split; [apply getThemeVideos_spec|].
  split; intros afn rp this e Hlib Hfail; unfold archiveEntries,
    ResourceService.browseLibrary; unfold_async; rewrite Hlib; simpl.
  - now rewrite (local_list_failed _ _ _ _ Hfail).
  - now rewrite (webdav_list_failed _ _ _ _ Hfail).
Qed.

(** C10.  The [list] of both providers always returns: a failure of the
    directory read is caught and gives the empty array, the same result
    as an empty directory.  So [browseLibrary] raises only when the
    library instance cannot be had, and a round of the resolver's loop
    on a library that can be had adds what the two listings return,
    without entering a catch branch. *)
Theorem list_never_throws
    {D R : Type} `{FsPromises D} `{WebDAVClient (option R)} `{Locale} :
  (∀ this dirPath (d : D),
     (∃ resources, LocalResourceLibrary.list this dirPath d = Ok resources)
     ∧ (∀ e, fs_readdir (NodePath.join2 (l_basePath this) dirPath) d = Err e →
             LocalResourceLibrary.list this dirPath d = Ok [])
     ∧ (fs_readdir (NodePath.join2 (l_basePath this) dirPath) d = Ok [] →
        LocalResourceLibrary.list this dirPath d = Ok []))
  ∧ (∀ this dirPath (r : option R),
       (∃ resources, WebDAVResourceLibrary.list this dirPath r = Ok resources)
       ∧ (∀ e, dav_getDirectoryContents
                 (WebDAVResourceLibrary.fullPathOf this dirPath) r = Err e →
               WebDAVResourceLibrary.list this dirPath r = Ok [])
       ∧ (dav_getDirectoryContents
            (WebDAVResourceLibrary.fullPathOf this dirPath) r = Ok [] →
          WebDAVResourceLibrary.list this dirPath r = Ok []))
  ∧ (∀ libraryId p ty (w : World D R) e,
       ResourceService.browseLibrary libraryId p ty w = Err e ↔
       ResourceService.getLibraryInstance libraryId w = Err e)
  ∧ (∀ afn (w : World D R) rp library allVideos,
       ResourceService.getLibraryInstance (rp_libraryId rp) w = Ok library →
       ∃ mainResources archiveResources,
         IResourceLibrary.list library (rp_folderPath rp) w = Ok mainResources
         ∧ IResourceLibrary.list library
             (NodePath.join2 (rp_folderPath rp) afn) w = Ok archiveResources
         ∧ ThemeService.collectResourcePath afn w rp allVideos =
           (Ok (),
            allVideos
            ++ map (ThemeService.withInfo rp (rp_folderPath rp) false)
                 (List.filter ThemeService.is_video
                    (List.filter ThemeService.is_video mainResources))
            ++ map (ThemeService.withInfo rp
                      (NodePath.join2 (rp_folderPath rp) afn) true)
                 (List.filter ThemeService.is_video
                    (List.filter ThemeService.is_video archiveResources)))).
Proof.
  repeat split.
  - apply local_list_total.
  - apply local_list_failed.
  - apply local_list_empty.
  - apply webdav_list_total.
  - apply webdav_list_failed.
  - apply webdav_list_empty.
  - apply browseLibrary_error.
  - apply browseLibrary_error.
  - intros afn w rp library allVideos Hlib.
    destruct (library_list_total library (rp_folderPath rp) w) as [mainResources Hm].
    destruct (library_list_total library (NodePath.join2 (rp_folderPath rp) afn) w)
      as [archiveResources Ha].
    exists mainResources, archiveResources. split; [done|]. split; [done|].
    rewrite collectResourcePath_spec. unfold mainEntries, archiveEntries.
    unfold ResourceService.browseLibrary. unfold_async.
    rewrite Hlib, Hm, Ha. reflexivity.
Qed.

(* ===================================================================== *)
(** * The batch operations                                                *)
(* ===================================================================== *)

Section BatchFacts.
Context {D R : Type} `{FsPromises D} `{WebDAVClient (option R)} `{Locale}.

Implicit Types (w : World D R) (moveVideo : Z → string → Async (World D R) unit).

Lemma attempts_length moveVideo videos w :
  length (attempts moveVideo videos w).1 = length videos.
Proof.
  revert w. induction videos as [|v vs IH]; intros w; simpl; [done|].
  destruct (moveVideo _ _ w) as [r w1]. specialize (IH w1).
  destruct (attempts moveVideo vs w1). simpl in *. now rewrite IH.
Qed.

Lemma attempts_nil_state moveVideo w : (attempts moveVideo [] w).2 = w.
Proof. reflexivity. Qed.

(** The loop moves every video of the list, in order, and never raises. *)
Lemma moveEach_spec moveVideo videos results w :
  ThemeService.moveEach moveVideo videos results w =
  (Ok (results ++ resultsOf videos (attempts moveVideo videos w).1),
   (attempts moveVideo videos w).2).
Proof.
  revert results w. induction videos as [|v vs IH]; intros results w; simpl.
  - unfold resultsOf. simpl. now rewrite app_nil_r.
  - unfold mbind at 1, async_bind. unfold try_catch at 1.
    unfold mbind at 1, async_bind.
    destruct (moveVideo (libraryId v) (fullPath v) w) as [[[]|e] w1]; simpl;
      rewrite IH; destruct (attempts moveVideo vs w1) as [rs w2]; simpl;
      unfold resultsOf; simpl; now rewrite <- app_assoc.
Qed.

Lemma resultsOf_length videos (rs : list (result unit)) :
  length rs = length videos → length (resultsOf videos rs) = length videos.
Proof. intros Hl. unfold resultsOf. rewrite length_zip_with. lia. Qed.

Lemma resultsOf_paths videos (rs : list (result unit)) :
  length rs = length videos →
  map mr_path (resultsOf videos rs) = map fullPath videos.
Proof.
  revert rs. induction videos as [|v vs IH]; intros [|r rs] Hl; simpl in *; try done.
  f_equal; [by destruct r|]. apply IH. lia.
Qed.

Lemma resultsOf_success videos (rs : list (result unit)) :
  length rs = length videos →
  map mr_success (resultsOf videos rs) = map is_ok rs.
Proof.
  revert rs. induction videos as [|v vs IH]; intros [|r rs] Hl; simpl in *; try done.
  f_equal; [by destruct r|]. apply IH. lia.
Qed.

Lemma count_filter_map {A} (f : A → bool) (l : list A) :
  length (List.filter f l) = length (List.filter id (map f l)).
Proof.
  induction l as [|x l IH]; simpl; [done|]. unfold id at 1.
  destruct (f x); simpl; now rewrite IH.
Qed.

Lemma count_success_outcomes videos (rs : list (result unit)) :
  length rs = length videos →
  ThemeService.count_success (resultsOf videos rs) = length (List.filter is_ok rs).
Proof.
  intros Hl. unfold ThemeService.count_success.
  rewrite (count_filter_map mr_success), (count_filter_map is_ok).
  now rewrite resultsOf_success.
Qed.

Lemma count_failure_outcomes videos (rs : list (result unit)) :
  length rs = length videos →
  ThemeService.count_failure (resultsOf videos rs)
  = length (List.filter (λ r, negb (is_ok r)) rs).
Proof.
  unfold ThemeService.count_failure, resultsOf.
  revert rs. induction videos as [|v vs IH]; intros [|r rs] Hl; simpl in *; try done.
  destruct r; simpl; rewrite IH by lia; reflexivity.
Qed.

Lemma count_success_failure (results : list MoveResult) :
  (ThemeService.count_success results + ThemeService.count_failure results
   = length results)%nat.
Proof.
  unfold ThemeService.count_success, ThemeService.count_failure.
  induction results as [|r rs IH]; simpl; [done|].
  destruct (mr_success r); simpl; lia.
Qed.

Lemma batchArchiveVideos_spec themeId videoPaths w :
  ThemeService.batchArchiveVideos themeId videoPaths w =
  match ThemeModel.findById themeId w, ThemeService.getThemeVideos themeId w with
  | Some _, Ok allVideos =>
      let videos := eligible false videoPaths allVideos in
      let run := attempts (ThemeService.archiveVideo themeId) videos w in
      (Ok (mkArchiveReport (length videoPaths)
             (ThemeService.count_success (resultsOf videos run.1))
             (ThemeService.count_failure (resultsOf videos run.1))
             (resultsOf videos run.1)), run.2)
  | Some _, Err e => (Err e, w)
  | None, _ => (Err ThemeService.themeNotFound, w)
  end.
Proof.
  unfold ThemeService.batchArchiveVideos.
  destruct (ThemeModel.findById themeId w); [|reflexivity].
  destruct (ThemeService.getThemeVideos themeId w) as [allVideos|e]; [|reflexivity].
  unfold mbind, async_bind. rewrite moveEach_spec. reflexivity.
Qed.

Lemma batchUnarchiveVideos_spec themeId videoPaths w :
  ThemeService.batchUnarchiveVideos themeId videoPaths w =
  match ThemeModel.findById themeId w, ThemeService.getThemeVideos themeId w with
  | Some _, Ok allVideos =>
      let videos := eligible true videoPaths allVideos in
      let run := attempts (ThemeService.unarchiveVideo themeId) videos w in
      (Ok (mkUnarchiveReport (length videoPaths)
             (ThemeService.count_success (resultsOf videos run.1))
             (ThemeService.count_failure (resultsOf videos run.1))
             (resultsOf videos run.1)), run.2)
  | Some _, Err e => (Err e, w)
  | None, _ => (Err ThemeService.themeNotFound, w)
  end.
Proof.
  unfold ThemeService.batchUnarchiveVideos.
  destruct (ThemeModel.findById themeId w); [|reflexivity].
  destruct (ThemeService.getThemeVideos themeId w) as [allVideos|e]; [|reflexivity].
  unfold mbind, async_bind. rewrite moveEach_spec. reflexivity.
Qed.

Lemma getThemeVideos_total themeId w theme :
  ThemeModel.findById themeId w = Some theme →
  ∃ allVideos, ThemeService.getThemeVideos themeId w = Ok allVideos.
Proof. intros Ht. rewrite getThemeVideos_spec, Ht. eauto. Qed.

End BatchFacts.

Section BatchContract.
Context {D R : Type} `{FsPromises D} `{WebDAVClient (option R)} `{Locale}.

Implicit Types (w : World D R).

(** The report of a batch, from the outcomes of the moves it made. *)
Lemma report_of_attempts moveVideo (videoPaths : list string)
    (allVideos : list VideoEntry) wantPublished w :
  let videos := eligible wantPublished videoPaths allVideos in
  let run := attempts moveVideo videos w in
  map mr_path (resultsOf videos run.1) = map fullPath videos
  ∧ map mr_success (resultsOf videos run.1) = map is_ok run.1
  ∧ ThemeService.count_success (resultsOf videos run.1)
    = length (List.filter is_ok run.1)
  ∧ ThemeService.count_failure (resultsOf videos run.1)
    = length (List.filter (λ r, negb (is_ok r)) run.1)
  ∧ (∀ p, (∀ v, v ∈ allVideos → fullPath v = p → isPublished v ≠ wantPublished) →
          (p ∉ map mr_path (resultsOf videos run.1))
          ∧ eligible wantPublished (p :: videoPaths) allVideos = videos)
  ∧ (videos = [] → run.2 = w).
Proof.
  intros videos run.
  pose proof (attempts_length moveVideo videos w) as Hl. fold run in Hl.
  split; [by apply resultsOf_paths|]. split; [by apply resultsOf_success|].
  split; [by apply count_success_outcomes|].
  split; [by apply count_failure_outcomes|].
  split.
  - intros p Hp. split.
    + rewrite resultsOf_paths by done. intros (v & Hv & Hin)%list_elem_of_fmap.
      apply list_elem_of_In, filter_In in Hin as [Hin Hc].
      apply andb_prop in Hc as [_ Hc]. apply (Hp v); [by apply list_elem_of_In|done|].
      destruct wantPublished, (isPublished v); done.
    + unfold videos, eligible. apply filter_ext_in. intros v Hv. simpl.
      destruct (Js.str_eqb (fullPath v) p) eqn:He; [|done].
      apply String.eqb_eq in He.
      specialize (Hp v (proj2 (list_elem_of_In _ _) Hv) He).
      destruct wantPublished, (isPublished v); simpl; try done;
        now rewrite andb_false_r.
  - intros Hnil. subst run. now rewrite Hnil.
Qed.

End BatchContract.

(** C2 (amended).  For a theme that exists, a batch archive returns a
    report whose [total] is the number of requested paths, whose
    [results] has one entry for each inventory video that is unpublished
    and whose [fullPath] is among the requested paths, in the order of
    the inventory, whose [archived] counts the moves that returned and
    whose [failed] counts the moves that raised.  A requested path that
    is the path of no such video is in no entry, and asking for it changes
    neither the videos moved nor, so, the state.  The same holds for a
    batch unarchive and the published videos. *)
Theorem batch_report_counts_attempts
    {D R : Type} `{FsPromises D} `{WebDAVClient (option R)} `{Locale}
    (themeId : Z) (videoPaths : list string) (w : World D R) (theme : Theme) :
  ThemeModel.findById themeId w = Some theme →
  ∃ allVideos, ThemeService.getThemeVideos themeId w = Ok allVideos
  ∧ (let videos := eligible false videoPaths allVideos in
     let run := attempts (ThemeService.archiveVideo themeId) videos w in
     ∃ report,
       ThemeService.batchArchiveVideos themeId videoPaths w = (Ok report, run.2)
       ∧ total report = length videoPaths
       ∧ results report = resultsOf videos run.1
       ∧ map mr_path (results report) = map fullPath videos
       ∧ map mr_success (results report) = map is_ok run.1
       ∧ archived report = length (List.filter is_ok run.1)
       ∧ failed report = length (List.filter (λ r, negb (is_ok r)) run.1)
       ∧ (∀ p, (∀ v, v ∈ allVideos → fullPath v = p → isPublished v ≠ false) →
               (p ∉ map mr_path (results report))
               ∧ eligible false (p :: videoPaths) allVideos = videos)
       ∧ (videos = [] → run.2 = w))
  ∧ (let videos := eligible true videoPaths allVideos in
     let run := attempts (ThemeService.unarchiveVideo themeId) videos w in
     ∃ report,
       ThemeService.batchUnarchiveVideos themeId videoPaths w = (Ok report, run.2)
       ∧ u_total report = length videoPaths
       ∧ u_results report = resultsOf videos run.1
       ∧ map mr_path (u_results report) = map fullPath videos
       ∧ map mr_success (u_results report) = map is_ok run.1
       ∧ unarchived report = length (List.filter is_ok run.1)
       ∧ u_failed report = length (List.filter (λ r, negb (is_ok r)) run.1)
       ∧ (∀ p, (∀ v, v ∈ allVideos → fullPath v = p → isPublished v ≠ true) →
               (p ∉ map mr_path (u_results report))
               ∧ eligible true (p :: videoPaths) allVideos = videos)
       ∧ (videos = [] → run.2 = w)).
Proof.
  intros Ht. destruct (getThemeVideos_total _ _ _ Ht) as [allVideos Hall].
  exists allVideos. split; [done|]. split.
  - intros videos run.
    destruct (report_of_attempts (ThemeService.archiveVideo themeId)
                videoPaths allVideos false w) as (Hp & Hs & Ha & Hf & Hu & Hn).
    eexists. rewrite batchArchiveVideos_spec, Ht, Hall. simpl.
    split; [reflexivity|]. simpl. done.
  - intros videos run.
    destruct (report_of_attempts (ThemeService.unarchiveVideo themeId)
                videoPaths allVideos true w) as (Hp & Hs & Ha & Hf & Hu & Hn).
    eexists. rewrite batchUnarchiveVideos_spec, Ht, Hall. simpl.
    split; [reflexivity|]. simpl. done.
Qed.

(* ===================================================================== *)
(** * The batch publish orchestrator                                      *)
(* ===================================================================== *)

Section PublishFacts.
Context {D R : Type} `{FsPromises D} `{WebDAVClient (option R)} `{Locale}.
Context {table : UploadTaskTable (World D R)}.

Implicit Types (w : World D R).

Lemma with_tasks_nil w : with_tasks [] w = w.
Proof. destruct w. unfold with_tasks. simpl. now rewrite app_nil_r. Qed.

Lemma with_tasks_app (ts us : list UploadTask) w :
  with_tasks us (with_tasks ts w) = with_tasks (ts ++ us) w.
Proof. unfold with_tasks. simpl. now rewrite app_assoc. Qed.

(** The data [batchPublishThemeVideos] hands to [createTask] for an
    account and a video. *)
Lemma createTask_spec (data : CreateTaskData) w :
  UploadService.createTask data w =
  match prisma_uploadTask_create data w with
  | Ok id =>
      let task :=
        mkUploadTask id (ct_platformId data) (ct_libraryId data)
          (ct_resourcePath data) "video" (ct_title data)
          (UploadService.or_empty (ct_description data))
          (UploadService.or_empty (ct_tags data)) "pending" (ct_scheduledAt data) in
      (Ok task, with_tasks [task] w)
  | Err e => (Err e, w)
  end.
Proof.
  unfold UploadService.createTask, try_catch.
  now destruct (prisma_uploadTask_create data w).
Qed.

Lemma join_concat (sep : string) (l : list string) :
  Js.join sep l = String.concat sep l.
Proof.
  induction l as [|s l IH]; simpl; [done|].
  destruct l as [|s' l]; [done|]. now rewrite IH.
Qed.

Lemma zip_app_length {A B} (xs xs' : list A) (ys ys' : list B) :
  length xs = length ys →
  zip (xs ++ xs') (ys ++ ys') = zip xs ys ++ zip xs' ys'.
Proof.
  revert ys. induction xs as [|x xs IH]; intros [|y ys] Hl; simpl in *;
    try done.
  f_equal. apply IH. lia.
Qed.

Lemma zip_short {A B} (xs : list A) (ys ys' : list B) :
  (length xs <= length ys)%nat → zip xs (ys ++ ys') = zip xs ys.
Proof.
  revert ys. induction xs as [|x xs IH]; intros [|y ys] Hl; simpl in *;
    try done; try lia.
  f_equal. apply IH. lia.
Qed.

Lemma accountVideoPairs_length (accounts : list Z) (videos : list VideoEntry) :
  length (accountVideoPairs accounts videos)
  = (length accounts * length videos)%nat.
Proof.
  unfold accountVideoPairs. induction accounts as [|a accounts IH]; simpl; [done|].
  rewrite length_app, length_map. unfold mbind in IH. now rewrite IH.
Qed.

Section Run.
Variable options : PublishOptions.

Lemma fanned_cons (x : Z * VideoEntry) (id : Z) pairs acc w run :
  fanned options pairs (acc ++ [publishTaskOf options (id, x)])
    (with_tasks [uploadTaskOf options (id, x)] w) run →
  fanned options (x :: pairs) acc w run.
Proof.
  intros (ids & Hst & Hout). exists (id :: ids). split.
  - rewrite Hst, with_tasks_app. reflexivity.
  - destruct Hout as [[Hl Hr] | (e & y & Hl & Hy & He & Hr)].
    + left. split; [simpl; now rewrite Hl|].
      rewrite Hr, <- app_assoc. reflexivity.
    + right. exists e, y. repeat split; try done. simpl. lia.
Qed.

Lemma publishVideos_run accountId videos acc w :
  fanned options (map (λ v, (accountId, v)) videos) acc w
    (ThemeService.publishVideos options accountId videos acc w).
Proof.
  revert acc w. induction videos as [|v vs IH]; intros acc w.
  - exists []. simpl. rewrite with_tasks_nil. split; [done|]. left.
    now rewrite app_nil_r.
  - cbn [ThemeService.publishVideos map]. unfold mbind at 1, async_bind.
    rewrite createTask_spec.
    change (mkCreateTaskData accountId (libraryId v) (fullPath v)
              (ThemeService.taskTitle options v) None
              (Some (ThemeService.taskTags options)) (scheduledAt options))
      with (dataOf options (accountId, v)).
    destruct (prisma_uploadTask_create (dataOf options (accountId, v)) w)
      as [id|e] eqn:Hc.
    + cbv zeta. apply (fanned_cons (accountId, v) id). apply IH.
    + exists []. simpl. rewrite with_tasks_nil. split; [done|]. right.
      exists e, (accountId, v). repeat split; try done. simpl. lia.
Qed.

Lemma fanned_app pairs pairs' acc w run :
  fanned options pairs acc w run →
  ∀ run',
    (∀ tasks w', run = (Ok tasks, w') → fanned options pairs' tasks w' run') →
    (∀ e w', run = (Err e, w') → run' = run) →
    fanned options (pairs ++ pairs') acc w run'.
Proof.
  intros (ids & Hst & Hout) run' Hok Herr.
  destruct run as [r w1]. simpl in *.
  destruct Hout as [[Hl ->] | (e & x & Hl & Hx & He & ->)].
  - destruct (Hok _ _ eq_refl) as (ids' & Hst' & Hout').
    exists (ids ++ ids'). split.
    + rewrite Hst', Hst, with_tasks_app, zip_app_length, map_app by done.
      reflexivity.
    + destruct Hout' as [[Hl' Hr'] | (e & x & Hl' & Hx & He & Hr')].
      * left. split; [rewrite !length_app; lia|].
        rewrite Hr', zip_app_length, map_app, app_assoc by done. reflexivity.
      * right. exists e, x. repeat split; try done.
        -- rewrite !length_app. lia.
        -- rewrite length_app, Hl. now rewrite lookup_app_r, Nat.add_comm,
             Nat.add_sub by lia.
  - rewrite (Herr _ _ eq_refl). exists ids. split.
    + simpl. rewrite Hst, zip_short by lia. reflexivity.
    + right. exists e, x. repeat split; try done.
      * rewrite length_app. lia.
      * now rewrite lookup_app_l by done.
Qed.

Lemma publishAccounts_run accounts videos acc w :
  fanned options (accountVideoPairs accounts videos) acc w
    (ThemeService.publishAccounts options accounts videos acc w).
Proof.
  revert acc w. induction accounts as [|a accounts IH]; intros acc w.
  - exists []. simpl. rewrite with_tasks_nil. split; [done|]. left.
    now rewrite app_nil_r.
  - cbn [ThemeService.publishAccounts]. unfold mbind at 1, async_bind.
    change (accountVideoPairs (a :: accounts) videos)
      with (map (λ v, (a, v)) videos ++ accountVideoPairs accounts videos).
    pose proof (publishVideos_run a videos acc w) as Hfirst.
    destruct (ThemeService.publishVideos options a videos acc w)
      as [[tasks'|e] w1] eqn:Hrun.
    + eapply fanned_app; [exact Hfirst| |].
      * intros tasks w' [= <- <-]. apply IH.
      * intros e w' [=].
    + eapply fanned_app; [exact Hfirst| |].
      * intros tasks w' [=].
      * intros e' w' _. reflexivity.
Qed.

End Run.
End PublishFacts.

(** C7.  For a theme that exists, accounts and video paths that are not
    empty and an inventory with a video whose path is requested:
    when the task table accepts every row, the batch publish returns;
    when it returns, it has stored one upload task for each pair of an
    account and a matched video (published or not), account by account,
    with the given title or else the file name without its extension,
    and the tags joined with commas, the report counts them, and every
    task record carries the [autoArchive] flag, true unless the option
    is explicitly false; when the table rejects a row, the call raises
    the error of the table, the rows of the pairs before that one stay
    stored, and there is no report. *)
Theorem batchPublish_fans_out
    {D R : Type} `{FsPromises D} `{WebDAVClient (option R)} `{Locale}
    {table : UploadTaskTable (World D R)}
    (themeId : Z) (options : PublishOptions) (w : World D R) (theme : Theme)
    (allVideos : list VideoEntry) :
  ThemeModel.findById themeId w = Some theme →
  accountIds options ≠ [] →
  videoPaths options ≠ [] →
  ThemeService.getThemeVideos themeId w = Ok allVideos →
  let matchedVideos :=
    List.filter (λ v, Js.includes (videoPaths options) (fullPath v)) allVideos in
  matchedVideos ≠ [] →
  let pairs := accountVideoPairs (accountIds options) matchedVideos in
  let flag := match autoArchive options with Some false => false | _ => true end in
  let tagText :=
    match tags options with Some ts => String.concat "," ts | None => "" end in
  let titleOf (v : VideoEntry) :=
    match title options with
    | Some t => if Js.is_empty t then NodePath.parse_name (name (info v)) else t
    | None => NodePath.parse_name (name (info v))
    end in
  let data (x : Z * VideoEntry) :=
    mkCreateTaskData x.1 (libraryId x.2) (fullPath x.2) (titleOf x.2) None
      (Some tagText) (scheduledAt options) in
  let row (x : Z * (Z * VideoEntry)) :=
    mkUploadTask x.1 x.2.1 (libraryId x.2.2) (fullPath x.2.2) "video"
      (titleOf x.2.2) "" tagText "pending" (scheduledAt options) in
  let record (x : Z * (Z * VideoEntry)) :=
    mkPublishTask x.1 x.2.1 (name (info x.2.2)) (fullPath x.2.2)
      (libraryId x.2.2) flag in
  ((∀ data0 w0, ∃ id, prisma_uploadTask_create data0 w0 = Ok id) →
   ∃ report w',
     ThemeService.batchPublishThemeVideos themeId options w = (Ok report, w'))
  ∧ (∀ report w',
       ThemeService.batchPublishThemeVideos themeId options w = (Ok report, w') →
       ∃ ids,
         length ids = length pairs
         ∧ w' = with_tasks (map row (zip ids pairs)) w
         ∧ tasks report = map record (zip ids pairs)
         ∧ totalTasks report
           = (length (accountIds options) * length matchedVideos)%nat
         ∧ accountCount report = length (accountIds options)
         ∧ videoCount report = length matchedVideos)
  ∧ (∀ e w',
       ThemeService.batchPublishThemeVideos themeId options w = (Err e, w') →
       ∃ ids x,
         (length ids < length pairs)%nat
         ∧ pairs !! length ids = Some x
         ∧ prisma_uploadTask_create (data x) w' = Err e
         ∧ w' = with_tasks (map row (zip ids pairs)) w).
Proof.
  intros Ht Ha Hp Hall matchedVideos Hm pairs flag tagText titleOf data row record.
  assert (Hrow : ∀ l, map (uploadTaskOf options) l = map row l).
  { intros l. apply map_ext. intros [id [a v]].
    unfold uploadTaskOf, uploadTaskFor, row, tagText, ThemeService.taskTags.
    simpl. destruct (tags options); [now rewrite join_concat|done]. }
  assert (Hrecord : ∀ l, map (publishTaskOf options) l = map record l).
  { intros l. apply map_ext. intros [id [a v]]. reflexivity. }
  assert (Hdata : ∀ x, dataOf options x = data x).
  { intros [a v]. unfold dataOf, data, tagText, ThemeService.taskTags. simpl.
    destruct (tags options); [now rewrite join_concat|done]. }
  assert (Hrun : ThemeService.batchPublishThemeVideos themeId options w
                 = (tasks ← ThemeService.publishAccounts options
                              (accountIds options) matchedVideos [];
                    mret (mkPublishReport tasks (length tasks)
                            (length (accountIds options))
                            (length matchedVideos))) w).
  { unfold ThemeService.batchPublishThemeVideos. rewrite Ht, Hall.
    rewrite bool_decide_false by (destruct (accountIds options); done).
    rewrite bool_decide_false by (destruct (videoPaths options); done).
    fold matchedVideos.
    rewrite bool_decide_false by (destruct matchedVideos; done).
    reflexivity. }
  rewrite Hrun. clear Hrun. unfold mbind, async_bind.
  destruct (publishAccounts_run options (accountIds options) matchedVideos [] w)
    as (ids & Hst & Hout).
  fold pairs in Hst, Hout. rewrite Hrow in Hst. rewrite Hrecord in Hout.
  destruct (ThemeService.publishAccounts options (accountIds options)
              matchedVideos [] w) as [[made|e0] w1]; simpl in Hst, Hout;
    subst w1.
  - destruct Hout as [[Hl [= ->]] | (e & x & _ & _ & _ & [=])].
    split; [intros _; eauto|]. split; [|intros e w' [=]].
    intros report w' [= <- <-]. exists ids. simpl.
    repeat split; try done.
    rewrite length_map, length_zip, Hl, Nat.min_id.
    apply accountVideoPairs_length.
  - destruct Hout as [[_ [=]] | (e & x & Hl & Hx & He & [= ->])].
    rewrite Hdata in He. split.
    { intros Hacc. destruct (Hacc (data x)
        (with_tasks (map row (zip ids pairs)) w)) as [id Hid]. congruence. }
    split; [intros report w' [=]|].
    intros e' w' [= <- <-]. exists ids, x. done.
Qed.

Section IsolationFacts.
Context {D R : Type} `{FsPromises D} `{WebDAVClient (option R)} `{Locale}.

Implicit Types (w : World D R).




End IsolationFacts.


(* ===================================================================== *)
(** * Facts on strings and paths                                          *)
(* ===================================================================== *)

Lemma str_app_cons (c : ascii) (a b : string) :
  String c a +:+ b = String c (a +:+ b).
Proof. reflexivity. Qed.

Lemma str_app_nil_l (a : string) : "" +:+ a = a.
Proof. reflexivity. Qed.

Lemma str_app_assoc (a b c : string) : (a +:+ b) +:+ c = a +:+ (b +:+ c).
Proof.
  induction a as [|x a IH]; [done|]. rewrite !str_app_cons. f_equal. exact IH.
Qed.

Lemma str_app_nil_r (a : string) : a +:+ "" = a.
Proof.
  induction a as [|x a IH]; [done|]. rewrite str_app_cons. f_equal. exact IH.
Qed.

Lemma str_eqb_true (a b : string) : Js.str_eqb a b = true ↔ a = b.
Proof. apply String.eqb_eq. Qed.

Lemma str_eqb_false (a b : string) : Js.str_eqb a b = false ↔ a ≠ b.
Proof. apply String.eqb_neq. Qed.

Lemma is_empty_true (s : string) : Js.is_empty s = true ↔ s = "".
Proof. destruct s; simpl; split; done. Qed.

Lemma is_empty_false (s : string) : Js.is_empty s = false ↔ s ≠ "".
Proof. destruct s; simpl; split; done. Qed.

Lemma split_slash_not_nil (s : string) : Js.split_slash s ≠ [].
Proof.
  induction s as [|c s IH]; simpl; [done|].
  destruct (Ascii.eqb c Js.slash); [done|]. destruct (Js.split_slash s); done.
Qed.

Lemma split_slash_cons (c : ascii) (s : string) :
  Js.split_slash (String c s) =
  if Ascii.eqb c Js.slash then "" :: Js.split_slash s
  else match Js.split_slash s with
       | seg :: rest => String c seg :: rest
       | [] => [String c ""]
       end.
Proof. reflexivity. Qed.

Lemma join_split_slash (s : string) : Js.join "/" (Js.split_slash s) = s.
Proof.
  induction s as [|c s IH]; [done|]. rewrite split_slash_cons.
  destruct (Ascii.eqb c Js.slash) eqn:Hc.
  - apply Ascii.eqb_eq in Hc as ->. pose proof (split_slash_not_nil s) as Hn.
    destruct (Js.split_slash s) as [|seg rest]; [done|].
    change (Js.join "/" ("" :: seg :: rest)) with ("/" +:+ Js.join "/" (seg :: rest)).
    now rewrite IH.
  - pose proof (split_slash_not_nil s) as Hn.
    destruct (Js.split_slash s) as [|seg rest]; [done|].
    destruct rest as [|seg' rest]; simpl in *; now rewrite <- IH.
Qed.

Lemma split_slash_app (a b : string) :
  Js.split_slash (a +:+ "/" +:+ b) = Js.split_slash a ++ Js.split_slash b.
Proof.
  induction a as [|c a IH]; [done|].
  change (String c a +:+ "/" +:+ b) with (String c (a +:+ "/" +:+ b)).
  rewrite !split_slash_cons, IH.
  destruct (Ascii.eqb c Js.slash); [done|].
  pose proof (split_slash_not_nil a) as Hn.
  destruct (Js.split_slash a); done.
Qed.

Lemma split_slash_noslash (n : string) :
  Js.has_slash n = false → Js.split_slash n = [n].
Proof.
  unfold Js.has_slash. intros Hn. pose proof (join_split_slash n) as Hj.
  destruct (Js.split_slash n) as [|seg [|]]; try done. simpl in Hj. now subst.
Qed.

Lemma split_slash_segments (s : string) :
  Forall (λ seg, Js.has_slash seg = false) (Js.split_slash s).
Proof.
  induction s as [|c s IH]; [by repeat constructor|]. rewrite split_slash_cons.
  destruct (Ascii.eqb c Js.slash) eqn:Hc; [by constructor|].
  pose proof (split_slash_not_nil s) as Hn.
  destruct (Js.split_slash s) as [|seg rest]; [done|].
  inversion IH as [|? ? Hseg Hrest]; subst. constructor; [|done].
  unfold Js.has_slash in *. rewrite split_slash_cons, Hc.
  destruct (Js.split_slash seg) as [|? [|]]; done.
Qed.

Lemma split_slash_snoc (a : string) :
  Js.split_slash (a +:+ "/") = Js.split_slash a ++ [""].
Proof.
  rewrite <- (str_app_nil_r (a +:+ "/")), str_app_assoc.
  apply (split_slash_app a "").
Qed.

Lemma join_cons (x : string) (l : list string) :
  l ≠ [] → Js.join "/" (x :: l) = x +:+ "/" +:+ Js.join "/" l.
Proof. destruct l; done. Qed.

Lemma join_snoc (l : list string) (n : string) :
  l ≠ [] → Js.join "/" (l ++ [n]) = Js.join "/" l +:+ "/" +:+ n.
Proof.
  induction l as [|x l IH]; [done|]. intros _. destruct l as [|y l]; [done|].
  change ((x :: y :: l) ++ [n]) with (x :: ((y :: l) ++ [n])).
  rewrite join_cons by done. rewrite IH by done.
  rewrite (join_cons x (y :: l)) by done. now rewrite !str_app_assoc.
Qed.

Lemma split_slash_join (l : list string) :
  l ≠ [] → Forall (λ seg, Js.has_slash seg = false) l →
  Js.split_slash (Js.join "/" l) = l.
Proof.
  induction l as [|x l IH]; [done|]. intros _ Hl.
  inversion Hl as [|? ? Hx Hrest]; subst.
  destruct l as [|y l]; [by apply split_slash_noslash|].
  rewrite join_cons by done. rewrite split_slash_app, IH by done.
  now rewrite split_slash_noslash.
Qed.

Lemma endsWith_unfold (s p : string) :
  Js.endsWith s p =
  if Js.str_eqb s p then true
  else match s with
       | EmptyString => false
       | String _ s' => Js.endsWith s' p
       end.
Proof. destruct s; reflexivity. Qed.

Lemma endsWith_refl (s : string) : Js.endsWith s s = true.
Proof.
  rewrite endsWith_unfold. now rewrite (proj2 (str_eqb_true s s) eq_refl).
Qed.

Lemma endsWith_app (a b : string) : Js.endsWith (a +:+ b) b = true.
Proof.
  induction a as [|c a IH]; [apply endsWith_refl|].
  rewrite str_app_cons, endsWith_unfold.
  destruct (Js.str_eqb _ _); [done|apply IH].
Qed.

Lemma endsWith_slash_last (s : string) :
  Js.endsWith s "/" = true → last (Js.split_slash s) = Some "".
Proof.
  induction s as [|c s IH]; [done|].
  rewrite endsWith_unfold. destruct (Js.str_eqb (String c s) "/") eqn:He.
  - apply str_eqb_true in He. injection He as -> ->. done.
  - intros Hs. specialize (IH Hs). rewrite split_slash_cons.
    pose proof (split_slash_not_nil s) as Hn.
    destruct (Ascii.eqb c Js.slash).
    + destruct (Js.split_slash s); done.
    + destruct (Js.split_slash s) as [|seg [|seg' rest]] eqn:Hsp; try done.
      simpl in IH. injection IH as ->.
      pose proof (join_split_slash s) as Hj. rewrite Hsp in Hj. simpl in Hj.
      subst s. done.
Qed.

Lemma last_slash_endsWith (s : string) :
  s ≠ "" → last (Js.split_slash s) = Some "" → Js.endsWith s "/" = true.
Proof.
  intros Hs Hl. pose proof (join_split_slash s) as Hj.
  destruct (Js.split_slash s) as [|x l] using rev_ind; [done|].
  rewrite last_snoc in Hl. injection Hl as ->.
  destruct (decide (l = [])) as [->|Hne].
  - simpl in Hj. done.
  - rewrite join_snoc in Hj by done. rewrite <- Hj.
    rewrite <- str_app_assoc, str_app_nil_r. apply endsWith_app.
Qed.

(** ** Segments *)

Lemma has_slash_cons (c : ascii) (s : string) :
  Js.has_slash (String c s) = false →
  Ascii.eqb c Js.slash = false ∧ Js.has_slash s = false.
Proof.
  unfold Js.has_slash. rewrite split_slash_cons.
  pose proof (split_slash_not_nil s).
  destruct (Ascii.eqb c Js.slash).
  - destruct (Js.split_slash s); done.
  - destruct (Js.split_slash s) as [|seg [|]]; done.
Qed.

Lemma plain_inv (n : string) :
  NodePath.plain n = true →
  n ≠ "" ∧ Js.has_slash n = false ∧ n ≠ "." ∧ n ≠ "..".
Proof.
  unfold NodePath.plain. rewrite !andb_true_iff, !negb_true_iff.
  intros [[[He Hs] Hd] Hdd]. repeat split; try done.
  - by apply is_empty_false.
  - by apply str_eqb_false.
  - by apply str_eqb_false.
Qed.

Lemma plain_named (n : string) : NodePath.plain n = true → namedSegment n = true.
Proof.
  intros (He & _ & Hd & _)%plain_inv. unfold namedSegment.
  apply andb_true_iff. split; apply negb_true_iff;
    [by apply is_empty_false|by apply str_eqb_false].
Qed.

Lemma tameName_plain (n : string) : tameName n = true → NodePath.plain n = true.
Proof. unfold tameName. by intros [? _]%andb_true_iff. Qed.

Lemma segs_app (a b : string) : segs (a +:+ "/" +:+ b) = segs a ++ segs b.
Proof. unfold segs. now rewrite split_slash_app, List.filter_app. Qed.

Lemma no_dotdot_app (a b : string) :
  no_dotdot (a +:+ "/" +:+ b) = no_dotdot a && no_dotdot b.
Proof. unfold no_dotdot. now rewrite split_slash_app, forallb_app. Qed.

Lemma has_backslash_app (a b : string) :
  has_backslash (a +:+ b) = has_backslash a || has_backslash b.
Proof.
  induction a as [|c a IH]; [done|]. rewrite str_app_cons. simpl.
  now rewrite IH, orb_assoc.
Qed.

Lemma segs_name (n : string) : NodePath.plain n = true → segs n = [n].
Proof.
  intros Hp. pose proof (plain_named _ Hp) as Hn.
  apply plain_inv in Hp as (_ & Hs & _). unfold segs.
  rewrite split_slash_noslash by done. simpl. now rewrite Hn.
Qed.

Lemma no_dotdot_name (n : string) : NodePath.plain n = true → no_dotdot n = true.
Proof.
  intros (_ & Hs & _ & Hdd)%plain_inv. unfold no_dotdot.
  rewrite split_slash_noslash by done. simpl.
  now rewrite (proj2 (str_eqb_false n "..") Hdd).
Qed.

Lemma tame_name (n : string) : tameName n = true → tame n = true.
Proof.
  unfold tameName, tame. intros [Hp Hb]%andb_true_iff.
  now rewrite no_dotdot_name, Hb.
Qed.

Lemma segs_empty : segs "" = [].
Proof. reflexivity. Qed.

(** The segments of a path without [..] steps are plain names. *)
Lemma segs_plain (p : string) :
  no_dotdot p = true → Forall (λ s, NodePath.plain s = true) (segs p).
Proof.
  unfold no_dotdot, segs. intros Hnd. apply Forall_forall. intros s Hs.
  apply list_elem_of_In, filter_In in Hs as [Hin Hn].
  rewrite forallb_forall in Hnd. specialize (Hnd s Hin).
  pose proof (split_slash_segments p) as Hsl. rewrite Forall_forall in Hsl.
  specialize (Hsl s (proj2 (list_elem_of_In _ _) Hin)).
  unfold namedSegment in Hn. apply andb_true_iff in Hn as [He Hd].
  unfold NodePath.plain. now rewrite He, Hsl, Hd, Hnd.
Qed.

Lemma norm_fold_tame (b : bool) (l stack : list string) :
  forallb (λ s, negb (Js.str_eqb s "..")) l = true →
  fold_left (NodePath.norm_step b) l stack
  = rev (List.filter namedSegment l) ++ stack.
Proof.
  revert stack. induction l as [|s l IH]; intros stack; simpl; [done|].
  intros [Hs Hl]%andb_true_iff. rewrite IH by done.
  unfold NodePath.norm_step, namedSegment.
  destruct (Js.is_empty s) eqn:He; simpl; [done|].
  destruct (Js.str_eqb s ".") eqn:Hd; simpl; [done|].
  apply negb_true_iff in Hs. rewrite Hs. now rewrite <- app_assoc.
Qed.

Lemma norm_stack_tame (b : bool) (p : string) :
  no_dotdot p = true → NodePath.norm_stack b p = rev (segs p).
Proof.
  intros Hnd. unfold NodePath.norm_stack. rewrite norm_fold_tame by done.
  now rewrite app_nil_r.
Qed.

Lemma key_of_tame (p : string) : no_dotdot p = true → MemFs.key_of p = segs p.
Proof.
  intros Hnd. unfold MemFs.key_of. now rewrite norm_stack_tame, rev_involutive.
Qed.

(** ** Rendered paths *)

Lemma plain_list_noslash (l : list string) :
  Forall (λ s, NodePath.plain s = true) l →
  Forall (λ s, Js.has_slash s = false) l.
Proof. intros Hl. eapply Forall_impl; [exact Hl|]. by intros s (_ & ? & _)%plain_inv. Qed.

Lemma plain_list_segs (l : list string) :
  Forall (λ s, NodePath.plain s = true) l →
  List.filter namedSegment l = l ∧ forallb (λ s, negb (Js.str_eqb s "..")) l = true.
Proof.
  induction 1 as [|s l Hs Hl [IH1 IH2]]; [done|]. simpl.
  rewrite (plain_named _ Hs), IH1, IH2.
  apply plain_inv in Hs as (_ & _ & _ & Hdd).
  now rewrite (proj2 (str_eqb_false s "..") Hdd).
Qed.

Lemma split_render (abs : bool) (l : list string) :
  l ≠ [] → Forall (λ s, NodePath.plain s = true) l →
  Js.split_slash (render abs l) = (if abs then [""] else []) ++ l.
Proof.
  intros Hne Hl. unfold render.
  pose proof (split_slash_join l Hne (plain_list_noslash _ Hl)) as Hs.
  destruct abs; [|by rewrite str_app_nil_l].
  change ("/" +:+ Js.join "/" l) with (String Js.slash (Js.join "/" l)).
  rewrite split_slash_cons. simpl. now rewrite Hs.
Qed.

Lemma segs_render (abs : bool) (l : list string) :
  l ≠ [] → Forall (λ s, NodePath.plain s = true) l →
  segs (render abs l) = l ∧ no_dotdot (render abs l) = true.
Proof.
  intros Hne Hl. unfold segs, no_dotdot. rewrite split_render by done.
  destruct (plain_list_segs l Hl) as [H1 H2]. destruct abs; simpl; by rewrite ?H1, ?H2.
Qed.

Lemma render_snoc (abs : bool) (l : list string) (n : string) :
  l ≠ [] → render abs (l ++ [n]) = render abs l +:+ "/" +:+ n.
Proof.
  intros Hne. unfold render. rewrite join_snoc by done.
  now rewrite !str_app_assoc.
Qed.

Lemma join_not_empty (l : list string) :
  l ≠ [] → Forall (λ s, NodePath.plain s = true) l → Js.join "/" l ≠ "".
Proof.
  intros Hne Hl Hj. pose proof (split_slash_join l Hne (plain_list_noslash _ Hl)) as Hs.
  rewrite Hj in Hs. simpl in Hs. subst l.
  inversion Hl as [|? ? Hp _]; subst. done.
Qed.

Lemma startsWith_slash_cons (c : ascii) (s : string) :
  Js.startsWith (String c s) "/" = Ascii.eqb c Js.slash.
Proof.
  change (Js.startsWith (String c s) "/") with (Ascii.eqb Js.slash c && true).
  now rewrite andb_true_r, Ascii.eqb_sym.
Qed.

Lemma isAbsolute_render (abs : bool) (l : list string) :
  l ≠ [] → Forall (λ s, NodePath.plain s = true) l →
  NodePath.isAbsolute (render abs l) = abs.
Proof.
  intros Hne Hl. pose proof (split_render abs l Hne Hl) as Hs.
  unfold NodePath.isAbsolute. destruct abs.
  { reflexivity. }
  unfold render in *. rewrite str_app_nil_l in *.
  destruct (Js.join "/" l) as [|c s] eqn:Hj; [done|].
  rewrite startsWith_slash_cons.
  destruct (Ascii.eqb c Js.slash) eqn:Hc; [|done].
  rewrite split_slash_cons, Hc in Hs. destruct l as [|x l]; [done|].
  injection Hs as <- _. inversion Hl; subst. done.
Qed.

Lemma endsWith_slash_render (abs : bool) (l : list string) :
  l ≠ [] → Forall (λ s, NodePath.plain s = true) l →
  Js.endsWith (render abs l) "/" = false.
Proof.
  intros Hne Hl. destruct (Js.endsWith (render abs l) "/") eqn:He; [|done].
  apply endsWith_slash_last in He. rewrite split_render in He by done.
  rewrite last_app in He. destruct (last l) as [x|] eqn:Hlast.
  - injection He as ->. apply last_Some in Hlast as [l' ->].
    apply Forall_app in Hl as [_ Hx]. inversion Hx; subst. done.
  - apply last_None in Hlast. done.
Qed.

Lemma render_not_root (abs : bool) (l : list string) :
  l ≠ [] → Forall (λ s, NodePath.plain s = true) l →
  render abs l ≠ "" ∧ render abs l ≠ "/".
Proof.
  intros Hne Hl. pose proof (split_render abs l Hne Hl) as Hs.
  split; intros Hr; rewrite Hr in Hs; simpl in Hs.
  - destruct abs; simpl in Hs; [done|]. subst l. inversion Hl; subst. done.
  - destruct abs; simpl in Hs.
    + injection Hs as <-. inversion Hl; subst. done.
    + subst l. inversion Hl; subst. done.
Qed.

(** ** [path.normalize] and [path.join] on paths without [..] steps *)

Lemma has_backslash_join (l : list string) :
  has_backslash (Js.join "/" l) = existsb has_backslash l.
Proof.
  induction l as [|x l IH]; [done|]. destruct l as [|y l].
  - simpl. now rewrite orb_false_r.
  - rewrite join_cons by done. rewrite !has_backslash_app, IH. simpl.
    reflexivity.
Qed.

Lemma has_backslash_split (s : string) :
  has_backslash s = existsb has_backslash (Js.split_slash s).
Proof. now rewrite <- has_backslash_join, join_split_slash. Qed.

Lemma has_backslash_segs (s : string) :
  has_backslash s = false → existsb has_backslash (segs s) = false.
Proof.
  rewrite has_backslash_split. unfold segs.
  induction (Js.split_slash s) as [|x l IH]; [done|]. simpl.
  intros [Hx Hl]%orb_false_iff. destruct (namedSegment x); simpl; rewrite ?Hx; auto.
Qed.

Lemma normalizeString_tame (s : string) (b : bool) :
  no_dotdot s = true → NodePath.normalizeString s b = Js.join "/" (segs s).
Proof.
  intros Hnd. unfold NodePath.normalizeString.
  now rewrite norm_stack_tame, rev_involutive.
Qed.

Lemma normalize_render (s : string) :
  no_dotdot s = true → segs s ≠ [] → Js.endsWith s "/" = false →
  NodePath.normalize s = render (NodePath.isAbsolute s) (segs s).
Proof.
  intros Hnd Hne Ht. unfold NodePath.normalize.
  destruct (Js.is_empty s) eqn:He.
  { apply is_empty_true in He. subst s. done. }
  rewrite normalizeString_tame, Ht by done.
  pose proof (join_not_empty _ Hne (segs_plain _ Hnd)) as Hj.
  apply is_empty_false in Hj. rewrite Hj. unfold render.
  destruct (NodePath.isAbsolute s); [done|]. now rewrite str_app_nil_l.
Qed.

Lemma segs_split_named (l : list string) (abs trailing : bool) :
  Forall (λ s, NodePath.plain s = true) l →
  List.filter namedSegment
    ((if abs then [""] else []) ++ l ++ (if trailing then [""] else [])) = l
  ∧ forallb (λ s, negb (Js.str_eqb s ".."))
      ((if abs then [""] else []) ++ l ++ (if trailing then [""] else [])) = true.
Proof.
  intros Hl. destruct (plain_list_segs l Hl) as [H1 H2].
  rewrite !List.filter_app, !forallb_app, H1, H2.
  destruct abs, trailing; simpl; now rewrite ?app_nil_r.
Qed.

Lemma split_wrapped (l : list string) (abs trailing : bool) :
  l ≠ [] → Forall (λ s, NodePath.plain s = true) l →
  Js.split_slash
    ((if abs then "/" else "") +:+ Js.join "/" l +:+ (if trailing then "/" else ""))
  = (if abs then [""] else []) ++ l ++ (if trailing then [""] else []).
Proof.
  intros Hne Hl.
  pose proof (split_slash_join l Hne (plain_list_noslash _ Hl)) as Hs.
  assert (Hq : Js.split_slash (Js.join "/" l +:+ (if trailing then "/" else ""))
               = l ++ (if trailing then [""] else [])).
  { destruct trailing; [by rewrite split_slash_snoc, Hs|].
    by rewrite str_app_nil_r, app_nil_r. }
  destruct abs; [|by rewrite str_app_nil_l].
  rewrite (str_app_cons "/" "" _), str_app_nil_l, split_slash_cons. simpl.
  now rewrite Hq.
Qed.

Lemma normalize_wrapped (s : string) :
  no_dotdot s = true → segs s ≠ [] →
  NodePath.normalize s
  = (if NodePath.isAbsolute s then "/" else "")
    +:+ Js.join "/" (segs s)
    +:+ (if Js.endsWith s "/" then "/" else "").
Proof.
  intros Hnd Hne. unfold NodePath.normalize.
  destruct (Js.is_empty s) eqn:He.
  { apply is_empty_true in He. subst s. done. }
  rewrite normalizeString_tame by done.
  pose proof (join_not_empty _ Hne (segs_plain _ Hnd)) as Hj.
  apply is_empty_false in Hj. rewrite Hj.
  destruct (NodePath.isAbsolute s), (Js.endsWith s "/");
    rewrite ?str_app_nil_l, ?str_app_nil_r; reflexivity.
Qed.

Lemma normalize_rootlike (s : string) :
  no_dotdot s = true → segs s = [] →
  NodePath.normalize s = "." ∨ NodePath.normalize s = "/"
  ∨ NodePath.normalize s = "./".
Proof.
  intros Hnd Hne. unfold NodePath.normalize.
  destruct (Js.is_empty s); [by left|].
  rewrite normalizeString_tame, Hne by done. simpl.
  destruct (NodePath.isAbsolute s), (Js.endsWith s "/"); auto.
Qed.

(** Normalising keeps the names of a path. *)
Lemma segs_normalize (s : string) :
  no_dotdot s = true →
  segs (NodePath.normalize s) = segs s
  ∧ no_dotdot (NodePath.normalize s) = true
  ∧ (has_backslash s = false → has_backslash (NodePath.normalize s) = false).
Proof.
  intros Hnd. destruct (decide (segs s = [])) as [Hnil|Hne].
  - rewrite Hnil.
    destruct (normalize_rootlike s Hnd Hnil) as [->|[->| ->]]; done.
  - rewrite normalize_wrapped by done.
    pose proof (segs_plain _ Hnd) as Hpl.
    unfold segs at 1. unfold no_dotdot at 1. rewrite split_wrapped by done.
    destruct (segs_split_named (segs s) (NodePath.isAbsolute s)
                (Js.endsWith s "/") Hpl) as [H1 H2].
    split; [done|]. split; [done|]. intros Hb.
    rewrite !has_backslash_app, has_backslash_join, has_backslash_segs by done.
    destruct (NodePath.isAbsolute s), (Js.endsWith s "/"); done.
Qed.

Lemma tame_inv (p : string) :
  tame p = true → no_dotdot p = true ∧ has_backslash p = false.
Proof.
  unfold tame. intros [? ?%negb_true_iff]%andb_true_iff. done.
Qed.

Lemma tame_intro (p : string) :
  no_dotdot p = true → has_backslash p = false → tame p = true.
Proof. unfold tame. intros -> ->. done. Qed.

Lemma tame_child (d n : string) :
  tame d = true → tameName n = true → tame (d +:+ "/" +:+ n) = true.
Proof.
  intros [Hd1 Hd2]%tame_inv Hn. pose proof (tame_name _ Hn) as [Hn1 Hn2]%tame_inv.
  apply tame_intro.
  - now rewrite no_dotdot_app, Hd1, Hn1.
  - now rewrite !has_backslash_app, Hd2, Hn2.
Qed.

Lemma join2_unfold (a b : string) :
  NodePath.join2 a b =
  if Js.is_empty a then (if Js.is_empty b then "." else NodePath.normalize b)
  else if Js.is_empty b then NodePath.normalize a
       else NodePath.normalize (a +:+ "/" +:+ b).
Proof.
  unfold NodePath.join2, NodePath.join. simpl.
  destruct a, b; reflexivity.
Qed.

(** Joining two such paths puts their names one after the other. *)
Lemma segs_join2 (a b : string) :
  tame a = true → tame b = true →
  segs (NodePath.join2 a b) = segs a ++ segs b
  ∧ tame (NodePath.join2 a b) = true.
Proof.
  intros [Ha1 Ha2]%tame_inv [Hb1 Hb2]%tame_inv. rewrite join2_unfold.
  destruct (Js.is_empty a) eqn:Hea; [apply is_empty_true in Hea; subst a|];
    (destruct (Js.is_empty b) eqn:Heb; [apply is_empty_true in Heb; subst b|]).
  - done.
  - destruct (segs_normalize b Hb1) as (H1 & H2 & H3).
    split; [done|]. apply tame_intro; auto.
  - destruct (segs_normalize a Ha1) as (H1 & H2 & H3).
    rewrite app_nil_r. split; [done|]. apply tame_intro; auto.
  - assert (Hnd : no_dotdot (a +:+ "/" +:+ b) = true)
      by now rewrite no_dotdot_app, Ha1, Hb1.
    destruct (segs_normalize _ Hnd) as (H1 & H2 & H3).
    rewrite H1, segs_app. split; [done|]. apply tame_intro; [done|].
    apply H3. now rewrite !has_backslash_app, Ha2, Hb2.
Qed.

(** ** [path.dirname] and [path.basename] of a path that ends in a name *)

Lemma trimmed_rev_child (d n : string) :
  NodePath.plain n = true →
  NodePath.trimmed_rev (d +:+ "/" +:+ n) = n :: rev (Js.split_slash d).
Proof.
  intros (Hne & Hs & _)%plain_inv. unfold NodePath.trimmed_rev.
  rewrite split_slash_app, (split_slash_noslash n), rev_app_distr by done.
  simpl.
  now rewrite (proj2 (is_empty_false n) Hne).
Qed.

Lemma basename_child (d n : string) :
  NodePath.plain n = true → NodePath.basename (d +:+ "/" +:+ n) = n.
Proof. intros Hn. unfold NodePath.basename. now rewrite trimmed_rev_child. Qed.

Lemma dirname_child (d n : string) :
  NodePath.plain n = true →
  NodePath.dirname (d +:+ "/" +:+ n) =
  if Js.is_empty d then "/" else if Js.str_eqb d "/" then "//" else d.
Proof.
  intros Hn. unfold NodePath.dirname. rewrite trimmed_rev_child by done.
  rewrite rev_involutive. pose proof (join_split_slash d) as Hj.
  destruct (Js.is_empty d) eqn:He.
  { apply is_empty_true in He. subst d. reflexivity. }
  destruct (Js.str_eqb d "/") eqn:Hd.
  { apply str_eqb_true in Hd. subst d. reflexivity. }
  apply is_empty_false in He. apply str_eqb_false in Hd.
  destruct (Js.split_slash d) as [|e1 [|e2 [|e3 l]]] eqn:Hsp.
  - done.
  - change (Js.join "/" [e1]) with e1 in Hj. subst e1.
    now rewrite (proj2 (is_empty_false d) He).
  - destruct (Js.is_empty e1) eqn:H1, (Js.is_empty e2) eqn:H2; try exact Hj.
    apply is_empty_true in H1, H2. subst e1 e2.
    change (Js.join "/" [""; ""]) with "/" in Hj. congruence.
  - exact Hj.
Qed.

(** The directory of [d/n] has the names of [d]. *)
Lemma segs_dirname_child (d n : string) :
  NodePath.plain n = true → tame d = true →
  segs (NodePath.dirname (d +:+ "/" +:+ n)) = segs d
  ∧ tame (NodePath.dirname (d +:+ "/" +:+ n)) = true.
Proof.
  intros Hn Hd. rewrite dirname_child by done.
  destruct (Js.is_empty d) eqn:He.
  { apply is_empty_true in He. subst d. done. }
  destruct (Js.str_eqb d "/") eqn:Hr; [|done].
  apply str_eqb_true in Hr. subst d. done.
Qed.

Lemma dirname_name (n : string) :
  NodePath.plain n = true → NodePath.dirname n = "." ∧ NodePath.basename n = n.
Proof.
  intros (Hne & Hs & _)%plain_inv.
  unfold NodePath.dirname, NodePath.basename, NodePath.trimmed_rev.
  rewrite split_slash_noslash by done. simpl.
  now rewrite (proj2 (is_empty_false n) Hne).
Qed.

(** The directory and the base name of a rendered path. *)
Lemma dirname_render (abs : bool) (l : list string) (n : string) :
  Forall (λ s, NodePath.plain s = true) l → NodePath.plain n = true →
  NodePath.basename (render abs (l ++ [n])) = n
  ∧ NodePath.dirname (render abs (l ++ [n])) =
    match l with
    | [] => if abs then "/" else "."
    | _ => render abs l
    end.
Proof.
  intros Hl Hn. destruct l as [|x l].
  - destruct abs.
    + change (render true ([] ++ [n])) with ("" +:+ "/" +:+ n).
      now rewrite basename_child, dirname_child.
    + change (render false ([] ++ [n])) with n.
      destruct (dirname_name n Hn). done.
  - rewrite render_snoc by done. rewrite basename_child, dirname_child by done.
    split; [done|].
    destruct (render_not_root abs (x :: l)) as [H1 H2]; [done|done|].
    rewrite (proj2 (is_empty_false _) H1), (proj2 (str_eqb_false _ _) H2). done.
Qed.

Lemma segs_rootlike_dir (abs : bool) :
  segs (if abs then "/" else ".") = [] ∧ tame (if abs then "/" else ".") = true.
Proof. destruct abs; done. Qed.

(** Rendered paths of tame names are tame. *)
Lemma tame_render (abs : bool) (l : list string) :
  l ≠ [] → Forall (λ s, tameName s = true) l → tame (render abs l) = true.
Proof.
  intros Hne Hl. assert (Hpl : Forall (λ s, NodePath.plain s = true) l).
  { eapply Forall_impl; [exact Hl|]. intros s. apply tameName_plain. }
  apply tame_intro; [by apply segs_render|].
  unfold render. rewrite has_backslash_app, has_backslash_join.
  assert (Hb : existsb has_backslash l = false).
  { clear Hne Hpl. induction Hl as [|s l Hs _ IH]; [done|]. simpl. rewrite IH.
    unfold tameName in Hs. apply andb_true_iff in Hs as [_ Hs].
    apply negb_true_iff in Hs. now rewrite Hs. }
  rewrite Hb. destruct abs; done.
Qed.

Lemma tame_segs_names (p : string) :
  tame p = true → Forall (λ s, tameName s = true) (segs p).
Proof.
  intros [Hnd Hb]%tame_inv. pose proof (segs_plain p Hnd) as Hpl.
  pose proof (has_backslash_segs p Hb) as Hbs.
  induction Hpl as [|s l Hs _ IH]; [done|]. simpl in Hbs.
  apply orb_false_iff in Hbs as [H1 H2]. constructor; [|by apply IH].
  unfold tameName. now rewrite Hs, H1.
Qed.

(** [path.join] of a tame path and a name, as a rendered path. *)
Lemma join2_child (d n : string) :
  tame d = true → NodePath.plain n = true →
  NodePath.join2 d n
  = render (if Js.is_empty d then false else NodePath.isAbsolute d) (segs d ++ [n]).
Proof.
  intros [Hd _]%tame_inv Hn. rewrite join2_unfold.
  pose proof (plain_inv _ Hn) as (Hne & _).
  rewrite (proj2 (is_empty_false n) Hne).
  destruct (Js.is_empty d) eqn:He.
  - apply is_empty_true in He. subst d. simpl.
    rewrite normalize_render.
    + rewrite segs_name by done. destruct (dirname_name n Hn) as [_ Hb].
      assert (Ha : NodePath.isAbsolute n = false).
      { unfold NodePath.isAbsolute. destruct n as [|c n]; [done|].
        rewrite startsWith_slash_cons. apply plain_inv in Hn as (_ & Hs & _).
        now apply has_slash_cons in Hs as [-> _]. }
      now rewrite Ha.
    + by apply no_dotdot_name.
    + rewrite segs_name; done.
    + destruct (Js.endsWith n "/") eqn:Hends; [|done].
      apply endsWith_slash_last in Hends.
      apply plain_inv in Hn as (? & Hs & _).
      rewrite split_slash_noslash in Hends by done. simpl in Hends. congruence.
  - rewrite normalize_render.
    + rewrite segs_app, (segs_name n) by done. f_equal.
      unfold NodePath.isAbsolute. destruct d as [|c d]; [done|].
      rewrite str_app_cons. now rewrite !startsWith_slash_cons.
    + rewrite no_dotdot_app, Hd. now rewrite no_dotdot_name.
    + rewrite segs_app, (segs_name n) by done. by destruct (segs d).
    + destruct (Js.endsWith (d +:+ "/" +:+ n) "/") eqn:Hends; [|done].
      apply endsWith_slash_last in Hends.
      apply plain_inv in Hn as (? & Hs & _).
      rewrite split_slash_app, (split_slash_noslash n), last_snoc in Hends by done.
      congruence.
Qed.

(** ** The last name of a joined path, whatever comes before it *)

Lemma norm_step_plain (b : bool) (stack : list string) (n : string) :
  NodePath.plain n = true → NodePath.norm_step b stack n = n :: stack.
Proof.
  intros (He & _ & Hd & Hdd)%plain_inv. unfold NodePath.norm_step.
  rewrite (proj2 (is_empty_false n) He), (proj2 (str_eqb_false n ".") Hd),
    (proj2 (str_eqb_false n "..") Hdd). done.
Qed.

Lemma norm_stack_child (b : bool) (d n : string) :
  NodePath.plain n = true →
  NodePath.norm_stack b (d +:+ "/" +:+ n) = n :: NodePath.norm_stack b d.
Proof.
  intros Hn. unfold NodePath.norm_stack.
  pose proof (plain_inv _ Hn) as (_ & Hs & _).
  rewrite split_slash_app, (split_slash_noslash n), fold_left_app by done.
  simpl. now apply norm_step_plain.
Qed.

Lemma basename_prefixed (pre q n : string) :
  NodePath.plain n = true → (pre = "" ∨ pre = "/") →
  (q = n ∨ ∃ q', q = q' +:+ "/" +:+ n) →
  NodePath.basename (pre +:+ q) = n ∧ pre +:+ q ≠ "" ∧ pre +:+ q ≠ "/".
Proof.
  intros Hn Hpre Hq. pose proof (plain_inv _ Hn) as (Hne & _).
  assert (Hform : pre +:+ q = n ∨ ∃ d, pre +:+ q = d +:+ "/" +:+ n).
  { destruct Hpre as [-> | ->], Hq as [-> | [q' ->]].
    - left. apply str_app_nil_l.
    - right. exists q'. apply str_app_nil_l.
    - right. exists "". reflexivity.
    - right. exists ("/" +:+ q'). now rewrite str_app_assoc. }
  destruct Hform as [-> | [d ->]].
  - destruct (dirname_name n Hn) as [_ Hb]. split; [done|]. split; [done|].
    intros ->. done.
  - rewrite basename_child by done. split; [done|].
    split; [destruct d; done|].
    destruct d as [|a [|b d]]; [|done..].
    intros Hd. injection Hd as Hd. destruct n; done.
Qed.

(** [path.join(d, n)] ends in the name [n]: its base name is [n]. *)
Lemma basename_join2_name (d n : string) :
  NodePath.plain n = true →
  NodePath.basename (NodePath.join2 d n) = n
  ∧ NodePath.join2 d n ≠ "" ∧ NodePath.join2 d n ≠ "/".
Proof.
  intros Hn. pose proof (plain_inv _ Hn) as (Hne & Hs & _).
  rewrite join2_unfold. rewrite (proj2 (is_empty_false n) Hne).
  assert (Hnorm : ∀ s st, s ≠ "" → Js.endsWith s "/" = false →
            NodePath.norm_stack (negb (NodePath.isAbsolute s)) s = n :: st →
            NodePath.basename (NodePath.normalize s) = n
            ∧ NodePath.normalize s ≠ "" ∧ NodePath.normalize s ≠ "/").
  { intros s st Hs0 Hends Hst. unfold NodePath.normalize.
    rewrite (proj2 (is_empty_false s) Hs0), Hends.
    unfold NodePath.normalizeString. rewrite Hst.
    change (rev (n :: st)) with (rev st ++ [n]).
    assert (Hq : Js.join "/" (rev st ++ [n]) = n
                 ∨ ∃ q', Js.join "/" (rev st ++ [n]) = q' +:+ "/" +:+ n).
    { destruct (rev st) as [|x l] eqn:Hr; [by left|].
      right. eexists. apply join_snoc. done. }
    assert (Hqne : Js.is_empty (Js.join "/" (rev st ++ [n])) = false).
    { apply is_empty_false. destruct Hq as [-> | [q' ->]]; [done|].
      destruct q'; done. }
    rewrite Hqne.
    destruct (NodePath.isAbsolute s).
    - apply (basename_prefixed "/"); auto.
    - rewrite <- (str_app_nil_l (Js.join _ _)). apply (basename_prefixed ""); auto. }
  destruct (Js.is_empty d) eqn:He.
  - apply (Hnorm n []); [done| |].
    + destruct (Js.endsWith n "/") eqn:Hends; [|done].
      apply endsWith_slash_last in Hends.
      rewrite split_slash_noslash in Hends by done. simpl in Hends. congruence.
    + unfold NodePath.norm_stack. rewrite split_slash_noslash by done. simpl.
      now apply norm_step_plain.
  - apply (Hnorm _ (NodePath.norm_stack
                      (negb (NodePath.isAbsolute (d +:+ "/" +:+ n))) d)).
    + destruct d; done.
    + destruct (Js.endsWith (d +:+ "/" +:+ n) "/") eqn:Hends; [|done].
      apply endsWith_slash_last in Hends.
      rewrite split_slash_app, (split_slash_noslash n), last_snoc in Hends by done.
      congruence.
    + now apply norm_stack_child.
Qed.

(* ===================================================================== *)
(** * The status of an entry and the place of its file                    *)
(* ===================================================================== *)

Lemma basename_dirname_child (d n : string) :
  NodePath.plain n = true →
  NodePath.basename (NodePath.dirname (d +:+ "/" +:+ n)) = NodePath.basename d.
Proof.
  intros Hn. rewrite dirname_child by done.
  destruct (Js.is_empty d) eqn:He.
  - apply is_empty_true in He as ->. reflexivity.
  - destruct (Js.str_eqb d "/") eqn:Hr; [|done].
    apply str_eqb_true in Hr as ->. reflexivity.
Qed.

Lemma dirname_archive_child (d afn n : string) :
  NodePath.plain afn = true → NodePath.plain n = true →
  NodePath.dirname (NodePath.join2 d afn +:+ "/" +:+ n) = NodePath.join2 d afn.
Proof.
  intros Hafn Hn. destruct (basename_join2_name d afn Hafn) as (_ & Hne & Hr).
  rewrite dirname_child by done.
  rewrite (proj2 (is_empty_false _) Hne), (proj2 (str_eqb_false _ "/") Hr). done.
Qed.

Section Positional.
Context {D R : Type} `{FsPromises D} `{WebDAVClient (option R)} `{Locale}.

Lemma getThemeVideos_elem (themeId : Z) (w : World D R) theme allVideos v :
  ThemeModel.findById themeId w = Some theme →
  ThemeService.getThemeVideos themeId w = Ok allVideos →
  v ∈ allVideos ↔
  ∃ rp, rp ∈ resourcePaths theme
        ∧ (v ∈ mainEntries w rp
           ∨ v ∈ archiveEntries (ThemeService.effectiveArchiveFolderName theme) w rp).
Proof.
  intros Hth Hv. rewrite getThemeVideos_spec, Hth in Hv. injection Hv as <-.
  rewrite list_elem_of_bind. setoid_rewrite elem_of_app.
  split; intros (rp & ? & ?); exists rp; tauto.
Qed.

End Positional.

(** C1. For a theme that exists, an entry the resolver returns has
    [isPublished = true] exactly when the listing of the archive folder
    [join(folderPath, archiveFolderName)] of one of the theme's resource
    paths produced it ([archiveFolderName] being ["published"] when the
    theme sets none), and [isPublished = false] exactly when the listing
    of a resource path's own folder produced it; nothing else is looked
    at.  For an entry with a plain file name, [isPublished] equals
    [basename(dirname(fullPath)) == archiveFolderName] when the archive
    folder name is one plain segment and no resource path's own folder
    has the archive folder's name. *)
Theorem isPublished_follows_the_listing
    {D R : Type} `{FsPromises D} `{WebDAVClient (option R)} `{Locale}
    (themeId : Z) (w : World D R) (theme : Theme)
    (allVideos : list VideoEntry) (v : VideoEntry) :
  ThemeModel.findById themeId w = Some theme →
  ThemeService.getThemeVideos themeId w = Ok allVideos →
  v ∈ allVideos →
  let afn := ThemeService.effectiveArchiveFolderName theme in
  (archiveFolderName theme = None → afn = "published")
  ∧ (isPublished v = true ↔
     ∃ rp, rp ∈ resourcePaths theme ∧ v ∈ archiveEntries afn w rp)
  ∧ (isPublished v = false ↔
     ∃ rp, rp ∈ resourcePaths theme ∧ v ∈ mainEntries w rp)
  ∧ (NodePath.plain afn = true →
     NodePath.plain (name (info v)) = true →
     (∀ rp, rp ∈ resourcePaths theme →
            NodePath.basename (rp_folderPath rp) ≠ afn) →
     isPublished v
     = Js.str_eqb (NodePath.basename (NodePath.dirname (fullPath v))) afn).
Proof.
  intros Hth Hall Hv afn.
  apply (getThemeVideos_elem themeId w theme allVideos v Hth Hall) in Hv
    as (rp & Hrp & Hsrc).
  fold afn in Hsrc.
  split; [|split; [|split]].
  - intros Hnone. unfold afn, ThemeService.effectiveArchiveFolderName.
    now rewrite Hnone.
  - split.
    + intros Hp. destruct Hsrc as [Hm | Ha]; [|eauto].
      apply mainEntries_unpublished in Hm as (Hm & _). congruence.
    + intros (rp' & _ & Ha). now apply archiveEntries_published in Ha as (Ha & _).
  - split.
    + intros Hp. destruct Hsrc as [Hm | Ha]; [eauto|].
      apply archiveEntries_published in Ha as (Ha & _). congruence.
    + intros (rp' & _ & Hm). now apply mainEntries_unpublished in Hm as (Hm & _).
  - intros Hafn Hn Hroots. destruct Hsrc as [Hm | Ha].
    + apply mainEntries_unpublished in Hm as (-> & _ & _ & ->).
      rewrite basename_dirname_child by done.
      symmetry. apply str_eqb_false. now apply Hroots.
    + apply archiveEntries_published in Ha as (-> & _ & _ & ->).
      rewrite dirname_archive_child by done.
      destruct (basename_join2_name (rp_folderPath rp) afn Hafn) as (-> & _).
      symmetry. now apply str_eqb_true.
Qed.

(* ===================================================================== *)
(** * What a listing holds                                                *)
(* ===================================================================== *)

Lemma elem_of_List_filter {A} (f : A → bool) (l : list A) (x : A) :
  x ∈ List.filter f l ↔ x ∈ l ∧ f x = true.
Proof. rewrite !list_elem_of_In. apply filter_In. Qed.

Lemma elem_of_sort_insert {A} (cmp : A → A → Z) (x y : A) (l : list A) :
  y ∈ BaseResourceLibrary.sort_insert cmp x l ↔ y = x ∨ y ∈ l.
Proof.
  induction l as [|z l IH]; simpl.
  - rewrite list_elem_of_singleton.
    split; [by left|intros [?|Hin]; [done|inversion Hin]].
  - destruct (cmp x z <=? 0)%Z.
    + rewrite elem_of_cons. reflexivity.
    + rewrite !elem_of_cons, IH. tauto.
Qed.

Lemma elem_of_array_sort {A} (cmp : A → A → Z) (l : list A) (y : A) :
  y ∈ BaseResourceLibrary.array_sort cmp l ↔ y ∈ l.
Proof.
  unfold BaseResourceLibrary.array_sort. induction l as [|x l IH]; simpl; [done|].
  rewrite elem_of_sort_insert, elem_of_cons, IH. reflexivity.
Qed.

(** Sorting a listing neither drops nor adds an entry. *)
Lemma elem_of_sortResources `{Locale} (l : list ResourceInfo) (r : ResourceInfo) :
  r ∈ BaseResourceLibrary.sortResources l ↔ r ∈ l.
Proof.
  unfold BaseResourceLibrary.sortResources.
  rewrite elem_of_app, !elem_of_List_filter, elem_of_array_sort.
  destruct (BaseResourceLibrary.is_folder r); simpl; intuition congruence.
Qed.

Section LocalListing.
Context {D : Type} `{FsPromises D} `{Locale}.
Variable this : LocalResourceConfig.

Lemma local_list_loop_elem (dirPath : string) (items : list Dirent) (d : D)
    (r : ResourceInfo) :
  r ∈ LocalResourceLibrary.list_loop this dirPath items d ↔
  ∃ item, item ∈ items ∧ Js.startsWith (d_name item) "." = false
          ∧ LocalResourceLibrary.list_entry this dirPath item d = Ok (Some r).
Proof.
  induction items as [|item items IH]; cbn [LocalResourceLibrary.list_loop].
  - split; [intros Hin; inversion Hin|intros (item & Hin & _); inversion Hin].
  - rewrite elem_of_app, IH. split.
    + intros [Hhere | (item' & Hin & Hrest)].
      * exists item. split; [apply list_elem_of_here|].
        destruct (Js.startsWith (d_name item) "."); [inversion Hhere|].
        split; [done|].
        destruct (LocalResourceLibrary.list_entry this dirPath item d)
          as [[r'|]|e]; simpl in Hhere; try (inversion Hhere; fail).
        apply list_elem_of_singleton in Hhere as ->. done.
      * exists item'. split; [now apply list_elem_of_further|done].
    + intros (item' & Hin & Hdot & Hentry).
      apply elem_of_cons in Hin as [-> | Hin].
      * left. rewrite Hdot, Hentry. simpl. apply list_elem_of_here.
      * right. eauto.
Qed.

(** The entries of a listing: one for each directory entry that is not
    hidden and that [list] keeps. *)
Lemma local_list_elem (dirPath : string) (d : D) (r : ResourceInfo) :
  (∃ l, LocalResourceLibrary.list this dirPath d = Ok l ∧ r ∈ l) ↔
  ∃ items item,
    fs_readdir (NodePath.join2 (l_basePath this) dirPath) d = Ok items
    ∧ item ∈ items ∧ Js.startsWith (d_name item) "." = false
    ∧ LocalResourceLibrary.list_entry this dirPath item d = Ok (Some r).
Proof.
  unfold LocalResourceLibrary.list. unfold_async.
  destruct (fs_readdir _ d) as [items|e]; simpl.
  - split.
    + intros (l & [= <-] & Hin).
      apply elem_of_sortResources, local_list_loop_elem in Hin
        as (item & Hin & Hrest).
      exists items, item. done.
    + intros (items' & item & [= <-] & Hrest). eexists. split; [done|].
      apply elem_of_sortResources, local_list_loop_elem. eauto.
  - split.
    + intros (l & [= <-] & Hin). inversion Hin.
    + intros (items' & item & [=] & _).
Qed.

(** [list] looks at the disk, for the entry of a file, through
    [fs.stat] only. *)
Lemma local_list_entry_ext (dirPath : string) (item : Dirent) (d d' : D) :
  fs_stat (NodePath.join2 (l_basePath this) (NodePath.join2 dirPath (d_name item))) d'
  = fs_stat (NodePath.join2 (l_basePath this) (NodePath.join2 dirPath (d_name item))) d →
  LocalResourceLibrary.list_entry this dirPath item d'
  = LocalResourceLibrary.list_entry this dirPath item d.
Proof.
  intros Hs. unfold LocalResourceLibrary.list_entry. now rewrite Hs.
Qed.

(** The entry of a video comes from a directory entry that is not a
    directory and whose information [fs.stat] gave. *)
Lemma local_list_entry_video (dirPath : string) (item : Dirent) (d : D)
    (r : ResourceInfo) :
  LocalResourceLibrary.list_entry this dirPath item d = Ok (Some r) →
  type r = ResourceType.video →
  d_isDirectory item = false ∧ name r = d_name item
  ∧ ∃ stats,
      fs_stat (NodePath.join2 (l_basePath this)
                 (NodePath.join2 dirPath (d_name item))) d = Ok stats.
Proof.
  unfold LocalResourceLibrary.list_entry. unfold_async.
  destruct (d_isDirectory item).
  - intros [= <-]. done.
  - destruct (fs_stat _ d) as [stats|e]; simpl; [|done].
    intros Hr Hty. split; [done|].
    repeat match type of Hr with
           | (if ?c then _ else _) = _ => destruct c
           | (match ?c with _ => _ end) = _ => destruct c
           end; try discriminate; injection Hr as <-; eauto.
Qed.

End LocalListing.

Section Entries.
Context {D R : Type} `{FsPromises D} `{WebDAVClient (option R)} `{Locale}.

Lemma mainEntries_elem (w : World D R) (rp : ThemeResourcePath) (v : VideoEntry) :
  v ∈ mainEntries w rp ↔
  ∃ library l r,
    ResourceService.getLibraryInstance (rp_libraryId rp) w = Ok library
    ∧ IResourceLibrary.list library (rp_folderPath rp) w = Ok l
    ∧ r ∈ l ∧ type r = ResourceType.video
    ∧ v = ThemeService.withInfo rp (rp_folderPath rp) false r.
Proof.
  unfold mainEntries, ResourceService.browseLibrary. unfold_async.
  destruct (ResourceService.getLibraryInstance _ w) as [library|e]; simpl.
  - destruct (IResourceLibrary.list library (rp_folderPath rp) w) as [l|e] eqn:Hl;
      simpl.
    + rewrite list_elem_of_fmap. split.
      * intros (r & -> & Hin).
        apply elem_of_List_filter in Hin as [Hin Hv].
        apply elem_of_List_filter in Hin as [Hin _].
        apply bool_decide_eq_true in Hv. exists library, l, r. done.
      * intros (library' & l' & r & [= <-] & Hl' & Hin & Hty & ->).
        rewrite Hl in Hl'. injection Hl' as <-.
        exists r. split; [done|].
        apply elem_of_List_filter. split; [|now apply bool_decide_eq_true].
        apply elem_of_List_filter. split; [done|now apply bool_decide_eq_true].
    + split; [intros Hin; inversion Hin|].
      intros (? & ? & ? & [= <-] & Hl' & _). congruence.
  - split; [intros Hin; inversion Hin|intros (? & ? & ? & [=] & _)].
Qed.

End Entries.

(* ===================================================================== *)
(** * The paths of a move in and out of the archive folder                *)
(* ===================================================================== *)

Lemma last_split_child (a c : string) :
  last (Js.split_slash (a +:+ "/" +:+ c)) = last (Js.split_slash c).
Proof.
  rewrite split_slash_app. pose proof (split_slash_not_nil c) as Hne.
  destruct (Js.split_slash c) as [|x l] eqn:Hs; [done|].
  rewrite last_app. destruct (last (x :: l)) eqn:Hl; [done|].
  by apply last_None in Hl.
Qed.

Lemma endsWith_slash_child (a c : string) :
  c ≠ "" → Js.endsWith (a +:+ "/" +:+ c) "/" = Js.endsWith c "/".
Proof.
  intros Hc.
  assert (Hac : a +:+ "/" +:+ c ≠ "") by (destruct a; done).
  destruct (Js.endsWith c "/") eqn:Hec.
  - apply last_slash_endsWith; [done|]. rewrite last_split_child.
    now apply endsWith_slash_last.
  - destruct (Js.endsWith (a +:+ "/" +:+ c) "/") eqn:Hea; [|done].
    apply endsWith_slash_last in Hea. rewrite last_split_child in Hea.
    apply last_slash_endsWith in Hea; [congruence|done].
Qed.

Lemma isAbsolute_child (a c : string) :
  a ≠ "" → NodePath.isAbsolute (a +:+ "/" +:+ c) = NodePath.isAbsolute a.
Proof.
  intros Ha. destruct a as [|x a]; [done|]. unfold NodePath.isAbsolute.
  rewrite str_app_cons, !startsWith_slash_cons. done.
Qed.

(** [path.join(a, c)] written out, for paths without [..]. *)
Lemma join2_render (a c : string) :
  tame a = true → tame c = true → segs c ≠ [] → Js.endsWith c "/" = false →
  NodePath.join2 a c
  = render (if Js.is_empty a then NodePath.isAbsolute c else NodePath.isAbsolute a)
      (segs a ++ segs c).
Proof.
  intros [Ha _]%tame_inv [Hc _]%tame_inv Hsc Hec.
  assert (Hcne : c ≠ "") by (intros ->; now rewrite segs_empty in Hsc).
  rewrite join2_unfold, (proj2 (is_empty_false c) Hcne).
  destruct (Js.is_empty a) eqn:He.
  - apply is_empty_true in He as ->. rewrite segs_empty. simpl.
    now apply normalize_render.
  - apply is_empty_false in He.
    rewrite normalize_render.
    + now rewrite isAbsolute_child, segs_app.
    + now rewrite no_dotdot_app, Ha, Hc.
    + rewrite segs_app. intros [_ ?]%app_eq_nil. done.
    + now rewrite endsWith_slash_child.
Qed.

Lemma endsWith_render_last (abs : bool) (l : list string) (n : string) :
  Js.endsWith (render abs (l ++ [n])) n = true.
Proof.
  unfold render. destruct l as [|x l].
  - change (Js.join "/" ([] ++ [n])) with n. apply endsWith_app.
  - rewrite join_snoc by done. rewrite <- !str_app_assoc. apply endsWith_app.
Qed.

(** The paths [archiveVideo] and [unarchiveVideo] work with, for a video
    [folderPath/name]. *)
Lemma archive_paths (folderPath name archiveFolderName : string) :
  tame folderPath = true → tameName name = true →
  tameName archiveFolderName = true →
  let videoPath := folderPath +:+ "/" +:+ name in
  let archivePath :=
    NodePath.join2 (NodePath.dirname videoPath) archiveFolderName in
  let targetPath := archiveTarget archiveFolderName videoPath in
  (tame videoPath = true ∧ segs videoPath = segs folderPath ++ [name])
  ∧ (tame archivePath = true
     ∧ segs archivePath = segs folderPath ++ [archiveFolderName])
  ∧ (tame targetPath = true
     ∧ segs targetPath = segs folderPath ++ [archiveFolderName; name]
     ∧ Js.endsWith targetPath "/" = false)
  ∧ NodePath.dirname targetPath = archivePath
  ∧ NodePath.basename targetPath = name
  ∧ Js.endsWith archivePath archiveFolderName = true
  ∧ (tame (unarchiveTarget targetPath) = true
     ∧ segs (unarchiveTarget targetPath) = segs folderPath ++ [name]
     ∧ Js.endsWith (unarchiveTarget targetPath) "/" = false).
Proof.
  intros Hfp Hn Hafn videoPath archivePath targetPath.
  pose proof (tameName_plain _ Hn) as Hnp.
  pose proof (tameName_plain _ Hafn) as Hafnp.
  pose proof (tame_segs_names _ Hfp) as Hnames.
  destruct (segs_dirname_child folderPath name Hnp Hfp) as [Hsd Htd].
  fold videoPath in Hsd, Htd.
  assert (Hbase : NodePath.basename videoPath = name) by now apply basename_child.
  set (abs := if Js.is_empty (NodePath.dirname videoPath) then false
              else NodePath.isAbsolute (NodePath.dirname videoPath)).
  assert (Harch : archivePath = render abs (segs folderPath ++ [archiveFolderName])).
  { unfold archivePath. rewrite join2_child by done. now rewrite Hsd. }
  assert (Hplain1 : Forall (λ s, NodePath.plain s = true)
                      (segs folderPath ++ [archiveFolderName])).
  { apply Forall_app. split.
    - eapply Forall_impl; [exact Hnames|]. intros ?. apply tameName_plain.
    - repeat constructor. done. }
  assert (Htame1 : Forall (λ s, tameName s = true)
                     (segs folderPath ++ [archiveFolderName])).
  { apply Forall_app. split; [done|]. repeat constructor. done. }
  assert (Hne1 : segs folderPath ++ [archiveFolderName] ≠ []).
  { intros [_ ?]%app_eq_nil. done. }
  assert (Harch_tame : tame archivePath = true).
  { rewrite Harch. now apply tame_render. }
  assert (Harch_segs : segs archivePath = segs folderPath ++ [archiveFolderName]).
  { rewrite Harch. now apply segs_render. }
  assert (Htarget : targetPath
                    = render abs ((segs folderPath ++ [archiveFolderName]) ++ [name])).
  { unfold targetPath, archiveTarget. fold videoPath. rewrite Hbase.
    fold archivePath. rewrite join2_child by done. rewrite Harch_segs.
    f_equal. rewrite Harch.
    destruct (render_not_root abs _ Hne1 Hplain1) as [Hr _].
    rewrite (proj2 (is_empty_false _) Hr).
    now apply isAbsolute_render. }
  assert (Hplain2 : Forall (λ s, NodePath.plain s = true)
                      ((segs folderPath ++ [archiveFolderName]) ++ [name])).
  { apply Forall_app. split; [done|]. repeat constructor. done. }
  assert (Htame2 : Forall (λ s, tameName s = true)
                      ((segs folderPath ++ [archiveFolderName]) ++ [name])).
  { apply Forall_app. split; [done|]. repeat constructor. done. }
  assert (Hne2 : (segs folderPath ++ [archiveFolderName]) ++ [name] ≠ []).
  { intros [_ ?]%app_eq_nil. done. }
  destruct (dirname_render abs _ name Hplain1 Hnp) as [Hb2 Hd2].
  rewrite <- Htarget in Hb2, Hd2.
  assert (Hdir : NodePath.dirname targetPath = archivePath).
  { rewrite Hd2, Harch. destruct (segs folderPath ++ [archiveFolderName]); done. }
  assert (Hplain0 : Forall (λ s, NodePath.plain s = true) (segs folderPath)).
  { eapply Forall_impl; [exact Hnames|]. intros ?. apply tameName_plain. }
  destruct (dirname_render abs _ archiveFolderName Hplain0 Hafnp) as [_ Hd1].
  rewrite <- Harch in Hd1.
  assert (Hparent : tame (NodePath.dirname archivePath) = true
                    ∧ segs (NodePath.dirname archivePath) = segs folderPath).
  { rewrite Hd1. destruct (segs folderPath) as [|x l] eqn:Hs.
    - destruct (segs_rootlike_dir abs). done.
    - split; [now apply tame_render|now apply segs_render]. }
  destruct Hparent as [Hpt Hps].
  assert (Hrestored : unarchiveTarget targetPath
                      = NodePath.join2 (NodePath.dirname archivePath) name).
  { unfold unarchiveTarget. now rewrite Hdir, Hb2. }
  split; [split; [now apply tame_child|]|].
  { unfold videoPath. now rewrite segs_app, (segs_name name). }
  split; [done|].
  split.
  { rewrite Htarget. split; [now apply tame_render|].
    split; [|now apply endsWith_slash_render].
    rewrite (proj1 (segs_render abs _ Hne2 Hplain2)). now rewrite <- app_assoc. }
  split; [done|]. split; [done|].
  split; [rewrite Harch; apply endsWith_render_last|].
  rewrite Hrestored.
  destruct (segs_join2 _ name Hpt (tame_name _ Hn)) as [Hs Ht].
  split; [done|]. split; [now rewrite Hs, Hps, (segs_name name)|].
  rewrite join2_child by done.
  apply endsWith_slash_render.
  - intros [_ ?]%app_eq_nil. done.
  - apply Forall_app. split; [now rewrite Hps|]. repeat constructor. done.
Qed.

(** ** Locations of the paths of a local library *)

Lemma lkey_tame (this : LocalResourceConfig) (p : string) :
  tame (l_basePath this) = true → tame p = true →
  lkey this p = segs (l_basePath this) ++ segs p.
Proof.
  intros Hb Hp. unfold lkey. destruct (segs_join2 _ _ Hb Hp) as [Hs Ht].
  apply tame_inv in Ht as [Ht _]. now rewrite key_of_tame.
Qed.

Lemma key_of_render (abs : bool) (l : list string) :
  Forall (λ s, NodePath.plain s = true) l →
  MemFs.key_of (render abs l) = l.
Proof.
  intros Hl. destruct l as [|x l]; [by destruct abs|].
  destruct (segs_render abs (x :: l)) as [Hs Hd]; [done..|].
  now rewrite key_of_tame.
Qed.

(** The folder [move] makes sure of before it renames. *)
Lemma lkey_dirname (this : LocalResourceConfig) (p : string)
    (l : list string) (n : string) :
  tame (l_basePath this) = true → tame p = true →
  segs p = l ++ [n] → Js.endsWith p "/" = false →
  MemFs.key_of (NodePath.dirname (NodePath.join2 (l_basePath this) p))
  = segs (l_basePath this) ++ l.
Proof.
  intros Hb Hp Hs He.
  pose proof (tame_segs_names _ Hb) as Hnb.
  pose proof (tame_segs_names _ Hp) as Hnp. rewrite Hs in Hnp.
  apply Forall_app in Hnp as [Hnl Hnn]. apply Forall_cons in Hnn as [Hnn _].
  assert (Hplain : Forall (λ s, NodePath.plain s = true) (segs (l_basePath this) ++ l)).
  { apply Forall_app. split; (eapply Forall_impl; [eassumption|]);
      intros ?; apply tameName_plain. }
  rewrite join2_render; [|done|done| |done].
  - rewrite Hs, app_assoc.
    destruct (dirname_render
                (if Js.is_empty (l_basePath this) then NodePath.isAbsolute p
                 else NodePath.isAbsolute (l_basePath this))
                _ n Hplain (tameName_plain _ Hnn)) as [_ ->].
    destruct (segs (l_basePath this) ++ l) as [|x l'] eqn:Hl.
    + by destruct (if Js.is_empty _ then _ else _).
    + now apply key_of_render.
  - rewrite Hs. intros [_ ?]%app_eq_nil. done.
Qed.

(* ===================================================================== *)
(** * The in-memory file system                                           *)
(* ===================================================================== *)

Section MemFsFacts.
Import MemFs.

Lemma existsb_ext_in {A} (f g : A → bool) (l : list A) :
  (∀ x, x ∈ l → f x = g x) → existsb f l = existsb g l.
Proof.
  induction l as [|x l IH]; intros Hfg; simpl; [done|].
  rewrite (Hfg x) by apply list_elem_of_here.
  rewrite IH; [done|]. intros y Hy. apply Hfg. now apply list_elem_of_further.
Qed.

Lemma existsb_false_elem {A} (f : A → bool) (l : list A) :
  existsb f l = false ↔ ∀ x, x ∈ l → f x = false.
Proof.
  induction l as [|x l IH]; simpl.
  - split; [intros _ x Hx; inversion Hx|done].
  - rewrite orb_false_iff, IH. split.
    + intros [Hx Hl] y [->|Hy]%elem_of_cons; auto.
    + intros Hall. split; [apply Hall, list_elem_of_here|].
      intros y Hy. apply Hall. now apply list_elem_of_further.
Qed.

Lemma prefixes_spec (k k' : list string) :
  k' ∈ prefixes k ↔ k' ≠ [] ∧ ∃ r, k = k' ++ r.
Proof.
  unfold prefixes. rewrite list_elem_of_fmap. split.
  - intros (i & -> & Hi). apply elem_of_seq in Hi. split.
    + destruct k; simpl in *; [lia|]. destruct i; [lia|]. done.
    + exists (drop i k). now rewrite take_drop.
  - intros (Hne & r & ->). exists (length k'). split.
    + now rewrite take_app_length.
    + apply elem_of_seq. rewrite length_app. destruct k'; [done|]. simpl. lia.
Qed.

Lemma parent_snoc (k : list string) (n : string) : parent (k ++ [n]) = k.
Proof.
  unfold parent. rewrite length_app. simpl.
  replace (length k + 1 - 1)%nat with (length k) by lia.
  apply take_app_length.
Qed.

(** The folders on the way to [k ++ [n]] are those on the way to [k],
    and [k]. *)
Lemma prefixes_parent_snoc (k pre : list string) (n : string) :
  pre ∈ prefixes (parent (k ++ [n])) ↔ pre ∈ prefixes (parent k) ∨ (pre = k ∧ k ≠ []).
Proof.
  rewrite parent_snoc, !prefixes_spec. split.
  - intros (Hne & r & ->). destruct r as [|x r] using rev_ind.
    + right. now rewrite app_nil_r.
    + left. split; [done|]. exists r. now rewrite app_assoc, parent_snoc.
  - intros [(Hne & r & Hp) | [-> Hne]].
    + split; [done|]. destruct k as [|x k] using rev_ind.
      * destruct pre, r; done.
      * rewrite parent_snoc in Hp. subst k. exists (r ++ [x]).
        now rewrite app_assoc.
    + split; [done|]. exists []. now rewrite app_nil_r.
Qed.

Lemma lookup_nonempty (t : Tree) (k : list string) :
  k ≠ [] → lookup t k = t !! k.
Proof. by destruct k. Qed.

Lemma blocked_false (t : Tree) (k : list string) :
  blocked t k = false ↔
  ∀ pre, pre ∈ prefixes (parent k) → is_file (t !! pre) = false.
Proof.
  unfold blocked. rewrite existsb_false_elem. split; intros Hall pre Hpre.
  - rewrite <- lookup_nonempty; [auto|]. now apply prefixes_spec in Hpre.
  - rewrite lookup_nonempty; [auto|]. now apply prefixes_spec in Hpre.
Qed.

Lemma resolve_Ok (t : Tree) (k : list string) (n : Node) :
  resolve t k = Ok n ↔ blocked t k = false ∧ lookup t k = Some n.
Proof.
  unfold resolve. destruct (blocked t k).
  - split; [done|]. intros [Hb _]. done.
  - destruct (lookup t k) as [n'|]; split.
    + intros [= ->]. done.
    + intros [_ [= ->]]. done.
    + done.
    + intros [_ Hn]. done.
Qed.

Lemma resolve_ENOENT (t : Tree) (k : list string) (e : JsError) :
  resolve t k = Err e → code e = Some "ENOENT" →
  blocked t k = false ∧ lookup t k = None.
Proof.
  unfold resolve. destruct (blocked t k); [intros [= <-]; done|].
  destruct (lookup t k); [done|]. done.
Qed.

(** What is in a folder that can be reached can be reached. *)
Lemma resolve_child (t : Tree) (k : list string) (n : string) (node : Node) :
  resolve t k = Ok NDir → t !! (k ++ [n]) = Some node →
  resolve t (k ++ [n]) = Ok node.
Proof.
  intros [Hb Hl]%resolve_Ok Hn. apply resolve_Ok. split.
  - apply blocked_false. intros pre [Hpre | [-> Hne]]%prefixes_parent_snoc.
    + revert pre Hpre. now apply blocked_false.
    + rewrite lookup_nonempty in Hl by done. now rewrite Hl.
  - rewrite lookup_nonempty; [done|]. by destruct k.
Qed.

(** [resolve] looks at the path's own entries only. *)
Lemma resolve_ext (t t' : Tree) (k : list string) :
  (∀ pre r, k = pre ++ r → t' !! pre = t !! pre) →
  resolve t' k = resolve t k.
Proof.
  intros Hsame. unfold resolve.
  assert (Hb : blocked t' k = blocked t k).
  { unfold blocked. apply existsb_ext_in. intros pre Hpre.
    apply prefixes_spec in Hpre as (Hne & r & Hp).
    rewrite !lookup_nonempty by done.
    destruct k as [|x k] using rev_ind; [destruct pre, r; done|].
    rewrite parent_snoc in Hp. subst k.
    now rewrite (Hsame pre (r ++ [x])) by now rewrite app_assoc. }
  assert (Hl : lookup t' k = lookup t k).
  { destruct k; [done|]. simpl. apply (Hsame _ []). now rewrite app_nil_r. }
  now rewrite Hb, Hl.
Qed.

Lemma lookup_mkdirs (t : Tree) (k k' : list string) :
  mkdirs t k !! k' = if decide (k' ∈ prefixes k) then Some NDir else t !! k'.
Proof.
  unfold mkdirs. induction (prefixes k) as [|pre l IH]; simpl; [done|].
  destruct (decide (pre = k')) as [->|Hne].
  - rewrite lookup_insert_eq. rewrite decide_True; [done|]. apply list_elem_of_here.
  - rewrite lookup_insert_ne by done. rewrite IH.
    destruct (decide (k' ∈ l)).
    + rewrite decide_True; [done|]. now apply list_elem_of_further.
    + rewrite decide_False; [done|]. intros [?|?]%elem_of_cons; congruence.
Qed.

(** [mkdir -p] makes folders, no file, and leaves the files alone. *)
Lemma mkdirs_file (t : Tree) (k k' : list string) (size mtime : Z) :
  mkdirs t k !! k' = Some (NFile size mtime) → t !! k' = Some (NFile size mtime).
Proof. rewrite lookup_mkdirs. by destruct (decide _). Qed.

Lemma mkdir_recursive_Ok (k : list string) (t t' : Tree) :
  mkdir_recursive k t = (Ok (), t') →
  t' = mkdirs t k ∧ is_file (lookup t k) = false ∧ blocked t k = false.
Proof.
  unfold mkdir_recursive.
  destruct (is_file (lookup t k)); [done|]. destruct (blocked t k); [done|].
  intros [= <-]. done.
Qed.

Lemma children_spec (t : Tree) (k : list string) (n : string) (node : Node) :
  (n, node) ∈ children t k ↔ t !! (k ++ [n]) = Some node.
Proof.
  unfold children. rewrite list_elem_of_omap. split.
  - intros ([k0 x] & Hin & Heq). apply elem_of_map_to_list in Hin. simpl in Heq.
    destruct (rev k0) as [|n0 r] eqn:Hr; [done|].
    destruct (bool_decide (rev r = k)) eqn:Hk; [|done].
    apply bool_decide_eq_true in Hk. injection Heq as -> ->.
    apply (f_equal (@rev _)) in Hr. rewrite rev_involutive in Hr. simpl in Hr.
    now rewrite <- Hk, <- Hr.
  - intros Hl. exists (k ++ [n], node). split; [now apply elem_of_map_to_list|].
    simpl. rewrite rev_app_distr. simpl. rewrite rev_involutive.
    now rewrite bool_decide_eq_true_2.
Qed.

Lemma readdir_Ok (t : Tree) (k : list string) (items : list Dirent) :
  readdir k t = Ok items ↔
  resolve t k = Ok NDir ∧ items = map dirent_of (children t k).
Proof.
  unfold readdir. unfold_async.
  destruct (resolve t k) as [[|]|e]; simpl; split; try done.
  - intros [[=] _].
  - intros [= <-]. done.
  - intros [_ ->]. done.
  - intros [[=] _].
Qed.

Lemma readdir_elem (t : Tree) (k : list string) (items : list Dirent)
    (item : Dirent) :
  readdir k t = Ok items →
  item ∈ items ↔
  ∃ n node, t !! (k ++ [n]) = Some node ∧ item = dirent_of (n, node).
Proof.
  intros [_ ->]%readdir_Ok. rewrite list_elem_of_fmap. split.
  - intros ([n node] & -> & Hin). apply children_spec in Hin. eauto.
  - intros (n & node & Hl & ->). exists (n, node). split; [done|].
    now apply children_spec.
Qed.

End MemFsFacts.

Section MemFsMoves.
Import MemFs.

Lemma is_prefix_app (a r : list string) : is_prefix a (a ++ r) = true.
Proof. unfold is_prefix. apply bool_decide_eq_true. apply take_app_length. Qed.

Lemma is_prefix_refl (a : list string) : is_prefix a a = true.
Proof. rewrite <- (app_nil_r a) at 2. apply is_prefix_app. Qed.

Lemma is_prefix_spec (a k : list string) :
  is_prefix a k = true ↔ ∃ r, k = a ++ r.
Proof.
  split.
  - intros Hp. apply bool_decide_eq_true in Hp. exists (drop (length a) k).
    rewrite <- Hp at 1. now rewrite take_drop.
  - intros [r ->]. apply is_prefix_app.
Qed.

(** A file that a [rename] leaves behind is at or under the new place,
    or was there before and is not the one renamed. *)
Lemma rename_files (ks kt : list string) (t t' : Tree) (k : list string)
    (size mtime : Z) :
  rename ks kt t = (Ok (), t') →
  t' !! k = Some (NFile size mtime) →
  is_prefix kt k = true ∨ (t !! k = Some (NFile size mtime) ∧ k ≠ ks).
Proof.
  unfold rename. destruct (resolve t ks) as [n|e] eqn:Hr; [|done].
  apply resolve_Ok in Hr as [_ Hl].
  destruct ks as [|s ks]; [done|]. destruct kt as [|s' kt]; [done|].
  simpl in Hl.
  destruct (resolve t (parent (s' :: kt))) as [[|]|e]; try done.
  destruct n as [fsize fmtime|].
  - assert (Hres : ∀ t0, t0 = <[s' :: kt := NFile fsize fmtime]> (delete (s :: ks) t) →
                   t0 !! k = Some (NFile size mtime) →
                   is_prefix (s' :: kt) k = true
                   ∨ (t !! k = Some (NFile size mtime) ∧ k ≠ s :: ks)).
    { intros t0 -> Hk. destruct (decide (k = s' :: kt)) as [->|Hne].
      - left. apply is_prefix_refl.
      - right. rewrite lookup_insert_ne in Hk by done.
        apply lookup_delete_Some in Hk as [Hne' Hk]. done. }
    destruct (lookup t (s' :: kt)) as [[|]|]; try done;
      intros [= <-]; now apply Hres.
  - assert (Hres : ∀ t0, (t0 = t ∨ t0 = delete (s' :: kt) t) →
                   is_prefix (s :: ks) (s' :: kt) = false →
                   move_subtree (s :: ks) (s' :: kt) t0 !! k = Some (NFile size mtime) →
                   is_prefix (s' :: kt) k = true
                   ∨ (t !! k = Some (NFile size mtime) ∧ k ≠ s :: ks)).
    { intros t0 Ht0 Hnp Hk. unfold move_subtree in Hk.
      apply elem_of_list_to_map_2, list_elem_of_fmap in Hk
        as ([k0 v0] & Heq & Hin).
      apply elem_of_map_to_list in Hin. unfold rekey in Heq. simpl in Heq.
      destruct (is_prefix (s :: ks) k0) eqn:Hp.
      - left. injection Heq as -> _. apply (is_prefix_app (s' :: kt)).
      - right. injection Heq as -> ->. split.
        + destruct Ht0 as [-> | ->]; [done|].
          now apply lookup_delete_Some in Hin as [_ Hin].
        + intros ->. now rewrite is_prefix_refl in Hp. }
    destruct (bool_decide (s :: ks = s' :: kt)) eqn:Heq.
    + intros [= <-] Hk. right. split; [done|]. intros ->. congruence.
    + destruct (is_prefix (s :: ks) (s' :: kt)) eqn:Hp; [done|].
      destruct (lookup t (s' :: kt)) as [[|]|]; try done.
      * destruct (children t (s' :: kt)); [|done].
        intros [= <-]. apply Hres; auto.
      * intros [= <-]. apply Hres; auto.
Qed.

(** Renaming a file puts it at the new place and nothing else. *)
Lemma rename_file (ks kt : list string) (t t' : Tree) (size mtime : Z) :
  rename ks kt t = (Ok (), t') →
  t !! ks = Some (NFile size mtime) →
  (ks ≠ [] → t' = <[kt := NFile size mtime]> (delete ks t))
  ∧ ks ≠ [] ∧ kt ≠ [] ∧ resolve t (parent kt) = Ok NDir.
Proof.
  unfold rename. destruct (resolve t ks) as [n|e] eqn:Hr; [|done].
  apply resolve_Ok in Hr as [_ Hl].
  destruct ks as [|s ks]; [done|]. destruct kt as [|s' kt]; [done|].
  simpl in Hl. intros Hrun Hs. rewrite Hs in Hl. injection Hl as <-.
  destruct (resolve t (parent (s' :: kt))) as [[|]|e]; try done.
  destruct (lookup t (s' :: kt)) as [[|]|]; try done;
    injection Hrun as <-; done.
Qed.

End MemFsMoves.

(* ===================================================================== *)
(** * What a successful move has done                                     *)
(* ===================================================================== *)

Section LocalMoves.
Context {D : Type} `{FsPromises D}.
Variable this : LocalResourceConfig.

(** The calls of a [move] that returns: the source can be accessed, the
    target cannot because it is not there, the folder of the target is
    made, and the source is renamed. *)
Lemma local_move_Ok (sourcePath targetPath : string) (d d' : D) :
  LocalResourceLibrary.move this sourcePath targetPath d = (Ok (), d') →
  let fullSourcePath := NodePath.join2 (l_basePath this) sourcePath in
  let fullTargetPath := NodePath.join2 (l_basePath this) targetPath in
  fs_access fullSourcePath d = Ok ()
  ∧ (∃ e, fs_access fullTargetPath d = Err e ∧ code e = Some "ENOENT")
  ∧ ∃ d1, fs_mkdir_recursive (NodePath.dirname fullTargetPath) d = (Ok (), d1)
          ∧ fs_rename fullSourcePath fullTargetPath d1 = (Ok (), d').
Proof.
  intros Hrun fs ft. revert Hrun.
  unfold LocalResourceLibrary.move. unfold_async. fold fs ft. intros Hrun.
  destruct (fs_access fs d) as [[]|e]; [|done]. split; [done|].
  destruct (fs_access ft d) as [[]|e]; [done|].
  destruct (bool_decide (code e ≠ Some "ENOENT")) eqn:Hc; [done|].
  apply bool_decide_eq_false in Hc. apply dec_stable in Hc.
  split; [eauto|].
  destruct (fs_mkdir_recursive (NodePath.dirname ft) d) as [[[]|e1] d1]; [|done].
  exists d1. split; [done|].
  destruct (fs_rename fs ft d1) as [[[]|e2] d2]; [|done].
  injection Hrun as <-. done.
Qed.

Lemma local_createFolder_Ok (folderPath : string) (d d' : D) :
  LocalResourceLibrary.createFolder this folderPath d = (Ok (), d') →
  fs_mkdir_recursive (NodePath.join2 (l_basePath this) folderPath) d = (Ok (), d').
Proof.
  unfold LocalResourceLibrary.createFolder. unfold_async.
  destruct (fs_mkdir_recursive _ d) as [[[]|e] d1]; [done|done].
Qed.

End LocalMoves.

Section LocalArchive.
Context {D R : Type} `{FsPromises D} `{WebDAVClient (option R)} `{Locale}.

Lemma getLibraryInstance_set_disk (libraryId : Z) (d : D) (w : World D R) :
  ResourceService.getLibraryInstance libraryId (set_disk d w)
  = ResourceService.getLibraryInstance libraryId w.
Proof. reflexivity. Qed.

Lemma local_ensureFolder_Ok (this : LocalResourceConfig) (archivePath : string)
    (w w' : World D R) :
  ThemeService.ensureFolder (LocalLib this) archivePath w = (Ok (), w') →
  w' = w
  ∨ ∃ d', fs_mkdir_recursive (NodePath.join2 (l_basePath this) archivePath)
            (disk w) = (Ok (), d')
          ∧ w' = set_disk d' w.
Proof.
  unfold ThemeService.ensureFolder. unfold_async. simpl.
  destruct (LocalResourceLibrary.getInfo this archivePath (disk w)).
  - intros [= <-]. now left.
  - unfold IResourceLibrary.on_disk.
    destruct (LocalResourceLibrary.createFolder this archivePath (disk w))
      as [[[]|e'] d'] eqn:Hc; [|done].
    intros [= <-]. right. exists d'. split; [|done].
    now apply local_createFolder_Ok.
Qed.

(** The calls of an [archiveVideo] that returns, on a local library. *)
Lemma local_archiveVideo_Ok (themeId libraryId : Z) (videoPath : string)
    (w w' : World D R) (theme : Theme) (this : LocalResourceConfig) :
  ThemeModel.findById themeId w = Some theme →
  ResourceService.getLibraryInstance libraryId w = Ok (LocalLib this) →
  ThemeService.archiveVideo themeId libraryId videoPath w = (Ok (), w') →
  let archiveFolderName := ThemeService.effectiveArchiveFolderName theme in
  let archivePath :=
    NodePath.join2 (NodePath.dirname videoPath) archiveFolderName in
  let full := NodePath.join2 (l_basePath this) in
  let targetPath := archiveTarget archiveFolderName videoPath in
  ∃ d0 d1,
    (d0 = disk w ∨ fs_mkdir_recursive (full archivePath) (disk w) = (Ok (), d0))
    ∧ fs_access (full videoPath) d0 = Ok ()
    ∧ (∃ e, fs_access (full targetPath) d0 = Err e ∧ code e = Some "ENOENT")
    ∧ fs_mkdir_recursive (NodePath.dirname (full targetPath)) d0 = (Ok (), d1)
    ∧ fs_rename (full videoPath) (full targetPath) d1 = (Ok (), disk w')
    ∧ w' = set_disk (disk w') w.
Proof.
  intros Hth Hlib Hrun afn archivePath full targetPath.
  unfold ThemeService.archiveVideo in Hrun. rewrite Hth in Hrun.
  unfold mbind, async_bind, read in Hrun. rewrite Hlib in Hrun.
  change (NodePath.join2
            (NodePath.join2 (NodePath.dirname videoPath)
               (ThemeService.effectiveArchiveFolderName theme))
            (NodePath.basename videoPath)) with targetPath in Hrun.
  fold afn in Hrun. fold archivePath in Hrun.
  destruct (ThemeService.ensureFolder (LocalLib this) archivePath w)
    as [[[]|e] w0] eqn:He; [|done].
  simpl in Hrun. unfold IResourceLibrary.on_disk in Hrun.
  destruct (LocalResourceLibrary.move this videoPath targetPath (disk w0))
    as [r d'] eqn:Hm.
  injection Hrun as -> <-.
  apply local_move_Ok in Hm as (Hs & Ht & d1 & Hmk & Hrn).
  apply local_ensureFolder_Ok in He.
  exists (disk w0), d1.
  split; [destruct He as [-> | (d0 & Hd0 & ->)]; [now left|now right]|].
  repeat (split; [done|]).
  destruct He as [-> | (d0 & Hd0 & ->)]; reflexivity.
Qed.

(** The calls of an [unarchiveVideo] that returns, on a local
    library. *)
Lemma local_unarchiveVideo_Ok (themeId libraryId : Z) (videoPath : string)
    (w w' : World D R) (theme : Theme) (this : LocalResourceConfig) :
  ThemeModel.findById themeId w = Some theme →
  ResourceService.getLibraryInstance libraryId w = Ok (LocalLib this) →
  ThemeService.unarchiveVideo themeId libraryId videoPath w = (Ok (), w') →
  let archiveFolderName := ThemeService.effectiveArchiveFolderName theme in
  let full := NodePath.join2 (l_basePath this) in
  let targetPath := unarchiveTarget videoPath in
  Js.endsWith (NodePath.dirname videoPath) archiveFolderName = true
  ∧ ∃ d1,
      fs_access (full videoPath) (disk w) = Ok ()
      ∧ (∃ e, fs_access (full targetPath) (disk w) = Err e
              ∧ code e = Some "ENOENT")
      ∧ fs_mkdir_recursive (NodePath.dirname (full targetPath)) (disk w)
        = (Ok (), d1)
      ∧ fs_rename (full videoPath) (full targetPath) d1 = (Ok (), disk w')
      ∧ w' = set_disk (disk w') w.
Proof.
  intros Hth Hlib Hrun afn full targetPath.
  unfold ThemeService.unarchiveVideo in Hrun. rewrite Hth in Hrun.
  unfold mbind, async_bind, read in Hrun. rewrite Hlib in Hrun.
  fold afn in Hrun.
  destruct (Js.endsWith (NodePath.dirname videoPath) afn); [|done].
  split; [done|]. simpl in Hrun.
  change (NodePath.join2 (NodePath.dirname (NodePath.dirname videoPath))
            (NodePath.basename videoPath)) with targetPath in Hrun.
  unfold IResourceLibrary.on_disk in Hrun.
  destruct (LocalResourceLibrary.move this videoPath targetPath (disk w))
    as [r d'] eqn:Hm.
  injection Hrun as -> <-.
  apply local_move_Ok in Hm as (Hs & Ht & d1 & Hmk & Hrn).
  exists d1. done.
Qed.

End LocalArchive.

(* ===================================================================== *)
(** * Archive and unarchive on the in-memory disk                         *)
(* ===================================================================== *)

Section LocalKeys.
Variable this : LocalResourceConfig.
Hypothesis base_tame : tame (l_basePath this) = true.

(** The locations of the paths of a video [folderPath/name] of a local
    library: its own, and those of its move in and out of the archive
    folder. *)
Lemma local_archive_keys (folderPath name archiveFolderName : string) :
  tame folderPath = true → tameName name = true →
  tameName archiveFolderName = true →
  let K := lkey this folderPath in
  let videoPath := folderPath +:+ "/" +:+ name in
  let archived := archiveTarget archiveFolderName videoPath in
  lkey this videoPath = K ++ [name]
  ∧ lkey this (NodePath.join2 (NodePath.dirname videoPath) archiveFolderName)
    = K ++ [archiveFolderName]
  ∧ lkey this archived = K ++ [archiveFolderName; name]
  ∧ MemFs.key_of (NodePath.dirname (NodePath.join2 (l_basePath this) archived))
    = K ++ [archiveFolderName]
  ∧ lkey this (unarchiveTarget archived) = K ++ [name]
  ∧ MemFs.key_of (NodePath.dirname
                    (NodePath.join2 (l_basePath this) (unarchiveTarget archived)))
    = K
  ∧ lkey this (NodePath.join2 folderPath name) = K ++ [name]
  ∧ lkey this (NodePath.join2 folderPath archiveFolderName)
    = K ++ [archiveFolderName].
Proof.
  intros Hfp Hn Hafn K videoPath archived.
  destruct (archive_paths folderPath name archiveFolderName Hfp Hn Hafn)
    as ((Hvt & Hvs) & (Hat & Has) & (Htt & Hts & Hte) & _ & _ & _
        & (Hrt & Hrs & Hre)).
  subst K videoPath archived. rewrite !lkey_tame by done.
  rewrite Hvs, Has, Hts, Hrs, <- !app_assoc.
  repeat split; try done.
  - rewrite (lkey_dirname this _ (segs folderPath ++ [archiveFolderName]) name)
      by (try done; now rewrite Hts, <- app_assoc).
    done.
  - now rewrite (lkey_dirname this _ (segs folderPath) name).
  - destruct (segs_join2 folderPath name Hfp (tame_name _ Hn)) as [Hs Ht].
    rewrite lkey_tame by done. now rewrite Hs, (segs_name name) by now apply tameName_plain.
  - destruct (segs_join2 folderPath archiveFolderName Hfp (tame_name _ Hafn))
      as [Hs Ht].
    rewrite lkey_tame by done.
    now rewrite Hs, (segs_name archiveFolderName) by now apply tameName_plain.
Qed.

End LocalKeys.

Section MemDisk.
Import MemFs.

Lemma mem_access_Ok (p : string) (t : Tree) :
  fs_access p t = Ok () → ∃ n, resolve t (key_of p) = Ok n.
Proof.
  simpl. unfold_async. destruct (resolve t (key_of p)); [eauto|done].
Qed.

Lemma mem_access_Err (p : string) (t : Tree) (e : JsError) :
  fs_access p t = Err e → resolve t (key_of p) = Err e.
Proof.
  simpl. unfold_async. destruct (resolve t (key_of p)); [done|].
  now intros [= ->].
Qed.

Lemma mem_stat_Ok (p : string) (t : Tree) (n : Node) :
  resolve t (key_of p) = Ok n → fs_stat p t = Ok (stats_of n).
Proof. simpl. unfold_async. now intros ->. Qed.

Lemma mem_stat_inv (p : string) (t : Tree) (stats : Stats) :
  fs_stat p t = Ok stats →
  ∃ n, resolve t (key_of p) = Ok n ∧ stats = stats_of n.
Proof.
  simpl. unfold_async. destruct (resolve t (key_of p)) as [n|]; [|done].
  intros [= <-]. eauto.
Qed.

End MemDisk.

Section MemLocalListing.
Import MemFs.
Context `{Locale}.
Variable this : LocalResourceConfig.

(** A video of a listing is a file of the folder listed. *)
Lemma mem_local_list_video (dirPath : string) (t : Tree)
    (l : list ResourceInfo) (r : ResourceInfo) :
  LocalResourceLibrary.list this dirPath t = Ok l → r ∈ l →
  type r = ResourceType.video →
  resolve t (lkey this dirPath) = Ok NDir
  ∧ Js.startsWith (name r) "." = false
  ∧ LocalResourceLibrary.list_entry this dirPath (mkDirent (name r) false) t
    = Ok (Some r)
  ∧ ∃ size mtime,
      t !! (lkey this dirPath ++ [name r]) = Some (NFile size mtime).
Proof.
  intros Hl Hin Hty.
  destruct (proj1 (local_list_elem this dirPath t r))
    as (items & item & Hrd & Hitem & Hdot & Hentry); [eauto|].
  destruct (local_list_entry_video this dirPath item t r Hentry Hty)
    as (Hdir & Hname & _).
  change (readdir (lkey this dirPath) t = Ok items) in Hrd.
  pose proof (proj1 (readdir_Ok _ _ _) Hrd) as [Hres _].
  apply (readdir_elem _ _ _ item Hrd) in Hitem as (n & node & Hnode & ->).
  simpl in Hdir, Hname, Hdot. subst n.
  destruct node as [size mtime|]; [|done].
  repeat split; try done. eauto.
Qed.

(** A file of a folder that can be read is in its listing, when [list]
    keeps it. *)
Lemma mem_local_list_file (dirPath : string) (t : Tree) (n : string)
    (size mtime : Z) (r : ResourceInfo) :
  resolve t (lkey this dirPath) = Ok NDir →
  t !! (lkey this dirPath ++ [n]) = Some (NFile size mtime) →
  Js.startsWith n "." = false →
  LocalResourceLibrary.list_entry this dirPath (mkDirent n false) t = Ok (Some r) →
  ∃ l, LocalResourceLibrary.list this dirPath t = Ok l ∧ r ∈ l.
Proof.
  intros Hres Hnode Hdot Hentry. apply local_list_elem.
  exists (map dirent_of (children t (lkey this dirPath))), (mkDirent n false).
  split; [now apply readdir_Ok|].
  split; [|done].
  apply list_elem_of_fmap. exists (n, NFile size mtime).
  split; [done|]. now apply children_spec.
Qed.

(** [list] makes the same entry of a file that is the same on two
    disks. *)
Lemma mem_local_list_entry_same (dirPath : string) (t t' : Tree) (n : string)
    (node : Node) :
  tame (l_basePath this) = true → tame dirPath = true → tameName n = true →
  resolve t (lkey this dirPath) = Ok NDir →
  resolve t' (lkey this dirPath) = Ok NDir →
  t !! (lkey this dirPath ++ [n]) = Some node →
  t' !! (lkey this dirPath ++ [n]) = Some node →
  LocalResourceLibrary.list_entry this dirPath (mkDirent n false) t'
  = LocalResourceLibrary.list_entry this dirPath (mkDirent n false) t.
Proof.
  intros Hb Hd Hn Hres Hres' Hnode Hnode'.
  apply local_list_entry_ext. simpl.
  assert (Hkey : key_of (NodePath.join2 (l_basePath this) (NodePath.join2 dirPath n))
                 = lkey this dirPath ++ [n]).
  { destruct (segs_join2 dirPath n Hd (tame_name _ Hn)) as [Hs Ht].
    change (lkey this (NodePath.join2 dirPath n) = lkey this dirPath ++ [n]).
    rewrite !lkey_tame by done.
    now rewrite Hs, (segs_name n), app_assoc by now apply tameName_plain. }
  unfold_async. rewrite Hkey.
  now rewrite (resolve_child _ _ _ _ Hres Hnode), (resolve_child _ _ _ _ Hres' Hnode').
Qed.

End MemLocalListing.

(* ===================================================================== *)
(** * Round trip                                                          *)
(* ===================================================================== *)

(** X25. On a local library over the in-memory disk: let [V] be an
    unpublished video directly under a resource path of a theme, the
    theme's archive folder name be one plain name, and the base path,
    the folder path and the file name have no [..] step and no
    backslash.  If archiving [V] returns, and unarchiving the path it was
    moved to returns, then in between the file was at the archived
    location and no more at its own, and afterwards the file is back at
    its own location, the archived location is empty, and the resolver
    returns the entry [V] again, with its [fullPath] and
    [isPublished = false]. *)
Theorem archive_then_unarchive_restores
    `{Locale} (w w1 w2 : World MemFs.Tree MemFs.Tree)
    (themeId : Z) (theme : Theme) (rp : ThemeResourcePath)
    (this : LocalResourceConfig) (V : VideoEntry) :
  ThemeModel.findById themeId w = Some theme →
  rp ∈ resourcePaths theme →
  ResourceService.getLibraryInstance (rp_libraryId rp) w = Ok (LocalLib this) →
  V ∈ mainEntries w rp →
  tame (l_basePath this) = true →
  tame (rp_folderPath rp) = true →
  tameName (ThemeService.effectiveArchiveFolderName theme) = true →
  tameName (name (info V)) = true →
  let archived :=
    archiveTarget (ThemeService.effectiveArchiveFolderName theme) (fullPath V) in
  ThemeService.archiveVideo themeId (libraryId V) (fullPath V) w = (Ok (), w1) →
  ThemeService.unarchiveVideo themeId (libraryId V) archived w1 = (Ok (), w2) →
  (∃ size mtime,
     disk w !! lkey this (fullPath V) = Some (MemFs.NFile size mtime)
     ∧ disk w1 !! lkey this archived = Some (MemFs.NFile size mtime)
     ∧ disk w1 !! lkey this (fullPath V) = None
     ∧ disk w2 !! lkey this (fullPath V) = Some (MemFs.NFile size mtime)
     ∧ disk w2 !! lkey this archived = None)
  ∧ lkey this (unarchiveTarget archived) = lkey this (fullPath V)
  ∧ V ∈ mainEntries w2 rp
  ∧ ∃ allVideos,
      ThemeService.getThemeVideos themeId w2 = Ok allVideos
      ∧ V ∈ allVideos ∧ isPublished V = false.
Proof.
  intros Hth Hrp Hlib HV Hbase Hfp Hafn Hname archived Harch Hunarch.
  set (afn := ThemeService.effectiveArchiveFolderName theme) in *.
  (* the entry is a file of the folder *)
  apply mainEntries_elem in HV as (library & l & r & Hlib' & Hlist & Hin & Hty & HV).
  rewrite Hlib in Hlib'. injection Hlib' as <-. simpl in Hlist.
  destruct (mem_local_list_video this _ _ l r Hlist Hin Hty)
    as (Hres & Hdot & Hentry & size & mtime & Hfile).
  assert (Hfull : fullPath V = rp_folderPath rp +:+ "/" +:+ name r) by now subst V.
  assert (Hlid : libraryId V = rp_libraryId rp) by now subst V.
  assert (Hnm : name (info V) = name r) by now subst V.
  rewrite Hnm in Hname.
  unfold archived in *. clear archived. rewrite Hfull, Hlid in *.
  destruct (local_archive_keys this Hbase (rp_folderPath rp) (name r) afn
              Hfp Hname Hafn)
    as (Ks & Ka & Kt & Kd & Kr & Krd & _ & _).
  set (K := lkey this (rp_folderPath rp)) in *.
  (* the archive *)
  destruct (local_archiveVideo_Ok themeId _ _ w w1 theme this Hth Hlib Harch)
    as (d0 & d1 & Hd0 & Hacc & _ & Hmk & Hrn & Hw1).
  fold afn in Hd0, Hmk, Hrn.
  change (MemFs.mkdir_recursive
            (MemFs.key_of (NodePath.dirname
               (NodePath.join2 (l_basePath this)
                  (archiveTarget afn (rp_folderPath rp +:+ "/" +:+ name r)))))
            d0 = (Ok (), d1)) in Hmk.
  rewrite Kd in Hmk. apply mkdir_recursive_Ok in Hmk as (-> & Hnf0 & _).
  change (MemFs.rename (lkey this (rp_folderPath rp +:+ "/" +:+ name r))
            (lkey this (archiveTarget afn (rp_folderPath rp +:+ "/" +:+ name r)))
            (MemFs.mkdirs d0 (K ++ [afn])) = (Ok (), disk w1)) in Hrn.
  rewrite Ks, Kt in Hrn.
  assert (Hk_ne : K ++ [name r] ≠ []) by (by destruct K).
  assert (Hka_ne : K ++ [afn] ≠ []) by (by destruct K).
  assert (Hd0file : d0 !! (K ++ [name r]) = Some (MemFs.NFile size mtime)
                    ∧ K ++ [name r] ∉ MemFs.prefixes (K ++ [afn])).
  { assert (Hnot : K ++ [name r] = K ++ [afn] → False).
    { intros Heq. rewrite lookup_nonempty in Hnf0 by done.
      destruct Hd0 as [-> | Hd0].
      - rewrite <- Heq, Hfile in Hnf0. discriminate Hnf0.
      - change (MemFs.mkdir_recursive
                  (lkey this (NodePath.join2
                     (NodePath.dirname (rp_folderPath rp +:+ "/" +:+ name r)) afn))
                  (disk w) = (Ok (), d0)) in Hd0.
        rewrite Ka in Hd0. apply mkdir_recursive_Ok in Hd0 as (_ & Hnf & _).
        rewrite lookup_nonempty, <- Heq, Hfile in Hnf by done. discriminate Hnf. }
    assert (Hnp : K ++ [name r] ∉ MemFs.prefixes (K ++ [afn])).
    { intros (_ & rest & Hp)%prefixes_spec. apply Hnot.
      rewrite <- app_assoc in Hp. apply app_inv_head in Hp.
      simpl in Hp. injection Hp as Hp _. now rewrite Hp. }
    split; [|done]. destruct Hd0 as [-> | Hd0]; [done|].
    change (MemFs.mkdir_recursive
              (lkey this (NodePath.join2
                 (NodePath.dirname (rp_folderPath rp +:+ "/" +:+ name r)) afn))
              (disk w) = (Ok (), d0)) in Hd0.
    rewrite Ka in Hd0. apply mkdir_recursive_Ok in Hd0 as (-> & _).
    rewrite lookup_mkdirs, decide_False by done. done. }
  destruct Hd0file as [Hd0file Hnp].
  assert (Hd1file : MemFs.mkdirs d0 (K ++ [afn]) !! (K ++ [name r])
                    = Some (MemFs.NFile size mtime)).
  { rewrite lookup_mkdirs, decide_False by done. done. }
  destruct (rename_file _ _ _ _ _ _ Hrn Hd1file) as (Hw1disk & _ & _ & _).
  specialize (Hw1disk Hk_ne).
  assert (Hne_keys : K ++ [afn; name r] ≠ K ++ [name r]).
  { intros Heq. apply app_inv_head in Heq. done. }
  (* the way back *)
  assert (Hth1 : ThemeModel.findById themeId w1 = Some theme) by now rewrite Hw1.
  assert (Hlib1 : ResourceService.getLibraryInstance (rp_libraryId rp) w1
                  = Ok (LocalLib this)) by now rewrite Hw1.
  destruct (local_unarchiveVideo_Ok themeId _ _ w1 w2 theme this Hth1 Hlib1 Hunarch)
    as (_ & d2 & _ & _ & Hmk2 & Hrn2 & Hw2).
  change (MemFs.mkdir_recursive
            (MemFs.key_of (NodePath.dirname
               (NodePath.join2 (l_basePath this)
                  (unarchiveTarget
                     (archiveTarget afn (rp_folderPath rp +:+ "/" +:+ name r))))))
            (disk w1) = (Ok (), d2)) in Hmk2.
  rewrite Krd in Hmk2. apply mkdir_recursive_Ok in Hmk2 as (-> & _ & _).
  change (MemFs.rename
            (lkey this (archiveTarget afn (rp_folderPath rp +:+ "/" +:+ name r)))
            (lkey this (unarchiveTarget
                          (archiveTarget afn (rp_folderPath rp +:+ "/" +:+ name r))))
            (MemFs.mkdirs (disk w1) K) = (Ok (), disk w2)) in Hrn2.
  rewrite Kt, Kr in Hrn2.
  assert (Hlonger : ∀ pre rest x, K = pre ++ rest → pre ≠ K ++ x :: []
                                   ∧ pre ≠ K ++ [afn; x]).
  { intros pre rest x ->. split; intros Heq; apply (f_equal length) in Heq;
      rewrite !length_app in Heq; simpl in Heq; lia. }
  assert (Hw1file : MemFs.mkdirs (disk w1) K !! (K ++ [afn; name r])
                    = Some (MemFs.NFile size mtime)).
  { rewrite lookup_mkdirs, decide_False.
    - rewrite Hw1disk. apply lookup_insert_eq.
    - intros (_ & rest & Hp)%prefixes_spec.
      apply (f_equal length) in Hp. rewrite !length_app in Hp. simpl in Hp. lia. }
  destruct (rename_file _ _ _ _ _ _ Hrn2 Hw1file) as (Hw2disk & Hkt_ne & _ & Hparent).
  specialize (Hw2disk Hkt_ne). rewrite parent_snoc in Hparent.
  (* the state afterwards *)
  assert (Hback : disk w2 !! (K ++ [name r]) = Some (MemFs.NFile size mtime)).
  { rewrite Hw2disk. apply lookup_insert_eq. }
  assert (Hres2 : MemFs.resolve (disk w2) K = Ok MemFs.NDir).
  { rewrite <- Hparent. apply resolve_ext. intros pre rest Hp.
    destruct (Hlonger pre rest (name r) Hp) as [Hn1 Hn2].
    rewrite Hw2disk, lookup_insert_ne, lookup_delete_ne by done. done. }
  split.
  { exists size, mtime. rewrite Ks, Kt. repeat split; try done.
    - rewrite Hw1disk. apply lookup_insert_eq.
    - rewrite Hw1disk, lookup_insert_ne, lookup_delete_eq by done. done.
    - rewrite Hw2disk, lookup_insert_ne, lookup_delete_eq by done. done. }
  split; [now rewrite Kr, Ks|].
  assert (HV2 : V ∈ mainEntries w2 rp).
  { apply mainEntries_elem. 
    destruct (mem_local_list_file this (rp_folderPath rp) (disk w2) (name r)
                size mtime r Hres2 Hback Hdot) as (l2 & Hl2 & Hin2).
    - rewrite <- Hentry.
      now apply (mem_local_list_entry_same this _ _ _ _ (MemFs.NFile size mtime)).
    - exists (LocalLib this), l2, r. repeat split; try done.
      now rewrite Hw2, Hw1. }
  split; [done|].
  assert (Hth2 : ThemeModel.findById themeId w2 = Some theme) by now rewrite Hw2.
  pose proof (getThemeVideos_spec themeId w2) as Hspec. rewrite Hth2 in Hspec.
  eexists. split; [exact Hspec|]. split; [|now subst V].
  apply list_elem_of_bind. exists rp. split; [|done].
  apply elem_of_app. now left.
Qed.

(* ===================================================================== *)
(** * The batch operations on the example states                          *)
(* ===================================================================== *)

(** C2, read to the letter, fails on two libraries that hold a video at
    the same path: the one requested path gets two entries, and
    [archived] is larger than [total]. *)
Lemma twin_paths_two_results :
  ∃ allVideos report,
    ThemeService.getThemeVideos 1 Examples.twinWorld = Ok allVideos
    ∧ (ThemeService.batchArchiveVideos 1 ["/v/a.mp4"] Examples.twinWorld).1
      = Ok report
    ∧ ¬ one_result_per_matched_path false ["/v/a.mp4"] allVideos (results report)
    ∧ total report = 1%nat
    ∧ archived report = 2%nat.
Proof.
  eexists _, _. split; [vm_compute; reflexivity|].
  split; [vm_compute; reflexivity|].
  split; [|split; reflexivity].
  intros Hone.
  assert (Hin : "/v/a.mp4" ∈ ["/v/a.mp4"]) by apply list_elem_of_here.
  specialize (Hone "/v/a.mp4" Hin). clear Hin.
  assert (Hlen : length
            (List.filter (λ r, Js.str_eqb (mr_path r) "/v/a.mp4")
               [mkMoveResult "/v/a.mp4" true None;
                mkMoveResult "/v/a.mp4" true None]) = 1%nat).
  { apply Hone. eexists. split; [apply list_elem_of_here|]. split; reflexivity. }
  discriminate Hlen.
Qed.

Lemma batch_report_counts_attempts_witness :
  ∃ report w',
    ThemeService.batchArchiveVideos 1 ["/videos/food/a.mp4"; "/nope"]
      Examples.foodWorld = (Ok report, w')
    ∧ total report = 2%nat
    ∧ map mr_path (results report) = ["/videos/food/a.mp4"]
    ∧ archived report = 1%nat
    ∧ failed report = 0%nat.
Proof.
  destruct (batch_report_counts_attempts 1 ["/videos/food/a.mp4"; "/nope"]
              Examples.foodWorld Examples.foodTheme eq_refl)
    as (allVideos & Hall & (report & Hrun & Htotal & _ & Hpaths & _ & Ha & Hf & _) & _).
  vm_compute in Hall. injection Hall as <-.
  exists report. eexists. split; [exact Hrun|].
  split; [exact Htotal|].
  split; [rewrite Hpaths; vm_compute; reflexivity|].
  split; [rewrite Ha; vm_compute; reflexivity|].
  rewrite Hf. vm_compute. reflexivity.
Defined.


Lemma batchPublish_fans_out_witness :
  let options autoArchive :=
    mkPublishOptions [1; 2]%Z ["/videos/food/a.mp4"] autoArchive None
      (Some ["food"; "daily"]) None in
  let run autoArchive :=
    ThemeService.batchPublishThemeVideos (table := Examples.countingTable) 1
      (options autoArchive) Examples.foodWorld in
  ∃ report w' report' w'',
    run (Some false) = (Ok report, w')
    ∧ run None = (Ok report', w'')
    ∧ totalTasks report = 2%nat
    ∧ accountCount report = 2%nat
    ∧ videoCount report = 1%nat
    ∧ map pt_accountId (tasks report) = [1; 2]%Z
    ∧ map pt_autoArchive (tasks report) = [false; false]
    ∧ map pt_autoArchive (tasks report') = [true; true]
    ∧ map task_title (uploadTasks w') = ["a"; "a"]
    ∧ map task_tags (uploadTasks w') = ["food,daily"; "food,daily"].
Proof.
  intros options run.
  assert (Hall : ∃ allVideos,
             ThemeService.getThemeVideos 1 Examples.foodWorld = Ok allVideos
             ∧ List.filter (λ v, Js.includes ["/videos/food/a.mp4"] (fullPath v))
                 allVideos ≠ []
             ∧ length (List.filter
                         (λ v, Js.includes ["/videos/food/a.mp4"] (fullPath v))
                         allVideos) = 1%nat).
  { eexists. split; [vm_compute; reflexivity|].
    split; [vm_compute; discriminate|vm_compute; reflexivity]. }
  destruct Hall as (allVideos & Hall & Hmatched & Hone).
  assert (Haccepts : ∀ data0 (w0 : Examples.MemWorld),
             ∃ id, prisma_uploadTask_create (UploadTaskTable := Examples.countingTable)
                     data0 w0 = Ok id) by (intros; eexists; reflexivity).
  destruct (batchPublish_fans_out (table := Examples.countingTable) 1
              (options (Some false)) Examples.foodWorld Examples.foodTheme
              allVideos eq_refl) as (Hret & Hok & _);
    [discriminate|discriminate|exact Hall|exact Hmatched|].
  destruct (batchPublish_fans_out (table := Examples.countingTable) 1
              (options None) Examples.foodWorld Examples.foodTheme
              allVideos eq_refl) as (Hret' & Hok' & _);
    [discriminate|discriminate|exact Hall|exact Hmatched|].
  destruct (Hret Haccepts) as (report & w' & Hrun).
  destruct (Hret' Haccepts) as (report' & w'' & Hrun').
  destruct (Hok report w' Hrun) as (ids & Hl & Hw' & Htasks & Htotal & Hac & Hvc).
  destruct (Hok' report' w'' Hrun')
    as (ids' & Hl' & _ & Htasks' & _).
  exists report, w', report', w''.
  split; [exact Hrun|]. split; [exact Hrun'|].
  assert (Hrep : (run (Some false)).1 = Ok report) by (unfold run; now rewrite Hrun).
  assert (Hrep' : (run None).1 = Ok report') by (unfold run; now rewrite Hrun').
  assert (Hst : uploadTasks (run (Some false)).2 = uploadTasks w')
    by (unfold run; now rewrite Hrun).
  vm_compute in Hrep. injection Hrep as <-.
  vm_compute in Hrep'. injection Hrep' as <-.
  rewrite <- Hst.
  repeat split; vm_compute; reflexivity.
Defined.

(* ===================================================================== *)
(** * Where the code leaves its own checks                                *)
(* ===================================================================== *)

(** C4.  The check of [unarchiveVideo] that the video is in the archive
    folder is [directory.endsWith(archiveFolderName)].  A video in
    [/videos/unpublished] passes it for the archive folder [published]:
    the call returns and the video is moved one level up. *)
Theorem unarchive_accepts_a_folder_ending_like_the_archive :
  NodePath.basename (NodePath.dirname "/videos/unpublished/c.mp4") = "unpublished"
  ∧ ThemeService.effectiveArchiveFolderName
      (mkTheme "u" None [mkThemeResourcePath 1 "/videos"]) = "published"
  ∧ (ThemeService.unarchiveVideo 1 1 "/videos/unpublished/c.mp4"
       Examples.unpublishedWorld).1 = Ok ()
  ∧ disk (ThemeService.unarchiveVideo 1 1 "/videos/unpublished/c.mp4"
            Examples.unpublishedWorld).2
    = list_to_map
        [ (["data"], MemFs.NDir); (["data"; "videos"], MemFs.NDir);
          (["data"; "videos"; "unpublished"], MemFs.NDir);
          (["data"; "videos"; "c.mp4"], MemFs.NFile 30 3) ].
Proof. repeat split; vm_compute; reflexivity. Qed.

Section WebDAVMove.
Context {R : Type} `{WebDAVClient R}.

(** When both the source and the target answer [stat], the error thrown
    for the target has no [response], the [catch] around it lets it go,
    and [move] goes on to the client's [moveFile]. *)
Lemma webdav_move_ignores_existing_target (this : WebDAVResourceConfig)
    (sourcePath targetPath : string) (r : R) (s1 s2 : FileStat) :
  dav_stat (WebDAVResourceLibrary.fullPathOf this sourcePath) r = Ok s1 →
  dav_stat (WebDAVResourceLibrary.fullPathOf this targetPath) r = Ok s2 →
  WebDAVResourceLibrary.move this sourcePath targetPath r =
  (let targetDir :=
     WebDAVResourceLibrary.normalizePath
       (NodePath.dirname (WebDAVResourceLibrary.fullPathOf this targetPath)) in
   _ ← try_catch (_ ← read (dav_stat targetDir); mret ())
         (λ _, dav_createDirectory targetDir true);
   dav_moveFile (WebDAVResourceLibrary.fullPathOf this sourcePath)
     (WebDAVResourceLibrary.fullPathOf this targetPath)) r.
Proof.
  intros Hs Ht. unfold WebDAVResourceLibrary.move. unfold_async.
  rewrite Hs, Ht. simpl. clear Hs Ht.
  destruct (dav_stat (WebDAVResourceLibrary.normalizePath _) r); simpl.
  - destruct (dav_moveFile _ _ r) as [[]]; reflexivity.
  - destruct (dav_createDirectory _ true r) as [[[]|] r1]; [|reflexivity].
    destruct (dav_moveFile _ _ r1) as [[]]; reflexivity.
Qed.

End WebDAVMove.

(** C9.  On a WebDAV library that holds [a.mp4] both in [/v] and in
    [/v/published], [move] of the first onto the second returns, and the
    file that was at the target is replaced; the local provider raises on
    the same tree and leaves it as it was. *)
Theorem webdav_move_replaces_existing_target :
  (WebDAVResourceLibrary.move Examples.davConfig "/v/a.mp4" "/v/published/a.mp4"
     (Some Examples.davTree)).1 = Ok ()
  ∧ Examples.davTree !! ["v"; "published"; "a.mp4"] = Some (MemFs.NFile 11 0)
  ∧ (WebDAVResourceLibrary.move Examples.davConfig "/v/a.mp4" "/v/published/a.mp4"
       (Some Examples.davTree)).2
    = Some (list_to_map
              [ (["v"], MemFs.NDir); (["v"; "published"], MemFs.NDir);
                (["v"; "published"; "a.mp4"], MemFs.NFile 10 1) ])
  ∧ LocalResourceLibrary.move Examples.localAtRoot "/v/a.mp4" "/v/published/a.mp4"
      Examples.davTree
    = (Err (Error "目标路径已存在: /v/published/a.mp4"), Examples.davTree).
Proof. repeat split; vm_compute; reflexivity. Qed.

(** C5.  With an archive folder name of two segments the round trip is
    lost: archiving [/videos/food/a.mp4] under the name [old/2024] and
    unarchiving the archived path both return, and leave the file in
    [/videos/food/old], one folder short of where it was; the resolver
    does not list it any more. *)
Lemma round_trip_lost_under_nested_name :
  let archived := ThemeService.archiveVideo 1 1 "/videos/food/a.mp4"
                    Examples.nestedNameWorld in
  let restored := ThemeService.unarchiveVideo 1 1 "/videos/food/old/2024/a.mp4"
                    archived.2 in
  map fullPath <$> ThemeService.getThemeVideos 1 Examples.nestedNameWorld
  = Ok ["/videos/food/a.mp4"]
  ∧ map isPublished <$> ThemeService.getThemeVideos 1 Examples.nestedNameWorld
    = Ok [false]
  ∧ archived.1 = Ok ()
  ∧ disk archived.2 !! ["data"; "videos"; "food"; "old"; "2024"; "a.mp4"]
    = Some (MemFs.NFile 10 1)
  ∧ restored.1 = Ok ()
  ∧ disk restored.2 !! ["data"; "videos"; "food"; "a.mp4"] = None
  ∧ disk restored.2 !! ["data"; "videos"; "food"; "old"; "a.mp4"]
    = Some (MemFs.NFile 10 1)
  ∧ ThemeService.getThemeVideos 1 restored.2 = Ok [].
Proof. repeat split; vm_compute; reflexivity. Qed.

(** C6 fails when a resource path of the theme is the archive folder of
    another one: the first batch cannot archive [/v/a.mp4] (its target is
    taken) and moves [/v/published/a.mp4] away; the second batch then
    archives [/v/a.mp4], so the two runs do not end in the state of
    one. *)
Lemma second_batch_moves_under_nested_roots :
  let paths := ["/v/a.mp4"; "/v/published/a.mp4"] in
  let once := ThemeService.batchArchiveVideos 1 paths Examples.nestedRootsWorld in
  let twice := ThemeService.batchArchiveVideos 1 paths once.2 in
  map fullPath <$>
    (List.filter (λ v, negb (isPublished v)) <$>
       ThemeService.getThemeVideos 1 Examples.nestedRootsWorld)
  = Ok paths
  ∧ map mr_success <$> (results <$> once.1) = Ok [false; true]
  ∧ map mr_success <$> (results <$> twice.1) = Ok [true]
  ∧ disk once.2 !! ["data"; "v"; "a.mp4"] = Some (MemFs.NFile 10 1)
  ∧ disk twice.2 !! ["data"; "v"; "a.mp4"] = None
  ∧ disk twice.2 ≠ disk once.2.
Proof.
  repeat split; try (vm_compute; reflexivity).
  intros Heq.
  assert (Hl : disk (ThemeService.batchArchiveVideos 1
                       ["/v/a.mp4"; "/v/published/a.mp4"]
                       (ThemeService.batchArchiveVideos 1
                          ["/v/a.mp4"; "/v/published/a.mp4"]
                          Examples.nestedRootsWorld).2).2
               !! ["data"; "v"; "a.mp4"] = None) by (vm_compute; reflexivity).
  rewrite Heq in Hl. vm_compute in Hl. discriminate.
Qed.

(** C7 fails when the task table rejects a row: with the accounts 1 and
    2 and the one matched video [/videos/food/a.mp4] there are two pairs,
    the table rejects the row of account 2, and the batch publish raises
    the error of the table with the row of account 1 stored and no
    report. *)
Lemma publish_stops_at_a_rejected_row :
  let options :=
    mkPublishOptions [1; 2]%Z ["/videos/food/a.mp4"] None None None None in
  let run :=
    ThemeService.batchPublishThemeVideos (table := Examples.account1Table) 1
      options Examples.foodWorld in
  ThemeModel.findById 1 Examples.foodWorld = Some Examples.foodTheme
  ∧ map fullPath <$> ThemeService.getThemeVideos 1 Examples.foodWorld
    = Ok ["/videos/food/a.mp4"; "/videos/food/b.mp4";
          "/videos/food/published/c.mp4"]
  ∧ run.1 = Err (mkJsError "Foreign key constraint failed" (Some "P2003") None)
  ∧ map task_platformId (uploadTasks run.2) = [1%Z]
  ∧ uploadTasks Examples.foodWorld = [].
Proof. repeat split; vm_compute; reflexivity. Qed.

(* ===================================================================== *)
(** * The status of an entry on the example states                        *)
(* ===================================================================== *)

(** C1, read to the letter, fails when a resource path's own folder has
    the archive folder's name: the video directly under
    [/videos/published] is reported unpublished, while the base name of
    its parent folder is the archive folder name. *)
Lemma root_named_like_the_archive_folder :
  ThemeModel.findById 1 Examples.publishedRootWorld
  = Some (mkTheme "t" None [mkThemeResourcePath 1 "/videos/published"])
  ∧ ∃ v, ThemeService.getThemeVideos 1 Examples.publishedRootWorld = Ok [v]
         ∧ fullPath v = "/videos/published/a.mp4"
         ∧ isPublished v = false
         ∧ Js.str_eqb (NodePath.basename (NodePath.dirname (fullPath v)))
             "published" = true.
Proof.
  split; [reflexivity|].
  eexists. split; [vm_compute; reflexivity|]. repeat split.
Qed.

Lemma isPublished_follows_the_listing_witness :
  ∃ a b c,
    ThemeService.getThemeVideos 1 Examples.foodWorld = Ok [a; b; c]
    ∧ fullPath c = "/videos/food/published/c.mp4"
    ∧ isPublished c
      = Js.str_eqb (NodePath.basename (NodePath.dirname (fullPath c))) "published"
    ∧ (isPublished c = true ↔
       ∃ rp, rp ∈ resourcePaths Examples.foodTheme
             ∧ c ∈ archiveEntries "published" Examples.foodWorld rp).
Proof.
  destruct (ThemeService.getThemeVideos 1 Examples.foodWorld)
    as [allVideos|e] eqn:Hall; [|vm_compute in Hall; discriminate].
  assert (Hval := Hall). vm_compute in Hval. injection Hval as <-.
  eexists _, _, _. split; [reflexivity|]. split; [reflexivity|].
  match type of Hall with
  | _ = Ok [?a; ?b; ?c] =>
      assert (Hin : c ∈ [a; b; c])
        by (apply list_elem_of_further, list_elem_of_further, list_elem_of_here);
      pose proof (isPublished_follows_the_listing 1 Examples.foodWorld
                    Examples.foodTheme [a; b; c] c eq_refl Hall Hin)
        as (_ & Harch & _ & Hpos)
  end.
  split; [|exact Harch].
  apply Hpos; [reflexivity | reflexivity |].
  intros rp Hrp. apply list_elem_of_singleton in Hrp as ->.
  intros Heq. vm_compute in Heq. discriminate.
Defined.

Lemma archive_then_unarchive_restores_witness :
  let w := Examples.foodWorld in
  let rp := mkThemeResourcePath 1 "/videos/food" in
  let w1 := (ThemeService.archiveVideo 1 1 "/videos/food/a.mp4" w).2 in
  let w2 := (ThemeService.unarchiveVideo 1 1 "/videos/food/published/a.mp4" w1).2 in
  ∃ V, mainEntries w rp !! 0%nat = Some V
       ∧ fullPath V = "/videos/food/a.mp4"
       ∧ V ∈ mainEntries w2 rp
       ∧ ∃ allVideos, ThemeService.getThemeVideos 1 w2 = Ok allVideos
                      ∧ V ∈ allVideos ∧ isPublished V = false.
Proof.
  intros w rp w1 w2.
  destruct (mainEntries w rp !! 0%nat) as [V|] eqn:HV;
    [|vm_compute in HV; discriminate].
  exists V. split; [done|].
  assert (Hval := HV). vm_compute in Hval. injection Hval as Hval.
  split; [now rewrite <- Hval|].
  apply list_elem_of_lookup_2 in HV.
  assert (Hthis : ResourceService.getLibraryInstance (rp_libraryId rp) w
                  = Ok (LocalLib (mkLocalResourceConfig "/data" None)))
    by (vm_compute; reflexivity).
  assert (Hrp : rp ∈ resourcePaths Examples.foodTheme) by apply list_elem_of_here.
  assert (Harch : ThemeService.archiveVideo 1 (libraryId V) (fullPath V) w
                  = (Ok (), w1)) by (rewrite <- Hval; vm_compute; reflexivity).
  assert (Hun : ThemeService.unarchiveVideo 1 (libraryId V)
                  (archiveTarget
                     (ThemeService.effectiveArchiveFolderName Examples.foodTheme)
                     (fullPath V)) w1
                = (Ok (), w2)) by (rewrite <- Hval; vm_compute; reflexivity).
  assert (Hname : tameName (name (info V)) = true) by now rewrite <- Hval.
  destruct (archive_then_unarchive_restores w w1 w2 1 Examples.foodTheme rp
              (mkLocalResourceConfig "/data" None) V
              eq_refl Hrp Hthis HV eq_refl eq_refl eq_refl Hname Harch Hun)
    as (_ & _ & Hmain & Hall).
  done.
Defined.

(* ===================================================================== *)
(** * Statistics and the rejections of a batch publication                *)
(* ===================================================================== *)

Lemma List_filter_all {A} (f : A → bool) (l : list A) :
  Forall (λ x, f x = true) l → List.filter f l = l.
Proof.
  induction 1 as [|x l Hx _ IH]; simpl; [done|]. now rewrite Hx, IH.
Qed.

Lemma List_filter_none {A} (f : A → bool) (l : list A) :
  Forall (λ x, f x = false) l → List.filter f l = [].
Proof.
  induction 1 as [|x l Hx _ IH]; simpl; [done|]. now rewrite Hx, IH.
Qed.

Lemma includes_elem (arr : list string) (x : string) :
  Js.includes arr x = true ↔ x ∈ arr.
Proof.
  unfold Js.includes. induction arr as [|y arr IH]; simpl.
  - split; [done|]. intros Hin. inversion Hin.
  - rewrite orb_true_iff, IH, elem_of_cons. split.
    + intros [->%str_eqb_true | Hin]; auto.
    + intros [-> | Hin]; [left; now apply str_eqb_true|auto].
Qed.

Section Statistics.
Context {D R : Type} `{FsPromises D} `{WebDAVClient (option R)} `{Locale}.

Lemma filter_published_entries (afn : string) (w : World D R)
    (rps : list ThemeResourcePath) :
  List.filter isPublished (rp ← rps; mainEntries w rp ++ archiveEntries afn w rp)
  = (rp ← rps; archiveEntries afn w rp)
  ∧ List.filter (λ v, negb (isPublished v))
      (rp ← rps; mainEntries w rp ++ archiveEntries afn w rp)
    = (rp ← rps; mainEntries w rp).
Proof.
  assert (Hm : ∀ rp, Forall (λ v, isPublished v = false) (mainEntries w rp)).
  { intros rp. apply Forall_forall. intros v Hv.
    now apply mainEntries_unpublished in Hv as (Hv & _). }
  assert (Ha : ∀ rp, Forall (λ v, isPublished v = true) (archiveEntries afn w rp)).
  { intros rp. apply Forall_forall. intros v Hv.
    now apply archiveEntries_published in Hv as (Hv & _). }
  induction rps as [|rp rps [IH1 IH2]]; [done|].
  change (rp0 ← rp :: rps; mainEntries w rp0 ++ archiveEntries afn w rp0)
    with ((mainEntries w rp ++ archiveEntries afn w rp)
          ++ (rp0 ← rps; mainEntries w rp0 ++ archiveEntries afn w rp0)).
  rewrite !List.filter_app, IH1, IH2.
  rewrite (List_filter_none isPublished (mainEntries w rp)) by apply Hm.
  rewrite (List_filter_all isPublished (archiveEntries afn w rp)) by apply Ha.
  rewrite (List_filter_all (λ v, negb (isPublished v)) (mainEntries w rp)).
  2:{ eapply Forall_impl; [apply Hm|]. intros v ->. done. }
  rewrite (List_filter_none (λ v, negb (isPublished v)) (archiveEntries afn w rp)).
  2:{ eapply Forall_impl; [apply Ha|]. intros v ->. done. }
  rewrite app_nil_r. done.
Qed.

End Statistics.

(** X1. [getThemeStatistics] raises [主题库不存在] for a theme that does not
    exist.  For one that does, [published] is the number of entries the
    archive folders of its resource paths give, [unpublished] the number
    their own folders give, and the two add up to the number of entries
    of [getThemeVideos]. *)
Theorem getThemeStatistics_counts
    {D R : Type} `{FsPromises D} `{WebDAVClient (option R)} `{Locale}
    (themeId : Z) (w : World D R) :
  match ThemeModel.findById themeId w with
  | None => ThemeService.getThemeStatistics themeId w = Err ThemeService.themeNotFound
  | Some theme =>
      let afn := ThemeService.effectiveArchiveFolderName theme in
      ∃ stats allVideos,
        ThemeService.getThemeStatistics themeId w = Ok stats
        ∧ ThemeService.getThemeVideos themeId w = Ok allVideos
        ∧ published stats = length (rp ← resourcePaths theme; archiveEntries afn w rp)
        ∧ unpublished stats = length (rp ← resourcePaths theme; mainEntries w rp)
        ∧ (published stats + unpublished stats)%nat = length allVideos
  end.
Proof.
  unfold ThemeService.getThemeStatistics. rewrite getThemeVideos_spec.
  destruct (ThemeModel.findById themeId w) as [theme|]; [|done].
  set (afn := ThemeService.effectiveArchiveFolderName theme).
  destruct (filter_published_entries afn w (resourcePaths theme)) as [Hp Hu].
  exists (mkThemeStatistics
            (length (rp ← resourcePaths theme; archiveEntries afn w rp))
            (length (rp ← resourcePaths theme; mainEntries w rp))),
         (rp ← resourcePaths theme; mainEntries w rp ++ archiveEntries afn w rp).
  split; [unfold_async; now rewrite Hp, Hu|].
  split; [done|]. split; [done|]. split; [done|]. simpl. clear Hp Hu.
  induction (resourcePaths theme) as [|rp rps IH]; [done|].
  change (length (archiveEntries afn w rp ++ (rp0 ← rps; archiveEntries afn w rp0))
          + length (mainEntries w rp ++ (rp0 ← rps; mainEntries w rp0))
          = length ((mainEntries w rp ++ archiveEntries afn w rp)
                    ++ (rp0 ← rps; mainEntries w rp0 ++ archiveEntries afn w rp0)))%nat.
  rewrite !length_app, <- IH. lia.
Qed.

(** X2. [batchPublishThemeVideos] checks, in this order, that the theme
    exists, that accounts are given, that video paths are given and that
    a video of the theme matches one of the paths; when a check fails it
    raises the error of that check and creates no upload task. *)
Theorem batchPublish_rejects
    {D R : Type} `{FsPromises D} `{WebDAVClient (option R)} `{Locale}
    {table : UploadTaskTable (World D R)}
    (themeId : Z) (options : PublishOptions) (w : World D R) :
  match ThemeModel.findById themeId w with
  | None =>
      ThemeService.batchPublishThemeVideos themeId options w
      = (Err ThemeService.themeNotFound, w)
  | Some theme =>
      (accountIds options = [] →
       ThemeService.batchPublishThemeVideos themeId options w
       = (Err (Error "没有指定账号"), w))
      ∧ (accountIds options ≠ [] → videoPaths options = [] →
         ThemeService.batchPublishThemeVideos themeId options w
         = (Err (Error "没有指定视频"), w))
      ∧ (accountIds options ≠ [] → videoPaths options ≠ [] →
         ∀ allVideos,
           ThemeService.getThemeVideos themeId w = Ok allVideos →
           (∀ v, v ∈ allVideos → fullPath v ∉ videoPaths options) →
           ThemeService.batchPublishThemeVideos themeId options w
           = (Err (Error "没有找到匹配的视频"), w))
  end.
Proof.
  unfold ThemeService.batchPublishThemeVideos.
  destruct (ThemeModel.findById themeId w) as [theme|]; [|done].
  split; [intros ->; done|].
  split.
  - intros Ha ->. destruct (accountIds options); done.
  - intros Ha Hv allVideos Hall Hnone.
    destruct (accountIds options); [done|].
    destruct (videoPaths options) as [|p ps] eqn:Hps; [done|].
    simpl. rewrite Hall.
    rewrite List_filter_none; [done|].
    apply Forall_forall. intros v Hin.
    destruct (Js.includes (p :: ps) (fullPath v)) eqn:Hinc; [|done].
    exfalso. apply (Hnone v Hin).
    now apply includes_elem.
Qed.

(* ===================================================================== *)
(** * What [move] of a local library refuses and what it does            *)
(* ===================================================================== *)

(** The ways [move] of a local library refuses: it changes nothing and raises when the
    source cannot be accessed (the error of [fs.access]), when the target
    can be accessed ([目标路径已存在: <targetPath>]), and when the check of
    the target fails with a code other than [ENOENT] (that error). *)
Lemma local_move_cases
    {D : Type} `{FsPromises D} (this : LocalResourceConfig)
    (sourcePath targetPath : string) (d : D) :
  let fullSourcePath := NodePath.join2 (l_basePath this) sourcePath in
  let fullTargetPath := NodePath.join2 (l_basePath this) targetPath in
  match fs_access fullSourcePath d with
  | Err e =>
      LocalResourceLibrary.move this sourcePath targetPath d = (Err e, d)
  | Ok _ =>
      match fs_access fullTargetPath d with
      | Ok _ =>
          LocalResourceLibrary.move this sourcePath targetPath d
          = (Err (Error ("目标路径已存在: " +:+ targetPath)), d)
      | Err e =>
          code e ≠ Some "ENOENT" →
          LocalResourceLibrary.move this sourcePath targetPath d = (Err e, d)
      end
  end.
Proof.
  intros fs ft. unfold LocalResourceLibrary.move. unfold_async. fold fs ft.
  destruct (fs_access fs d) as [[]|e]; [|done].
  destruct (fs_access ft d) as [[]|e].
  - done.
  - intros Hc. now rewrite bool_decide_eq_true_2.
Qed.

(** X3. [move] of a local library changes nothing and raises when the
    source cannot be accessed (the error of [fs.access]), when the target
    can be accessed ([目标路径已存在: <targetPath>]), and when the check of
    the target fails with a code other than [ENOENT] (that error). *)
Theorem local_move_refusals
    {D : Type} `{FsPromises D} (this : LocalResourceConfig)
    (sourcePath targetPath : string) (d : D) :
  let fullSourcePath := NodePath.join2 (l_basePath this) sourcePath in
  let fullTargetPath := NodePath.join2 (l_basePath this) targetPath in
  match fs_access fullSourcePath d with
  | Err e =>
      LocalResourceLibrary.move this sourcePath targetPath d = (Err e, d)
  | Ok _ =>
      match fs_access fullTargetPath d with
      | Ok _ =>
          LocalResourceLibrary.move this sourcePath targetPath d
          = (Err (Error ("目标路径已存在: " +:+ targetPath)), d)
      | Err e =>
          code e ≠ Some "ENOENT" →
          LocalResourceLibrary.move this sourcePath targetPath d = (Err e, d)
      end
  end.
Proof. apply local_move_cases. Qed.

Section MemMove.
Import MemFs.

Lemma prefixes_cases (k pre : list string) :
  pre ∈ prefixes k → pre = k ∨ pre ∈ prefixes (parent k).
Proof.
  destruct k as [|x k _] using rev_ind.
  - intros (Hne & r & Hp)%prefixes_spec. destruct pre; done.
  - intros (Hne & r & Hp)%prefixes_spec. rewrite parent_snoc.
    destruct r as [|y r _] using rev_ind.
    + left. now rewrite app_nil_r in Hp.
    + right. rewrite app_assoc in Hp. apply app_inj_tail in Hp as [-> _].
      apply prefixes_spec. eauto.
Qed.

(** [mkdir -p] that returns has replaced no file. *)
Lemma mkdir_recursive_keeps (k : list string) (t t' : Tree) (k' : list string) :
  mkdir_recursive k t = (Ok (), t') →
  t' !! k' = t !! k' ∨ (t !! k' = None ∧ t' !! k' = Some NDir).
Proof.
  intros (-> & Hf & Hb)%mkdir_recursive_Ok. rewrite lookup_mkdirs.
  destruct (decide (k' ∈ prefixes k)) as [Hin|]; [|by left].
  assert (Hnf : is_file (t !! k') = false).
  { destruct (prefixes_cases _ _ Hin) as [-> | Hp].
    - rewrite lookup_nonempty in Hf; [done|]. now apply prefixes_spec in Hin.
    - clear Hin. revert k' Hp. now apply blocked_false. }
  destruct (t !! k') as [[|]|]; [done|by left|by right].
Qed.

End MemMove.

(** X4. On the in-memory disk, a [move] of a local library that returns
    for a source that is a file has put that file at the location of the
    target, left nothing at the location of the source, and changed no
    other entry, except that folders that were missing may have been
    made. *)
Theorem mem_local_move_moves_the_file
    (this : LocalResourceConfig) (sourcePath targetPath : string)
    (t t' : MemFs.Tree) (size mtime : Z) :
  LocalResourceLibrary.move this sourcePath targetPath t = (Ok (), t') →
  t !! lkey this sourcePath = Some (MemFs.NFile size mtime) →
  lkey this sourcePath ≠ lkey this targetPath
  ∧ t !! lkey this targetPath = None
  ∧ t' !! lkey this targetPath = Some (MemFs.NFile size mtime)
  ∧ t' !! lkey this sourcePath = None
  ∧ ∀ k, k ≠ lkey this sourcePath → k ≠ lkey this targetPath →
         t' !! k = t !! k ∨ (t !! k = None ∧ t' !! k = Some MemFs.NDir).
Proof.
  intros Hrun Hfile.
  apply local_move_Ok in Hrun as (Hs & (e & Ht & Hc) & t1 & Hmk & Hrn).
  apply mem_access_Err in Ht. apply resolve_ENOENT in Ht as [_ Hnone]; [|done].
  change (MemFs.key_of (NodePath.join2 (l_basePath this) targetPath))
    with (lkey this targetPath) in Hnone.
  change (MemFs.rename (lkey this sourcePath) (lkey this targetPath) t1
          = (Ok (), t')) in Hrn.
  change (MemFs.mkdir_recursive
            (MemFs.key_of (NodePath.dirname
               (NodePath.join2 (l_basePath this) targetPath))) t
          = (Ok (), t1)) in Hmk.
  set (ks := lkey this sourcePath) in *. set (kt := lkey this targetPath) in *.
  assert (Hks1 : t1 !! ks = Some (MemFs.NFile size mtime)).
  { destruct (mkdir_recursive_keeps _ _ _ ks Hmk) as [-> | [Hn _]]; congruence. }
  destruct (rename_file _ _ _ _ _ _ Hrn Hks1) as (Ht' & Hks & Hkt & _).
  specialize (Ht' Hks).
  assert (Hne : ks ≠ kt).
  { intros Heq. rewrite <- Heq, lookup_nonempty in Hnone by done. congruence. }
  rewrite lookup_nonempty in Hnone by done.
  split; [done|]. split; [done|].
  split; [rewrite Ht'; apply lookup_insert_eq|].
  split; [rewrite Ht', lookup_insert_ne, lookup_delete_eq by done; done|].
  intros k Hk1 Hk2.
  rewrite Ht', lookup_insert_ne, lookup_delete_ne by done.
  apply (mkdir_recursive_keeps _ _ _ k Hmk).
Qed.

Lemma mem_local_move_moves_the_file_witness :
  let this := mkLocalResourceConfig "/data" None in
  let t' := (LocalResourceLibrary.move this "/videos/food/a.mp4"
               "/videos/food/published/a.mp4" Examples.foodTree).2 in
  t' !! ["data"; "videos"; "food"; "published"; "a.mp4"]
  = Some (MemFs.NFile 10 1)
  ∧ t' !! ["data"; "videos"; "food"; "a.mp4"] = None.
Proof.
  intros this t'. subst t'.
  assert (Hr : (LocalResourceLibrary.move this "/videos/food/a.mp4"
                  "/videos/food/published/a.mp4" Examples.foodTree).1 = Ok ())
    by (vm_compute; reflexivity).
  destruct (LocalResourceLibrary.move this "/videos/food/a.mp4"
              "/videos/food/published/a.mp4" Examples.foodTree)
    as [r t'] eqn:Hrun.
  simpl in Hr. subst r. simpl.
  destruct (mem_local_move_moves_the_file this "/videos/food/a.mp4"
              "/videos/food/published/a.mp4" Examples.foodTree t' 10 1 Hrun)
    as (_ & _ & Ht & Hs & _); [vm_compute; reflexivity|].
  split; [exact Ht|exact Hs].
Defined.

(** X5. On a local library, [archiveVideo] changes nothing and raises
    [目标路径已存在: <target>] when the archive folder can be read, the
    video can be accessed and something can be accessed at the place the
    video would be moved to. *)
Theorem archiveVideo_refuses_taken_target
    {D R : Type} `{FsPromises D} `{WebDAVClient (option R)}
    (themeId libraryId : Z) (videoPath : string) (w : World D R)
    (theme : Theme) (this : LocalResourceConfig) (stats : Stats) :
  ThemeModel.findById themeId w = Some theme →
  ResourceService.getLibraryInstance libraryId w = Ok (LocalLib this) →
  let archiveFolderName := ThemeService.effectiveArchiveFolderName theme in
  let full := NodePath.join2 (l_basePath this) in
  let targetPath := archiveTarget archiveFolderName videoPath in
  fs_stat (full (NodePath.join2 (NodePath.dirname videoPath) archiveFolderName))
    (disk w) = Ok stats →
  fs_access (full videoPath) (disk w) = Ok () →
  fs_access (full targetPath) (disk w) = Ok () →
  ThemeService.archiveVideo themeId libraryId videoPath w
  = (Err (Error ("目标路径已存在: " +:+ targetPath)), w).
Proof.
  intros Hth Hlib afn full targetPath Hst Hs Ht.
  unfold ThemeService.archiveVideo. rewrite Hth.
  unfold mbind, async_bind, read. rewrite Hlib.
  change (NodePath.join2
            (NodePath.join2 (NodePath.dirname videoPath)
               (ThemeService.effectiveArchiveFolderName theme))
            (NodePath.basename videoPath)) with targetPath.
  fold afn.
  assert (He : ThemeService.ensureFolder (LocalLib this)
                 (NodePath.join2 (NodePath.dirname videoPath) afn) w = (Ok (), w)).
  { unfold ThemeService.ensureFolder. unfold_async. simpl.
    unfold LocalResourceLibrary.getInfo. unfold_async.
    fold (full (NodePath.join2 (NodePath.dirname videoPath) afn)).
    now rewrite Hst. }
  rewrite He. simpl. unfold IResourceLibrary.on_disk.
  pose proof (local_move_cases this videoPath targetPath (disk w)) as Hm.
  simpl in Hm. fold (full videoPath) (full targetPath) in Hm.
  rewrite Hs, Ht in Hm. rewrite Hm. destruct w; reflexivity.
Qed.

Lemma archiveVideo_refuses_taken_target_witness :
  (ThemeService.archiveVideo 1 1 "/v/a.mp4" Examples.collisionWorld).1
  = Err (Error "目标路径已存在: /v/published/a.mp4").
Proof.
  rewrite (archiveVideo_refuses_taken_target 1 1 "/v/a.mp4"
             Examples.collisionWorld
             (mkTheme "c" None [mkThemeResourcePath 1 "/v"])
             (mkLocalResourceConfig "/data" None) (mkStats true 0 0)).
  - vm_compute. reflexivity.
  - reflexivity.
  - vm_compute. reflexivity.
  - vm_compute. reflexivity.
  - vm_compute. reflexivity.
  - vm_compute. reflexivity.
Defined.

(* ===================================================================== *)
(** * The way back from the archive folder, on any library               *)
(* ===================================================================== *)




(* ===================================================================== *)
(** * [normalizePath] of the WebDAV library                               *)
(* ===================================================================== *)

Lemma startsWith_collapse (s : string) :
  Js.startsWith (Js.collapse_slashes s) "/" = Js.startsWith s "/".
Proof.
  induction s as [|c s IH]; [done|].
  cbn [Js.collapse_slashes]. rewrite (startsWith_slash_cons c s).
  destruct (Ascii.eqb c Js.slash) eqn:Hc; cbn [andb].
  - destruct (Js.startsWith s "/") eqn:Hs.
    + now rewrite IH.
    + now rewrite startsWith_slash_cons.
  - now rewrite startsWith_slash_cons.
Qed.

Lemma double_slash_collapse (s : string) :
  has_double_slash (Js.collapse_slashes s) = false.
Proof.
  induction s as [|c s IH]; [done|].
  cbn [Js.collapse_slashes].
  destruct (Ascii.eqb c Js.slash && Js.startsWith s "/") eqn:Hc; [done|].
  cbn [has_double_slash]. rewrite IH, startsWith_collapse, Hc. done.
Qed.

Lemma collapse_fixed (s : string) :
  has_double_slash s = false → Js.collapse_slashes s = s.
Proof.
  induction s as [|c s IH]; [done|].
  cbn [has_double_slash Js.collapse_slashes].
  intros [Hc Hs]%orb_false_iff. rewrite Hc. now rewrite IH.
Qed.

Lemma has_backslash_collapse (s : string) :
  has_backslash (Js.collapse_slashes s) = has_backslash s.
Proof.
  induction s as [|c s IH]; [done|].
  cbn [Js.collapse_slashes].
  destruct (Ascii.eqb c Js.slash && Js.startsWith s "/") eqn:Hc.
  - apply andb_true_iff in Hc as [Hc _]. apply Ascii.eqb_eq in Hc as ->.
    cbn [has_backslash]. now rewrite IH.
  - cbn [has_backslash]. now rewrite IH.
Qed.

Lemma has_backslash_replaced (s : string) :
  has_backslash (Js.backslashes_to_slashes s) = false.
Proof.
  induction s as [|c s IH]; [done|].
  cbn [Js.backslashes_to_slashes has_backslash]. rewrite IH.
  destruct (Ascii.eqb c Js.backslash) eqn:Hc; [done|]. now rewrite Hc.
Qed.

Lemma backslashes_fixed (s : string) :
  has_backslash s = false → Js.backslashes_to_slashes s = s.
Proof.
  induction s as [|c s IH]; [done|].
  cbn [Js.backslashes_to_slashes has_backslash].
  intros [Hc Hs]%orb_false_iff. rewrite Hc. now rewrite IH.
Qed.

(** X7. [normalizePath] gives a path that starts with a slash and has
    no backslash and no two slashes in a row; it leaves such a path as it
    is, so normalising twice is normalising once. *)
Theorem normalizePath_normal_form (filePath : string) :
  let normalized := WebDAVResourceLibrary.normalizePath filePath in
  Js.startsWith normalized "/" = true
  ∧ has_backslash normalized = false
  ∧ has_double_slash normalized = false
  ∧ WebDAVResourceLibrary.normalizePath normalized = normalized
  ∧ (Js.startsWith filePath "/" = true → has_backslash filePath = false →
     has_double_slash filePath = false → normalized = filePath).
Proof.
  assert (Hfix : ∀ p, Js.startsWith p "/" = true → has_backslash p = false →
                      has_double_slash p = false →
                      WebDAVResourceLibrary.normalizePath p = p).
  { intros p Hs Hb Hd. unfold WebDAVResourceLibrary.normalizePath.
    rewrite (backslashes_fixed p Hb), Hs. simpl negb. cbv iota.
    now apply collapse_fixed. }
  assert (Hstart : Js.startsWith (WebDAVResourceLibrary.normalizePath filePath) "/"
                   = true).
  { unfold WebDAVResourceLibrary.normalizePath. rewrite startsWith_collapse.
    destruct (Js.startsWith (Js.backslashes_to_slashes filePath) "/") eqn:Hs;
      simpl negb; cbv iota; [done|].
    apply (startsWith_slash_cons Js.slash). }
  assert (Hback : has_backslash (WebDAVResourceLibrary.normalizePath filePath)
                  = false).
  { unfold WebDAVResourceLibrary.normalizePath. rewrite has_backslash_collapse.
    destruct (negb _); [|apply has_backslash_replaced].
    rewrite has_backslash_app. now rewrite has_backslash_replaced. }
  assert (Hdouble : has_double_slash (WebDAVResourceLibrary.normalizePath filePath)
                    = false) by apply double_slash_collapse.
  intros normalized. repeat split; try done.
  - now apply Hfix.
  - apply Hfix.
Qed.

(* ===================================================================== *)
(** * What the listings of the providers hold                             *)
(* ===================================================================== *)

Lemma sort_insert_perm {A} (cmp : A → A → Z) (x : A) (l : list A) :
  BaseResourceLibrary.sort_insert cmp x l ≡ₚ x :: l.
Proof.
  induction l as [|y l IH]; simpl; [done|].
  destruct (cmp x y <=? 0)%Z; [done|].
  rewrite IH. apply Permutation_swap.
Qed.

Lemma array_sort_perm {A} (cmp : A → A → Z) (l : list A) :
  BaseResourceLibrary.array_sort cmp l ≡ₚ l.
Proof.
  unfold BaseResourceLibrary.array_sort.
  induction l as [|x l IH]; simpl; [done|].
  now rewrite sort_insert_perm, IH.
Qed.

Lemma List_filter_partition_perm {A} (f : A → bool) (l : list A) :
  List.filter f l ++ List.filter (λ x, negb (f x)) l ≡ₚ l.
Proof.
  induction l as [|x l IH]; simpl; [done|].
  destruct (f x); simpl.
  - now rewrite IH.
  - rewrite <- Permutation_middle. now rewrite IH.
Qed.

(** X8. [sortResources] gives the entries it was given, each as often
    as it was given, the folders before all the others. *)
Theorem sortResources_keeps_and_groups `{Locale} (resources : list ResourceInfo) :
  BaseResourceLibrary.sortResources resources ≡ₚ resources
  ∧ ∃ folders others,
      BaseResourceLibrary.sortResources resources = folders ++ others
      ∧ Forall (λ r, type r = ResourceType.folder) folders
      ∧ Forall (λ r, type r ≠ ResourceType.folder) others.
Proof.
  unfold BaseResourceLibrary.sortResources. split.
  - rewrite List_filter_partition_perm. apply array_sort_perm.
  - eexists _, _. split; [reflexivity|]. split.
    + apply Forall_forall. intros r [_ Hr]%elem_of_List_filter.
      now apply bool_decide_eq_true in Hr.
    + apply Forall_forall. intros r [_ Hr]%elem_of_List_filter.
      apply negb_true_iff, bool_decide_eq_false in Hr. done.
Qed.

(** X9. An entry of a listing of a local library has a name that does
    not start with a dot, and the path [path.join(dirPath, name)].  It is
    a folder without size and extension, or a file whose type is the one
    its extension gives, video, image or audio, and whose extension is
    among the allowed ones when the library allows some only. *)
Theorem local_list_entries
    {D : Type} `{FsPromises D} `{Locale} (this : LocalResourceConfig)
    (dirPath : string) (d : D) (l : list ResourceInfo) (r : ResourceInfo) :
  LocalResourceLibrary.list this dirPath d = Ok l → r ∈ l →
  Js.startsWith (name r) "." = false
  ∧ path r = NodePath.join2 dirPath (name r)
  ∧ ((type r = ResourceType.folder ∧ size r = None ∧ extension r = None)
     ∨ (type r ≠ ResourceType.folder
        ∧ type r = BaseResourceLibrary.getResourceType (name r)
        ∧ extension r = Some (NodePath.extname (name r))
        ∧ match l_allowedExtensions this with
          | Some (_ :: _ as allowed) =>
              Js.includes allowed (Js.toLowerCase (NodePath.extname (name r)))
              = true
          | _ => True
          end)).
Proof.
  intros Hl Hin.
  destruct (proj1 (local_list_elem this dirPath d r))
    as (items & item & _ & _ & Hdot & Hentry); [eauto|].
  unfold LocalResourceLibrary.list_entry in Hentry. unfold_async.
  destruct (d_isDirectory item).
  - injection Hentry as <-. simpl. split; [done|]. split; [done|]. by left.
  - destruct (fs_stat _ d) as [stats|e]; simpl in Hentry; [|done].
    destruct (l_allowedExtensions this) as [[|a allowed]|] eqn:Ha;
      simpl in Hentry.
    + destruct (bool_decide _) eqn:Hty in Hentry; [|done].
      injection Hentry as <-. apply bool_decide_eq_true in Hty. simpl.
      split; [done|]. split; [done|]. by right.
    + destruct (negb _) eqn:Hinc in Hentry; [done|].
      destruct (bool_decide _) eqn:Hty in Hentry; [|done].
      injection Hentry as <-. apply bool_decide_eq_true in Hty. simpl.
      split; [done|]. split; [done|]. right.
      apply negb_false_iff in Hinc. done.
    + destruct (bool_decide _) eqn:Hty in Hentry; [|done].
      injection Hentry as <-. apply bool_decide_eq_true in Hty. simpl.
      split; [done|]. split; [done|]. by right.
Qed.

Lemma local_list_entries_witness :
  ∃ l r,
    LocalResourceLibrary.list (mkLocalResourceConfig "/data" None) "/videos/food"
      Examples.foodTree = Ok l
    ∧ l !! 1%nat = Some r
    ∧ name r = "a.mp4"
    ∧ path r = NodePath.join2 "/videos/food" (name r)
    ∧ Js.startsWith (name r) "." = false.
Proof.
  destruct (LocalResourceLibrary.list (mkLocalResourceConfig "/data" None)
              "/videos/food" Examples.foodTree) as [l|e] eqn:Hl;
    [|vm_compute in Hl; discriminate].
  destruct (l !! 1%nat) as [r|] eqn:Hr.
  - exists l, r. split; [exact eq_refl|]. split; [exact Hr|].
    pose proof (list_elem_of_lookup_2 _ _ _ Hr) as Hin.
    pose proof (local_list_entries _ _ _ l r Hl Hin) as (Hdot & Hpath & _).
    split; [|split; assumption].
    assert (Hval := Hl). vm_compute in Hval. injection Hval as <-.
    vm_compute in Hr. injection Hr as <-. reflexivity.
  - assert (Hval := Hl). vm_compute in Hval. injection Hval as <-.
    vm_compute in Hr. discriminate Hr.
Defined.

Section WebDAVListing.
Context {R : Type} `{WebDAVClient R} `{Locale}.
Variable this : WebDAVResourceConfig.

Lemma webdav_list_loop_elem (dirPath : string) (items : list FileStat) (c : R)
    (r : ResourceInfo) :
  r ∈ WebDAVResourceLibrary.list_loop this dirPath items c ↔
  ∃ item, item ∈ items ∧ Js.startsWith (fst_basename item) "." = false
          ∧ fst_basename item ≠ "." ∧ fst_basename item ≠ ".."
          ∧ WebDAVResourceLibrary.list_entry this dirPath item c = Ok (Some r).
Proof.
  induction items as [|item items IH]; cbn [WebDAVResourceLibrary.list_loop].
  - split; [intros Hin; inversion Hin|intros (item & Hin & _); inversion Hin].
  - rewrite elem_of_app, IH. split.
    + intros [Hhere | (item' & Hin & Hrest)].
      * exists item. split; [apply list_elem_of_here|].
        destruct (Js.startsWith (fst_basename item) "."); [inversion Hhere|].
        split; [done|].
        destruct (Js.str_eqb (fst_basename item) ".") eqn:Hd1;
          [inversion Hhere|].
        destruct (Js.str_eqb (fst_basename item) "..") eqn:Hd2;
          [inversion Hhere|].
        apply str_eqb_false in Hd1, Hd2. split; [done|]. split; [done|].
        cbn [orb] in Hhere.
        destruct (WebDAVResourceLibrary.list_entry this dirPath item c)
          as [[r'|]|e]; simpl in Hhere; try (inversion Hhere; fail).
        apply list_elem_of_singleton in Hhere as ->. done.
      * exists item'. split; [now apply list_elem_of_further|done].
    + intros (item' & Hin & Hdot & Hd1 & Hd2 & Hentry).
      apply elem_of_cons in Hin as [-> | Hin].
      * left. rewrite Hdot, (proj2 (str_eqb_false _ _) Hd1),
          (proj2 (str_eqb_false _ _) Hd2), Hentry.
        simpl. apply list_elem_of_here.
      * right. exists item'. done.
Qed.

Lemma webdav_list_elem (dirPath : string) (c : R) (r : ResourceInfo) :
  (∃ l, WebDAVResourceLibrary.list this dirPath c = Ok l ∧ r ∈ l) ↔
  ∃ items item,
    dav_getDirectoryContents (WebDAVResourceLibrary.fullPathOf this dirPath) c
    = Ok items
    ∧ item ∈ items ∧ Js.startsWith (fst_basename item) "." = false
    ∧ fst_basename item ≠ "." ∧ fst_basename item ≠ ".."
    ∧ WebDAVResourceLibrary.list_entry this dirPath item c = Ok (Some r).
Proof.
  unfold WebDAVResourceLibrary.list. unfold_async.
  destruct (dav_getDirectoryContents _ c) as [items|e]; simpl.
  - split.
    + intros (l & [= <-] & Hin).
      apply elem_of_sortResources, webdav_list_loop_elem in Hin
        as (item & Hin & Hrest).
      exists items, item. done.
    + intros (items' & item & [= <-] & Hrest). eexists. split; [done|].
      apply elem_of_sortResources, webdav_list_loop_elem. eauto.
  - split.
    + intros (l & [= <-] & Hin). inversion Hin.
    + intros (items' & item & [=] & _).
Qed.

Lemma withMedia_keeps (itemPath : string) (info : ResourceInfo) (c : R) :
  let info' := WebDAVResourceLibrary.withMedia this itemPath info c in
  name info' = name info ∧ path info' = path info ∧ type info' = type info
  ∧ size info' = size info ∧ modifiedTime info' = modifiedTime info
  ∧ extension info' = extension info.
Proof.
  unfold WebDAVResourceLibrary.withMedia.
  destruct (_ || _); [|done].
  destruct (catch _ _) as [[meta|]|e]; done.
Qed.

End WebDAVListing.

(** X10. An entry of a listing of a WebDAV library has a name that does
    not start with a dot, and the path [path.join(dirPath, name)] with
    its backslashes turned into slashes.  It is a folder without size, or
    a file whose type is the one its extension gives, video, image or
    audio. *)
Theorem webdav_list_entries
    {R : Type} `{WebDAVClient R} `{Locale} (this : WebDAVResourceConfig)
    (dirPath : string) (c : R) (l : list ResourceInfo) (r : ResourceInfo) :
  WebDAVResourceLibrary.list this dirPath c = Ok l → r ∈ l →
  Js.startsWith (name r) "." = false
  ∧ path r = Js.backslashes_to_slashes (NodePath.join2 dirPath (name r))
  ∧ has_backslash (path r) = false
  ∧ ((type r = ResourceType.folder ∧ size r = None ∧ extension r = None)
     ∨ (type r ≠ ResourceType.folder
        ∧ type r = BaseResourceLibrary.getResourceType (name r))).
Proof.
  intros Hl Hin.
  destruct (proj1 (webdav_list_elem this dirPath c r))
    as (items & item & _ & _ & Hdot & _ & _ & Hentry); [eauto|].
  unfold WebDAVResourceLibrary.list_entry in Hentry. unfold_async.
  destruct (fst_isDirectory item).
  - injection Hentry as <-. cbn [name path type size extension].
    split; [done|]. split; [done|].
    split; [apply has_backslash_replaced|]. by left.
  - destruct (bool_decide _) eqn:Hty in Hentry; [|done].
    injection Hentry as <-. apply bool_decide_eq_true in Hty.
    match goal with
    | |- context [WebDAVResourceLibrary.withMedia this ?p ?i c] =>
        destruct (withMedia_keeps this p i c) as (-> & -> & -> & _)
    end.
    cbn [name path type].
    split; [done|]. split; [done|].
    split; [apply has_backslash_replaced|]. by right.
Qed.

Lemma webdav_list_entries_witness :
  ∃ l r,
    WebDAVResourceLibrary.list Examples.davConfig "/v" (Some Examples.davTree)
    = Ok l
    ∧ l !! 1%nat = Some r
    ∧ name r = "a.mp4"
    ∧ has_backslash (path r) = false
    ∧ Js.startsWith (name r) "." = false.
Proof.
  destruct (WebDAVResourceLibrary.list Examples.davConfig "/v"
              (Some Examples.davTree)) as [l|e] eqn:Hl;
    [|vm_compute in Hl; discriminate Hl].
  destruct (l !! 1%nat) as [r|] eqn:Hr.
  - exists l, r. split; [exact eq_refl|]. split; [exact Hr|].
    pose proof (list_elem_of_lookup_2 _ _ _ Hr) as Hin.
    pose proof (webdav_list_entries _ _ _ l r Hl Hin) as (Hdot & _ & Hpath & _).
    split; [|split; assumption].
    assert (Hval := Hl). vm_compute in Hval. injection Hval as <-.
    vm_compute in Hr. injection Hr as <-. reflexivity.
  - assert (Hval := Hl). vm_compute in Hval. injection Hval as <-.
    vm_compute in Hr. discriminate Hr.
Defined.

(* ===================================================================== *)
(** * [search]                                                            *)
(* ===================================================================== *)

Section SearchFacts.
Variable listDir : string → result (list ResourceInfo).
Variable keywordLower : string.
Variable type_option : option ResourceType.
Variable maxDepth : Z.

Local Abbreviation nameMatches := (ResourceSearch.nameMatches keywordLower).
Local Abbreviation typeMatches := (ResourceSearch.typeMatches type_option).
Local Abbreviation searchItems :=
  (ResourceSearch.searchItems keywordLower type_option).
Local Abbreviation searchDir :=
  (ResourceSearch.searchDir listDir keywordLower type_option maxDepth).
Local Abbreviation found :=
  (ResourceSearch.found listDir keywordLower type_option).

Lemma searchItems_found recurse deeper (items : list ResourceInfo) :
  (∀ p results out, recurse p results = Some out →
     ∃ added, out = results ++ added ∧ Forall found added) →
  (∀ i, i ∈ items → ∃ dirPath l, listDir dirPath = Ok l ∧ i ∈ l) →
  ∀ results out,
    searchItems recurse deeper items results = Some out →
    ∃ added, out = results ++ added ∧ Forall found added.
Proof.
  intros Hrec. induction items as [|item rest IH]; intros Hsub results out.
  { intros [= <-]. exists []. now rewrite app_nil_r. }
  cbn [ResourceSearch.searchItems].
  set (results1 := if nameMatches item
                   then (if typeMatches item then results ++ [item] else results)
                   else results).
  assert (H1 : ∃ added, results1 = results ++ added ∧ Forall found added).
  { unfold results1. destruct (nameMatches item) eqn:Hn;
      [destruct (typeMatches item) eqn:Ht|].
    - exists [item]. split; [done|]. repeat constructor; try done.
      apply Hsub, list_elem_of_here.
    - exists []. now rewrite app_nil_r.
    - exists []. now rewrite app_nil_r. }
  destruct H1 as (added1 & Hr1 & Hf1).
  assert (Hrest : ∀ i, i ∈ rest → ∃ dirPath l, listDir dirPath = Ok l ∧ i ∈ l).
  { intros i Hi. apply Hsub. now apply list_elem_of_further. }
  destruct (bool_decide (type item = ResourceType.folder) && deeper).
  - destruct (recurse (path item) results1) as [results2|] eqn:Hr; [|done].
    apply Hrec in Hr as (added2 & -> & Hf2).
    intros Hloop. apply IH in Hloop as (added3 & -> & Hf3); [|done].
    exists (added1 ++ added2 ++ added3). rewrite Hr1, <- !app_assoc.
    split; [done|]. rewrite !Forall_app. done.
  - intros Hloop. apply IH in Hloop as (added3 & -> & Hf3); [|done].
    exists (added1 ++ added3). rewrite Hr1, <- !app_assoc.
    split; [done|]. rewrite !Forall_app. done.
Qed.

Lemma searchDir_found (fuel : nat) :
  ∀ dirPath depth results out,
    searchDir fuel dirPath depth results = Some out →
    ∃ added, out = results ++ added ∧ Forall found added.
Proof.
  induction fuel as [|fuel IH]; intros dirPath depth results out; [done|].
  cbn [ResourceSearch.searchDir].
  destruct (depth >? maxDepth)%Z.
  { intros [= <-]. exists []. now rewrite app_nil_r. }
  destruct (listDir dirPath) as [items|e] eqn:Hl.
  2:{ intros [= <-]. exists []. now rewrite app_nil_r. }
  apply searchItems_found; [|eauto].
  intros p results' out'. apply IH.
Qed.

Lemma searchItems_total recurse deeper (items : list ResourceInfo) :
  (deeper = true → ∀ p results, ∃ out, recurse p results = Some out) →
  ∀ results, ∃ out, searchItems recurse deeper items results = Some out.
Proof.
  intros Hrec. induction items as [|item rest IH]; intros results; [by eexists|].
  cbn [ResourceSearch.searchItems].
  destruct (bool_decide _ && deeper) eqn:Hdeep; [|apply IH].
  apply andb_true_iff in Hdeep as [_ Hd].
  destruct (Hrec Hd (path item)
              (if nameMatches item
               then (if typeMatches item then results ++ [item] else results)
               else results)) as [results2 ->].
  apply IH.
Qed.

(** The recursion of [searchDir] ends: fuel for the levels down to
    [maxDepth] is enough. *)
Lemma searchDir_total (fuel : nat) :
  ∀ dirPath depth results,
    (0 < fuel)%nat → (maxDepth - depth < Z.of_nat fuel)%Z →
    ∃ out, searchDir fuel dirPath depth results = Some out.
Proof.
  induction fuel as [|fuel IH]; intros dirPath depth results Hpos Hfuel; [lia|].
  cbn [ResourceSearch.searchDir].
  destruct (depth >? maxDepth)%Z; [eauto|].
  destruct (listDir dirPath) as [items|e]; [|eauto].
  apply searchItems_total. intros Hd%Z.ltb_lt p results'.
  apply IH; lia.
Qed.

Lemma searchItems_flat recurse (items : list ResourceInfo) :
  ∀ results,
    searchItems recurse false items results
    = Some (results
            ++ List.filter (λ item, nameMatches item && typeMatches item) items).
Proof.
  induction items as [|item rest IH]; intros results.
  { simpl. now rewrite app_nil_r. }
  cbn [ResourceSearch.searchItems List.filter]. rewrite andb_false_r, IH.
  destruct (nameMatches item); [destruct (typeMatches item)|]; simpl;
    now rewrite <- ?app_assoc.
Qed.

End SearchFacts.

(** X11. [search] of the two providers returns, whatever [maxDepth]
    and the listings are, and every result is an entry of some listing
    whose lower-cased name includes the lower-cased keyword and, with a
    type given, that has this type.  With a negative [maxDepth] there is
    no result; with [maxDepth = 0] the results are the matching entries
    of the listing of the root, in its order, and no folder is entered. *)
Theorem search_results
    (listDir : string → result (list ResourceInfo))
    (keyword : string) (type_option : option ResourceType) (maxDepth : Z) :
  ∃ results,
    ResourceSearch.search listDir keyword type_option maxDepth = Some results
    ∧ Forall (λ r,
        JsString.includes (Js.toLowerCase (name r)) (Js.toLowerCase keyword) = true
        ∧ (∀ ty, type_option = Some ty → type r = ty)
        ∧ ∃ dirPath l, listDir dirPath = Ok l ∧ r ∈ l) results
    ∧ ((maxDepth < 0)%Z → results = [])
    ∧ (maxDepth = 0%Z →
       results
       = List.filter
           (λ item,
              JsString.includes (Js.toLowerCase (name item)) (Js.toLowerCase keyword)
              && match type_option with
                 | None => true
                 | Some ty => bool_decide (type item = ty)
                 end)
           (match listDir "" with Ok items => items | Err _ => [] end)).
Proof.
  unfold ResourceSearch.search.
  destruct (searchDir_total listDir (Js.toLowerCase keyword) type_option maxDepth
              (S (Z.to_nat maxDepth)) "" 0 []) as [results Hrun]; [lia|lia|].
  exists results. split; [done|]. split; [|split].
  - apply searchDir_found in Hrun as (added & -> & Hfound).
    eapply Forall_impl; [exact Hfound|].
    intros r (Hn & Ht & Hl). split; [exact Hn|]. split; [|exact Hl].
    intros ty ->. unfold ResourceSearch.typeMatches in Ht.
    now apply bool_decide_eq_true in Ht.
  - intros Hneg. cbn [ResourceSearch.searchDir] in Hrun.
    rewrite Z.gtb_ltb, (proj2 (Z.ltb_lt maxDepth 0) Hneg) in Hrun. congruence.
  - intros ->. cbn [Z.to_nat ResourceSearch.searchDir] in Hrun.
    change (0 >? 0)%Z with false in Hrun. change (0 <? 0)%Z with false in Hrun.
    cbv iota in Hrun.
    revert Hrun. destruct (listDir "") as [items|e];
      [|intros [= <-]; reflexivity].
    rewrite searchItems_flat. intros [= <-]. reflexivity.
Qed.

(** The searches of the providers are that search over their
    listings. *)
Lemma provider_search_unfold
    {D R : Type} `{FsPromises D} `{WebDAVClient R} `{Locale}
    (local : LocalResourceConfig) (dav : WebDAVResourceConfig)
    (keyword : string) (type_option : option ResourceType) (maxDepth : Z)
    (d : D) (c : R) :
  LocalResourceSearch.search local keyword type_option maxDepth d
  = ResourceSearch.search (λ p, LocalResourceLibrary.list local p d)
      keyword type_option maxDepth
  ∧ WebDAVResourceSearch.search dav keyword type_option maxDepth c
    = ResourceSearch.search (λ p, WebDAVResourceLibrary.list dav p c)
        keyword type_option maxDepth.
Proof. done. Qed.

(* ===================================================================== *)
(** * Information on resources, and the check of a resource path          *)
(* ===================================================================== *)

Section InfoFacts.
Context {D R : Type} `{FsPromises D} `{WebDAVClient (option R)} `{Locale}.

(** [getInfo] of either provider answers for the path it was asked. *)
Lemma getInfo_path (library : Library) (p : string) (w : World D R)
    (info : ResourceInfo) :
  IResourceLibrary.getInfo library p w = Ok info →
  path info = p ∧ name info = NodePath.basename p.
Proof.
  destruct library as [this|this]; simpl.
  - unfold LocalResourceLibrary.getInfo. unfold_async.
    destruct (fs_stat _ (disk w)); [|done]. intros [= <-]. done.
  - unfold WebDAVResourceLibrary.getInfo. unfold_async.
    destruct (dav_stat _ _); [|done]. simpl. intros [= <-].
    match goal with
    | |- context [WebDAVResourceLibrary.withMedia this ?q ?i ?c] =>
        destruct (withMedia_keeps this q i c) as (-> & -> & _)
    end.
    done.
Qed.

Lemma getInfoEach_spec (instance : Library) (w : World D R)
    (paths : list string) :
  ∀ results,
    ResourceInfoService.getInfoEach instance paths results w
    = results
      ++ omap (λ p, match IResourceLibrary.getInfo instance p w with
                    | Ok info => Some info
                    | Err _ => None
                    end) paths.
Proof.
  induction paths as [|p rest IH]; intros results; simpl.
  - now rewrite app_nil_r.
  - unfold_async. destruct (IResourceLibrary.getInfo instance p w) as [info|e];
      simpl; rewrite IH; [now rewrite <- app_assoc|done].
Qed.

End InfoFacts.

(** X12. [getMultipleResourceInfo] raises only when the library
    instance cannot be had.  Otherwise it returns the information of the
    paths whose [getInfo] returns, in the order of the request, each with
    the path it was asked for; a path whose [getInfo] raises is left out
    and changes nothing for the others. *)
Theorem getMultipleResourceInfo_skips_failures
    {D R : Type} `{FsPromises D} `{WebDAVClient (option R)}
    (libraryId : Z) (paths : list string) (w : World D R) :
  match ResourceService.getLibraryInstance libraryId w with
  | Err e =>
      ResourceInfoService.getMultipleResourceInfo libraryId paths w = Err e
  | Ok instance =>
      ∃ results,
        ResourceInfoService.getMultipleResourceInfo libraryId paths w = Ok results
        ∧ results
          = omap (λ p, match IResourceLibrary.getInfo instance p w with
                       | Ok info => Some info
                       | Err _ => None
                       end) paths
        ∧ map path results
          = List.filter (λ p, is_ok (IResourceLibrary.getInfo instance p w)) paths
        ∧ (length results ≤ length paths)%nat
  end.
Proof.
  unfold ResourceInfoService.getMultipleResourceInfo. unfold_async.
  destruct (ResourceService.getLibraryInstance libraryId w) as [instance|e];
    [|done].
  eexists. split; [reflexivity|]. rewrite getInfoEach_spec. simpl.
  split; [done|]. unfold omap.
  induction paths as [|p rest [IH1 IH2]]; [done|]. simpl.
  destruct (IResourceLibrary.getInfo instance p w) as [info|e] eqn:Hinfo; simpl.
  - apply getInfo_path in Hinfo as [-> _]. rewrite IH1. split; [done|lia].
  - split; [done|lia].
Qed.

(** X13. [addResourcePathToTheme] adds the path, by
    [ThemeModel.addResourcePath], exactly when [getResourceInfo] returns
    an entry of type [folder]; in every other case it changes nothing and
    raises [文件夹不存在或无法访问], also for a path that is no folder.  On a
    local library the check passes exactly when the path can be stat'ed
    and is a directory or has none of the known video, image and audio
    extensions. *)
Theorem addResourcePathToTheme_accepts
    {D R : Type} `{FsPromises D} `{WebDAVClient (option R)} {A : Type}
    (addResourcePath : Z → Z → string → Async (World D R) A)
    (themeId libraryId : Z) (folderPath : string) (w : World D R) :
  let accepted :=
    match ResourceInfoService.getResourceInfo libraryId folderPath w with
    | Ok info => bool_decide (type info = ResourceType.folder)
    | Err _ => false
    end in
  ThemeResourcePaths.addResourcePathToTheme addResourcePath themeId libraryId
    folderPath w
  = (if accepted then addResourcePath themeId libraryId folderPath w
     else (Err (Error "文件夹不存在或无法访问"), w))
  ∧ ∀ this,
      ResourceService.getLibraryInstance libraryId w = Ok (LocalLib this) →
      accepted
      = match fs_stat (NodePath.join2 (l_basePath this) folderPath) (disk w) with
        | Ok stats =>
            st_isDirectory stats
            || let ext := NodePath.extname (NodePath.basename folderPath) in
               negb (BaseResourceLibrary.isVideo ext)
               && negb (BaseResourceLibrary.isImage ext)
               && negb (BaseResourceLibrary.isAudio ext)
        | Err _ => false
        end.
Proof.
  intros accepted. split.
  - unfold ThemeResourcePaths.addResourcePathToTheme, accepted. unfold_async.
    destruct (ResourceInfoService.getResourceInfo libraryId folderPath w)
      as [info|e]; [|done].
    destruct (decide (type info = ResourceType.folder)) as [Hf|Hf].
    + rewrite (bool_decide_eq_false_2 (type info ≠ ResourceType.folder)) by tauto.
      now rewrite bool_decide_eq_true_2.
    + rewrite (bool_decide_eq_true_2 (type info ≠ ResourceType.folder)) by done.
      now rewrite bool_decide_eq_false_2.
  - intros this Hlib. unfold accepted, ResourceInfoService.getResourceInfo.
    unfold_async. rewrite Hlib. simpl.
    unfold LocalResourceLibrary.getInfo. unfold_async.
    destruct (fs_stat _ (disk w)) as [stats|e]; [|done]. simpl.
    destruct (st_isDirectory stats); [done|]. simpl.
    unfold BaseResourceLibrary.getResourceType.
    destruct (BaseResourceLibrary.isVideo _); [done|].
    destruct (BaseResourceLibrary.isImage _); [done|].
    destruct (BaseResourceLibrary.isAudio _); done.
Qed.

(* ===================================================================== *)
(** * The cache of library instances                                      *)
(* ===================================================================== *)

Section CacheFacts.
Context {D R : Type}.

Lemma cached_getLibraryInstance_Ok (id : Z) (s s1 : Cached D R) (inst : Library) :
  CachedResourceService.getLibraryInstance id s = (Ok inst, s1) →
  libraryInstances s1 !! id = Some inst ∧ world s1 = world s
  ∧ (∀ j, j ≠ id → libraryInstances s1 !! j = libraryInstances s !! j).
Proof.
  unfold CachedResourceService.getLibraryInstance.
  destruct (libraryInstances s !! id) as [inst'|] eqn:Hc.
  - intros [= <- <-]. done.
  - destruct (ResourceService.getLibraryInstance id (world s)); [|done].
    intros [= <- <-]. simpl. split; [apply lookup_insert_eq|].
    split; [done|]. intros j Hj. now apply lookup_insert_ne.
Qed.

Lemma cached_getLibraryInstance_hit (id : Z) (s : Cached D R) (inst : Library) :
  libraryInstances s !! id = Some inst →
  CachedResourceService.getLibraryInstance id s = (Ok inst, s).
Proof.
  intros Hc. unfold CachedResourceService.getLibraryInstance. now rewrite Hc.
Qed.

End CacheFacts.

(** X14. Once [getLibraryInstance] has returned an instance for a
    library, it returns that instance again without reading the tables,
    also after an [updateLibrary] of that library without a [config],
    whatever the update did to the row; a call that raises caches
    nothing. *)
Theorem cached_instance_outlives_update
    {D R A : Type} (id : Z) (s s1 : Cached D R) (inst : Library)
    (modelUpdate : Async (World D R) A) :
  CachedResourceService.getLibraryInstance id s = (Ok inst, s1) →
  let s2 := (CachedResourceService.updateLibrary id false modelUpdate s1).2 in
  world s2 = (modelUpdate (world s)).2
  ∧ CachedResourceService.getLibraryInstance id s2 = (Ok inst, s2)
  ∧ (∀ w' : World D R, CachedResourceService.getLibraryInstance id
             (mkCached (libraryInstances s1) w')
           = (Ok inst, mkCached (libraryInstances s1) w'))
  ∧ (∀ j e s', CachedResourceService.getLibraryInstance j s = (Err e, s') →
               s' = s).
Proof.
  intros Hrun s2.
  apply cached_getLibraryInstance_Ok in Hrun as (Hc & Hw & _).
  assert (Hs2 : s2 = mkCached (libraryInstances s1) (modelUpdate (world s)).2).
  { unfold s2, CachedResourceService.updateLibrary,
      CachedResourceService.on_tables. rewrite Hw.
    now destruct (modelUpdate (world s)). }
  split; [now rewrite Hs2|]. split; [|split].
  - apply cached_getLibraryInstance_hit. now rewrite Hs2.
  - intros w'. now apply cached_getLibraryInstance_hit.
  - intros j e s'. unfold CachedResourceService.getLibraryInstance.
    destruct (libraryInstances s !! j); [done|].
    destruct (ResourceService.getLibraryInstance j (world s)); [done|].
    now intros [= _ <-].
Qed.

(** X15. [updateLibrary] with a [config], and [deleteLibrary], of a
    library whose id is not 0 forget the cached instance of that library
    and of no other, so that the next [getLibraryInstance] of it reads
    the tables; [clearCache] without an id, and with the id 0, forgets
    all instances. *)
Theorem clearing_forgets_one_instance
    {D R A : Type} (id : Z) (s : Cached D R)
    (modelCall : Async (World D R) A) :
  (id ≠ 0%Z →
   ∀ s2, (s2 = (CachedResourceService.updateLibrary id true modelCall s).2
          ∨ s2 = (CachedResourceService.deleteLibrary id modelCall s).2) →
     world s2 = (modelCall (world s)).2
     ∧ libraryInstances s2 !! id = None
     ∧ (∀ j, j ≠ id → libraryInstances s2 !! j = libraryInstances s !! j)
     ∧ (CachedResourceService.getLibraryInstance id s2).1
       = ResourceService.getLibraryInstance id (world s2))
  ∧ libraryInstances (CachedResourceService.clearCache None s) = ∅
  ∧ libraryInstances (CachedResourceService.clearCache (Some 0%Z) s) = ∅.
Proof.
  split; [|done].
  intros Hid s2 Hs2.
  assert (Heq : s2 = mkCached (delete id (libraryInstances s))
                       (modelCall (world s)).2).
  { destruct Hs2 as [-> | ->];
      unfold CachedResourceService.updateLibrary,
        CachedResourceService.deleteLibrary, CachedResourceService.on_tables,
        CachedResourceService.clearCache;
      rewrite bool_decide_eq_false_2 by done; simpl;
      now destruct (modelCall (world s)). }
  rewrite Heq. simpl. split; [done|].
  split; [apply lookup_delete_eq|].
  split; [intros j Hj; now apply lookup_delete_ne|].
  unfold CachedResourceService.getLibraryInstance. simpl.
  rewrite lookup_delete_eq.
  now destruct (ResourceService.getLibraryInstance id _).
Qed.

Lemma cached_instance_outlives_update_witness :
  let this := mkLocalResourceConfig "/data" None in
  let deactivate : Async Examples.MemWorld unit :=
    λ w, (Ok (),
          mkWorld (themes w)
            (<[1%Z := mkResourceLibraryRow "local" false (LocalConfig this)]>
               (resourceLibraries w))
            (uploadTasks w) (disk w) (servers w)) in
  let s1 := (CachedResourceService.getLibraryInstance 1
               (mkCached ∅ Examples.foodWorld)).2 in
  let s2 := (CachedResourceService.updateLibrary 1 false deactivate s1).2 in
  ResourceService.getLibraryInstance 1 (world s2)
  = Err (Error "资源库 local 未激活")
  ∧ (CachedResourceService.getLibraryInstance 1 s2).1 = Ok (LocalLib this).
Proof.
  intros this deactivate s1 s2. split; [vm_compute; reflexivity|].
  subst s2 s1.
  assert (Hr : (CachedResourceService.getLibraryInstance 1
                  (mkCached ∅ Examples.foodWorld)).1 = Ok (LocalLib this))
    by (vm_compute; reflexivity).
  destruct (CachedResourceService.getLibraryInstance 1
              (mkCached ∅ Examples.foodWorld)) as [r s1] eqn:Hrun.
  simpl in Hr. subst r.
  destruct (cached_instance_outlives_update 1 _ s1 _ deactivate Hrun)
    as (_ & Hhit & _).
  cbn [snd]. rewrite Hhit. reflexivity.
Defined.

(* ===================================================================== *)
(** * Executing a batch of upload tasks                                   *)
(* ===================================================================== *)

Section ExecutionFacts.
Context {D R : Type} `{FsPromises D} `{WebDAVClient (option R)} `{Locale}.
Context `{UploadRunner (World D R)}.

(** One turn of the loop pushes one result, for its task, and never
    raises. *)
Lemma execute_turn (themeId : Z) (autoArchive : bool) (taskId : Z)
    (results : list ExecuteResult) (w : World D R) :
  ∃ entry w1,
    try_catch (ThemeExecution.executeOne themeId autoArchive taskId results)
      (λ error,
         mret (results ++ [mkExecuteResult taskId false (Some (message error))])) w
    = (Ok (results ++ [entry]), w1)
    ∧ er_taskId entry = taskId.
Proof.
  unfold ThemeExecution.executeOne. unfold_async.
  destruct (executeTask taskId w) as [[result|e] w1]; [|by eexists _, _].
  destruct (ur_success result && autoArchive); [|by eexists _, _].
  destruct (getTask taskId w1) as [[task|]|e]; [|by eexists _, _..].
  destruct (ThemeService.archiveVideo themeId _ _ w1) as [[[]|e] w2];
    by eexists _, _.
Qed.

Lemma executeEach_ids (themeId : Z) (autoArchive : bool) (taskIds : list Z) :
  ∀ results w,
    ∃ out w',
      ThemeExecution.executeEach themeId autoArchive taskIds results w
      = (Ok out, w')
      ∧ map er_taskId out = map er_taskId results ++ taskIds.
Proof.
  induction taskIds as [|taskId rest IH]; intros results w.
  - exists results, w. now rewrite app_nil_r.
  - cbn [ThemeExecution.executeEach]. unfold mbind at 1, async_bind at 1.
    destruct (execute_turn themeId autoArchive taskId results w)
      as (entry & w1 & -> & Hid).
    destruct (IH (results ++ [entry]) w1) as (out & w' & -> & Hout).
    exists out, w'. split; [done|].
    rewrite Hout, map_app, <- app_assoc. simpl. now rewrite Hid.
Qed.

Lemma executeEach_without_archive (themeId : Z) (taskIds : list Z) :
  ∀ results w,
    ThemeExecution.executeEach themeId false taskIds results w
    = ThemeExecution.uploadEach taskIds results w.
Proof.
  induction taskIds as [|taskId rest IH]; intros results w; [done|].
  cbn [ThemeExecution.executeEach ThemeExecution.uploadEach].
  unfold ThemeExecution.executeOne. unfold_async.
  destruct (executeTask taskId w) as [[result|e] w1]; [|apply IH].
  rewrite andb_false_r. apply IH.
Qed.

End ExecutionFacts.

(** X16. [executeBatchPublish] raises [主题库不存在], before any upload,
    for a theme that does not exist.  For one that exists it never
    raises and returns one result for each task id, in the order of the
    request, whatever the uploads and the archive moves do; with
    [autoArchive = false] it runs the uploads and archives nothing. *)
Theorem executeBatchPublish_one_result_per_task
    {D R : Type} `{FsPromises D} `{WebDAVClient (option R)}
    `{UploadRunner (World D R)}
    (themeId : Z) (taskIds : list Z) (autoArchive : option bool)
    (w : World D R) :
  match ThemeModel.findById themeId w with
  | None =>
      ThemeExecution.executeBatchPublish themeId taskIds autoArchive w
      = (Err ThemeService.themeNotFound, w)
  | Some theme =>
      (∃ results w',
         ThemeExecution.executeBatchPublish themeId taskIds autoArchive w
         = (Ok results, w')
         ∧ map er_taskId results = taskIds)
      ∧ ThemeExecution.executeBatchPublish themeId taskIds (Some false) w
        = ThemeExecution.uploadEach taskIds [] w
  end.
Proof.
  unfold ThemeExecution.executeBatchPublish.
  destruct (ThemeModel.findById themeId w) as [theme|]; [|done].
  split; [|apply executeEach_without_archive].
  destruct (executeEach_ids themeId (default true autoArchive) taskIds [] w)
    as (out & w' & Hrun & Hids).
  exists out, w'. done.
Qed.

(** X17. When the upload of a task succeeds and the archive move that
    follows raises, [executeBatchPublish] (with [autoArchive] at its
    default) reports the task as failed with the message of the move, and
    goes on with the other tasks from the state the move left. *)
Theorem upload_reported_failed_when_archive_raises
    {D R : Type} `{FsPromises D} `{WebDAVClient (option R)}
    `{UploadRunner (World D R)}
    (themeId taskId : Z) (rest : list Z) (w w1 w2 : World D R)
    (theme : Theme) (result : UploadResult) (task : UploadTask) (e : JsError) :
  ThemeModel.findById themeId w = Some theme →
  executeTask taskId w = (Ok result, w1) →
  ur_success result = true →
  getTask taskId w1 = Ok (Some task) →
  ThemeService.archiveVideo themeId (task_libraryId task)
    (task_resourcePath task) w1 = (Err e, w2) →
  ThemeExecution.executeBatchPublish themeId (taskId :: rest) None w
  = ThemeExecution.executeEach themeId true rest
      [mkExecuteResult taskId false (Some (message e))] w2.
Proof.
  intros Hth Hup Hok Hget Harch.
  unfold ThemeExecution.executeBatchPublish. rewrite Hth.
  cbn [default ThemeExecution.executeEach]. unfold ThemeExecution.executeOne.
  unfold_async. rewrite Hup, Hok. cbn [andb]. rewrite Hget, Harch. reflexivity.
Qed.

Lemma upload_reported_failed_when_archive_raises_witness :
  (ThemeExecution.executeBatchPublish (H2 := MoreExamples.uploadsSucceed)
     1 [1%Z] None MoreExamples.collisionWorldWithTask).1
  = Ok [mkExecuteResult 1 false (Some "目标路径已存在: /v/published/a.mp4")].
Proof.
  assert (Hr : (ThemeService.archiveVideo 1 1 "/v/a.mp4"
                  MoreExamples.collisionWorldWithTask).1
               = Err (Error "目标路径已存在: /v/published/a.mp4"))
    by (vm_compute; reflexivity).
  destruct (ThemeService.archiveVideo 1 1 "/v/a.mp4"
              MoreExamples.collisionWorldWithTask) as [r w2] eqn:Harch.
  simpl in Hr. subst r.
  rewrite (upload_reported_failed_when_archive_raises
             (H1 := MoreExamples.uploadsSucceed)
             1 1 [] MoreExamples.collisionWorldWithTask
             MoreExamples.collisionWorldWithTask w2
             (mkTheme "c" None [mkThemeResourcePath 1 "/v"])
             (mkUploadResult true None) MoreExamples.collisionTask
             (Error "目标路径已存在: /v/published/a.mp4")
             eq_refl eq_refl eq_refl eq_refl Harch).
  reflexivity.
Defined.

(* ===================================================================== *)
(** * [delete] and [rename] of the providers                              *)
(* ===================================================================== *)

(** X18. [delete] of either provider reports every failure as
    [删除失败: <filePath>].  Without [recursive], on a folder whose listing
    is not empty, it removes nothing; it removes nothing either when the
    path cannot be stat'ed. *)
Theorem delete_spares_non_empty_folders
    {D R : Type} `{FsPromises D} `{FsRemoval D}
    `{WebDAVClient R} `{WebDAVRemoval R}
    (local : LocalResourceConfig) (dav : WebDAVResourceConfig)
    (filePath : string) (recursive : bool) (d : D) (c : R) :
  let failure := Error ("删除失败: " +:+ filePath) in
  let fullLocal := NodePath.join2 (l_basePath local) filePath in
  let fullDav := WebDAVResourceLibrary.fullPathOf dav filePath in
  (∀ e d', LocalResourceFiles.delete local filePath recursive d = (Err e, d') →
           e = failure)
  ∧ (∀ e c', WebDAVResourceFiles.delete dav filePath recursive c = (Err e, c') →
             e = failure)
  ∧ match fs_stat fullLocal d with
    | Err _ =>
        LocalResourceFiles.delete local filePath recursive d = (Err failure, d)
    | Ok stats =>
        if st_isDirectory stats then
          match fs_readdir_names fullLocal d with
          | Ok (_ :: _) =>
              LocalResourceFiles.delete local filePath false d = (Err failure, d)
          | _ => True
          end
        else True
    end
  ∧ match dav_stat fullDav c with
    | Err _ =>
        WebDAVResourceFiles.delete dav filePath recursive c = (Err failure, c)
    | Ok stat =>
        if fst_isDirectory stat then
          match dav_getDirectoryContents fullDav c with
          | Ok (_ :: _) =>
              WebDAVResourceFiles.delete dav filePath false c = (Err failure, c)
          | _ => True
          end
        else True
    end.
Proof.
  intros failure fullLocal fullDav.
  unfold LocalResourceFiles.delete, WebDAVResourceFiles.delete.
  fold fullLocal fullDav. unfold_async.
  split; [|split; [|split]].
  - intros e d'.
    destruct (fs_stat fullLocal d) as [stats|e0]; [|now intros [= <- _]].
    destruct (st_isDirectory stats).
    + destruct recursive.
      * destruct (fs_rm_recursive_force fullLocal d) as [[[]|e1] d1];
          [done|now intros [= <- _]].
      * destruct (fs_readdir_names fullLocal d) as [items|e1];
          [|now intros [= <- _]].
        destruct (bool_decide (0 < length items)%nat); [now intros [= <- _]|].
        destruct (fs_rmdir fullLocal d) as [[[]|e1] d1];
          [done|now intros [= <- _]].
    + destruct (fs_unlink fullLocal d) as [[[]|e1] d1];
        [done|now intros [= <- _]].
  - intros e c'.
    destruct (dav_stat fullDav c) as [stat|e0]; [|now intros [= <- _]].
    destruct (fst_isDirectory stat).
    + destruct recursive; cbn [negb].
      * destruct (dav_deleteFile fullDav c) as [[[]|e1] c1];
          [done|now intros [= <- _]].
      * destruct (dav_getDirectoryContents fullDav c) as [items|e1];
          [|now intros [= <- _]].
        destruct (bool_decide (0 < length items)%nat); [now intros [= <- _]|].
        destruct (dav_deleteFile fullDav c) as [[[]|e1] c1];
          [done|now intros [= <- _]].
    + destruct (dav_deleteFile fullDav c) as [[[]|e1] c1];
        [done|now intros [= <- _]].
  - destruct (fs_stat fullLocal d) as [stats|e0]; [|done].
    destruct (st_isDirectory stats); [|done].
    destruct (fs_readdir_names fullLocal d) as [[|x items]|e1]; try done.
  - destruct (dav_stat fullDav c) as [stat|e0]; [|done].
    destruct (fst_isDirectory stat); [|done]. cbn [negb]. cbv beta.
    destruct (dav_getDirectoryContents fullDav c) as [[|x items]|e1]; try done.
Qed.

Lemma dirname_full_tame (b p : string) (l : list string) (n : string) :
  tame b = true → tame p = true →
  segs p = l ++ [n] → Js.endsWith p "/" = false →
  tame (NodePath.dirname (NodePath.join2 b p)) = true
  ∧ segs (NodePath.dirname (NodePath.join2 b p)) = segs b ++ l.
Proof.
  intros Hb Hp Hs He.
  pose proof (tame_segs_names _ Hb) as Hnb.
  pose proof (tame_segs_names _ Hp) as Hnp. rewrite Hs in Hnp.
  apply Forall_app in Hnp as [Hnl Hnn]. apply Forall_cons in Hnn as [Hnn _].
  assert (Htame : Forall (λ s, tameName s = true) (segs b ++ l))
    by now apply Forall_app.
  assert (Hplain : Forall (λ s, NodePath.plain s = true) (segs b ++ l)).
  { eapply Forall_impl; [exact Htame|]. intros ?. apply tameName_plain. }
  rewrite join2_render; [|done|done| |done].
  2:{ rewrite Hs. intros [_ ?]%app_eq_nil. done. }
  rewrite Hs, app_assoc.
  set (abs := if Js.is_empty b then NodePath.isAbsolute p else NodePath.isAbsolute b).
  destruct (dirname_render abs _ n Hplain (tameName_plain _ Hnn)) as [_ ->].
  destruct (segs b ++ l) as [|x l'] eqn:Hl.
  - destruct (segs_rootlike_dir abs). done.
  - split; [now apply tame_render|now apply segs_render].
Qed.

Section LocalRename.
Context {D : Type} `{FsPromises D} `{FsRemoval D}.
Variable this : LocalResourceConfig.

(** The calls of a [rename] that returns. *)
Lemma local_rename_Ok (oldPath newName : string) (d d' : D) :
  LocalResourceFiles.rename this oldPath newName d = (Ok (), d') →
  let fullOldPath := NodePath.join2 (l_basePath this) oldPath in
  let fullNewPath := NodePath.join2 (NodePath.dirname fullOldPath) newName in
  (∃ e, fs_access fullNewPath d = Err e ∧ code e = Some "ENOENT")
  ∧ fs_rename fullOldPath fullNewPath d = (Ok (), d').
Proof.
  intros Hrun fo fn. revert Hrun.
  unfold LocalResourceFiles.rename. unfold_async. fold fo. fold fn.
  destruct (fs_access fn d) as [[]|e]; [done|].
  destruct (bool_decide (code e ≠ Some "ENOENT")) eqn:Hc; [done|].
  apply bool_decide_eq_false in Hc. apply dec_stable in Hc.
  destruct (fs_rename fo fn d) as [[[]|e2] d2]; [|done].
  intros [= <-]. eauto.
Qed.

End LocalRename.

(** X19. On the in-memory disk, for a base path and an old path without
    [..] step and backslash and a new name that is one plain name: a
    [rename] of a local library that returns for a file has found the new
    name free in the folder of the file, has put the file under the new
    name in that same folder, left nothing under the old name, and
    changed no other entry. *)
Theorem mem_local_rename_stays_in_folder
    (this : LocalResourceConfig)
    (oldPath newName : string) (l : list string) (n : string)
    (t t' : MemFs.Tree) (size mtime : Z) :
  tame (l_basePath this) = true → tame oldPath = true →
  segs oldPath = l ++ [n] → Js.endsWith oldPath "/" = false →
  tameName newName = true →
  LocalResourceFiles.rename this oldPath newName t = (Ok (), t') →
  t !! lkey this oldPath = Some (MemFs.NFile size mtime) →
  let folder := segs (l_basePath this) ++ l in
  lkey this oldPath = folder ++ [n]
  ∧ t !! (folder ++ [newName]) = None
  ∧ t' !! (folder ++ [newName]) = Some (MemFs.NFile size mtime)
  ∧ t' !! (folder ++ [n]) = None
  ∧ ∀ k, k ≠ folder ++ [n] → k ≠ folder ++ [newName] → t' !! k = t !! k.
Proof.
  intros Hb Hp Hs He Hn Hrun Hfile folder.
  assert (Hold : lkey this oldPath = folder ++ [n]).
  { rewrite lkey_tame by done. now rewrite Hs, app_assoc. }
  destruct (dirname_full_tame _ _ l n Hb Hp Hs He) as [Hdt Hds].
  assert (Hnew : MemFs.key_of
                   (NodePath.join2
                      (NodePath.dirname (NodePath.join2 (l_basePath this) oldPath))
                      newName)
                 = folder ++ [newName]).
  { destruct (segs_join2 _ newName Hdt (tame_name _ Hn)) as [Hsj Htj].
    apply tame_inv in Htj as [Htj _]. rewrite key_of_tame by done.
    now rewrite Hsj, Hds, (segs_name newName) by now apply tameName_plain. }
  apply local_rename_Ok in Hrun as ((e & Hacc & Hc) & Hrn).
  apply mem_access_Err in Hacc. apply resolve_ENOENT in Hacc as [_ Hnone]; [|done].
  rewrite Hnew in Hnone.
  change (MemFs.rename (lkey this oldPath)
            (MemFs.key_of
               (NodePath.join2
                  (NodePath.dirname (NodePath.join2 (l_basePath this) oldPath))
                  newName)) t = (Ok (), t')) in Hrn.
  rewrite Hnew, Hold in Hrn. rewrite Hold in Hfile.
  destruct (rename_file _ _ _ _ _ _ Hrn Hfile) as (Ht' & Hks & Hkt & _).
  specialize (Ht' Hks). rewrite lookup_nonempty in Hnone by done.
  assert (Hne : folder ++ [n] ≠ folder ++ [newName]) by congruence.
  split; [done|]. split; [done|].
  split; [rewrite Ht'; apply lookup_insert_eq|].
  split; [rewrite Ht', lookup_insert_ne, lookup_delete_eq by done; done|].
  intros k Hk1 Hk2. now rewrite Ht', lookup_insert_ne, lookup_delete_ne.
Qed.

Lemma mem_local_rename_stays_in_folder_witness :
  let this := mkLocalResourceConfig "/data" None in
  let t' := (LocalResourceFiles.rename this "/videos/food/a.mp4" "z.mp4"
               Examples.foodTree).2 in
  t' !! ["data"; "videos"; "food"; "z.mp4"] = Some (MemFs.NFile 10 1)
  ∧ t' !! ["data"; "videos"; "food"; "a.mp4"] = None.
Proof.
  intros this t'. subst t'.
  assert (Hr : (LocalResourceFiles.rename this "/videos/food/a.mp4" "z.mp4"
                  Examples.foodTree).1 = Ok ()) by (vm_compute; reflexivity).
  destruct (LocalResourceFiles.rename this "/videos/food/a.mp4" "z.mp4"
              Examples.foodTree) as [r t'] eqn:Hrun.
  simpl in Hr. subst r. cbn [snd].
  destruct (mem_local_rename_stays_in_folder this "/videos/food/a.mp4" "z.mp4"
              ["videos"; "food"] "a.mp4" Examples.foodTree t' 10 1)
    as (_ & _ & Hnew & Hold & _).
  - reflexivity.
  - reflexivity.
  - reflexivity.
  - reflexivity.
  - reflexivity.
  - exact Hrun.
  - vm_compute. reflexivity.
  - split; [exact Hnew|exact Hold].
Defined.

(* ===================================================================== *)
(** * A second batch archive                                               *)
(* ===================================================================== *)

Lemma well_formed_spec (t : MemFs.Tree) (k : list string) (node : MemFs.Node) :
  well_formed t = true → t !! k = Some node →
  Forall (λ s, tameName s = true) k
  ∧ ∀ pre, pre ∈ MemFs.prefixes (MemFs.parent k) → t !! pre = Some MemFs.NDir.
Proof.
  unfold well_formed. rewrite forallb_forall. intros Hwf Hk.
  specialize (Hwf (k, node)). simpl in Hwf.
  destruct (andb_prop _ _ (Hwf (proj1 (list_elem_of_In _ _)
                                  (proj2 (elem_of_map_to_list t k node) Hk))))
    as [Hn Hp].
  rewrite forallb_forall in Hn, Hp. split.
  - apply Forall_forall. intros s Hs. apply Hn. now apply list_elem_of_In.
  - intros pre Hpre. apply list_elem_of_In, Hp in Hpre.
    now apply bool_decide_eq_true in Hpre.
Qed.

(** On a well-formed disk the folder of a file can be read and the name
    of the file is one plain segment. *)
Lemma well_formed_folder (t : MemFs.Tree) (K : list string) (n : string)
    (node : MemFs.Node) :
  well_formed t = true → t !! (K ++ [n]) = Some node →
  MemFs.resolve t K = Ok MemFs.NDir ∧ tameName n = true.
Proof.
  intros Hwf Hk. destruct (well_formed_spec _ _ _ Hwf Hk) as [Hn Hp].
  rewrite parent_snoc in Hp. split.
  - apply resolve_Ok. split.
    + apply blocked_false. intros pre Hpre. rewrite Hp; [done|].
      apply prefixes_spec in Hpre as (Hne & r & Hr).
      apply prefixes_spec. split; [done|].
      exists (r ++ drop (length K - 1) K).
      rewrite app_assoc, <- Hr. unfold MemFs.parent.
      now rewrite take_drop.
    + destruct (decide (K = [])) as [-> | Hne]; [done|].
      rewrite lookup_nonempty by done. apply Hp.
      apply prefixes_spec. split; [done|]. exists []. now rewrite app_nil_r.
  - apply Forall_app in Hn as [_ Hn]. now apply Forall_cons in Hn as [Hn _].
Qed.

Section Settled.
Context `{Locale}.
Implicit Types w : World MemFs.Tree MemFs.Tree.

(** A file on the disk after a video was archived: it is at or under the
    place the video went to, or it was there before and is not the
    video. *)
Lemma archiveVideo_files (themeId libraryId : Z) (videoPath : string) w w'
    (theme : Theme) (this : LocalResourceConfig) :
  ThemeModel.findById themeId w = Some theme →
  ResourceService.getLibraryInstance libraryId w = Ok (LocalLib this) →
  ThemeService.archiveVideo themeId libraryId videoPath w = (Ok (), w') →
  w' = set_disk (disk w') w
  ∧ ∀ k size mtime,
      disk w' !! k = Some (MemFs.NFile size mtime) →
      MemFs.is_prefix
        (lkey this (archiveTarget (ThemeService.effectiveArchiveFolderName theme)
                                  videoPath)) k = true
      ∨ (disk w !! k = Some (MemFs.NFile size mtime) ∧ k ≠ lkey this videoPath).
Proof.
  intros Hth Hlib Harch.
  destruct (local_archiveVideo_Ok themeId _ _ w w' theme this Hth Hlib Harch)
    as (d0 & d1 & Hd0 & _ & _ & Hmk & Hrn & Hw').
  split; [done|]. intros k size mtime Hk.
  apply mkdir_recursive_Ok in Hmk as (-> & _ & _).
  destruct (rename_files _ _ _ _ _ _ _ Hrn Hk) as [Hpre | [Hd1 Hne]];
    [now left | right].
  split; [|done]. apply mkdirs_file in Hd1.
  destruct Hd0 as [-> | Hd0]; [done|].
  apply mkdir_recursive_Ok in Hd0 as (-> & _ & _).
  now apply mkdirs_file in Hd1.
Qed.

(** The same after a run of archive moves that all returned. *)
Lemma attempts_files (themeId : Z) (theme : Theme) (videos : list VideoEntry) :
  ∀ w (rs : list (result unit)) w1,
  ThemeModel.findById themeId w = Some theme →
  (∀ v, v ∈ videos →
        ∃ this, ResourceService.getLibraryInstance (libraryId v) w
                = Ok (LocalLib this)) →
  attempts (ThemeService.archiveVideo themeId) videos w = (rs, w1) →
  Forall (λ r, is_ok r = true) rs →
  w1 = set_disk (disk w1) w
  ∧ ∀ k size mtime,
      disk w1 !! k = Some (MemFs.NFile size mtime) →
      (∃ v this,
         v ∈ videos
         ∧ ResourceService.getLibraryInstance (libraryId v) w = Ok (LocalLib this)
         ∧ MemFs.is_prefix
             (lkey this (archiveTarget
                           (ThemeService.effectiveArchiveFolderName theme)
                           (fullPath v))) k = true)
      ∨ (disk w !! k = Some (MemFs.NFile size mtime)
         ∧ ∀ v this,
             v ∈ videos →
             ResourceService.getLibraryInstance (libraryId v) w
             = Ok (LocalLib this) →
             k ≠ lkey this (fullPath v)).
Proof.
  induction videos as [|video rest IH]; intros w rs w1 Hth Hlocal Hrun Hok.
  - injection Hrun as <- <-. split; [by destruct w|].
    intros k size mtime Hk. right. split; [done|].
    intros v this Hv. by apply elem_of_nil in Hv.
  - cbn [attempts] in Hrun.
    destruct (ThemeService.archiveVideo themeId (libraryId video)
                (fullPath video) w) as [r wa] eqn:Hstep.
    destruct (attempts (ThemeService.archiveVideo themeId) rest wa)
      as [rs' wb] eqn:Hrest.
    injection Hrun as <- <-.
    apply Forall_cons in Hok as [Hr Hok].
    destruct r as [[]|e]; [|discriminate Hr].
    destruct (Hlocal video) as [this0 Hlib0]; [apply list_elem_of_here|].
    destruct (archiveVideo_files _ _ _ _ _ _ _ Hth Hlib0 Hstep) as [Hwa Hfiles].
    assert (Hth' : ThemeModel.findById themeId wa = Some theme)
      by now rewrite Hwa.
    assert (Hlibs : ∀ lid, ResourceService.getLibraryInstance lid wa
                           = ResourceService.getLibraryInstance lid w)
      by (intros lid; now rewrite Hwa).
    destruct (IH wa rs' wb Hth') as [Hwb Hfiles']; [|done|done|].
    { intros v Hv. rewrite Hlibs. apply Hlocal. now apply list_elem_of_further. }
    split.
    { rewrite Hwb, Hwa. reflexivity. }
    intros k size mtime Hk.
    destruct (Hfiles' k size mtime Hk) as [(v & this & Hv & Hlib & Hpre) | [Hk' Hne]].
    + left. exists v, this. rewrite Hlibs in Hlib.
      split; [now apply list_elem_of_further|done].
    + destruct (Hfiles k size mtime Hk') as [Hpre | [Hk0 Hne0]].
      * left. exists video, this0. split; [apply list_elem_of_here|done].
      * right. split; [done|]. intros v this Hv Hlib.
        apply elem_of_cons in Hv as [-> | Hv].
        -- rewrite Hlib0 in Hlib. injection Hlib as <-. done.
        -- apply (Hne v this Hv). now rewrite Hlibs.
Qed.

(** No failure among the outcomes of a run of moves. *)
Lemma no_failure_all_ok (videos : list VideoEntry) (rs : list (result unit)) :
  length rs = length videos →
  ThemeService.count_failure (resultsOf videos rs) = 0 →
  Forall (λ r, is_ok r = true) rs.
Proof.
  intros Hlen. rewrite count_failure_outcomes by done. clear Hlen.
  induction rs as [|r rs IH]; simpl; [done|].
  destruct (is_ok r) eqn:Hr; simpl; [|done].
  intros Hz. constructor; [done|]. now apply IH.
Qed.

(** What a batch archive picks is a video file directly in the folder of
    a resource path. *)
Lemma eligible_main (themeId : Z) (theme : Theme) w
    (videoPaths : list string) (allVideos : list VideoEntry) (v : VideoEntry) :
  ThemeModel.findById themeId w = Some theme →
  ThemeService.getThemeVideos themeId w = Ok allVideos →
  forallb (localRoot w) (resourcePaths theme) = true →
  v ∈ allVideos → isPublished v = false →
  ∃ rp this l r,
    rp ∈ resourcePaths theme
    ∧ ResourceService.getLibraryInstance (rp_libraryId rp) w = Ok (LocalLib this)
    ∧ tame (l_basePath this) = true ∧ tame (rp_folderPath rp) = true
    ∧ LocalResourceLibrary.list this (rp_folderPath rp) (disk w) = Ok l
    ∧ r ∈ l ∧ type r = ResourceType.video
    ∧ v = ThemeService.withInfo rp (rp_folderPath rp) false r.
Proof.
  intros Hth Hall Hroots Hv Hunpub.
  apply (getThemeVideos_elem themeId w theme allVideos v Hth Hall) in Hv
    as (rp & Hrp & [Hmain | Harch]).
  2:{ apply archiveEntries_published in Harch as (Hp & _). congruence. }
  apply mainEntries_elem in Hmain
    as (library & l & r & Hlib & Hlist & Hin & Hty & Hv).
  rewrite forallb_forall in Hroots.
  specialize (Hroots rp (proj1 (list_elem_of_In _ _) Hrp)).
  unfold localRoot in Hroots. rewrite Hlib in Hroots.
  destruct library as [this|this]; [|discriminate Hroots].
  apply andb_prop in Hroots as [Hbase Hfp].
  exists rp, this, l, r. repeat split; done.
Qed.

Lemma is_prefix_folder (A K : list string) (x y n : string) :
  MemFs.is_prefix (A ++ [x; y]) (K ++ [n]) = true →
  MemFs.is_prefix (A ++ [x]) K = true.
Proof.
  intros (rest & Hr)%is_prefix_spec. apply is_prefix_spec.
  destruct (decide (rest = [])) as [-> | Hne].
  - rewrite app_nil_r in Hr. exists [].
    change (A ++ [x; y]) with (A ++ [x] ++ [y]) in Hr.
    rewrite app_assoc in Hr. apply app_inj_tail in Hr as [-> _].
    now rewrite app_nil_r.
  - destruct (exists_last Hne) as (rest' & z & ->).
    exists (y :: rest').
    change (A ++ [x; y]) with (A ++ [x] ++ [y]) in Hr.
    rewrite !app_assoc in Hr. apply app_inj_tail in Hr as [-> _].
    now rewrite <- !app_assoc.
Qed.

(** X20. On local libraries over the in-memory disk: let the disk be
    well formed, the archive folder name one plain name, the base paths
    and folder paths of the theme's resource paths free of [..] steps and
    backslashes, and no resource path the archive folder of one of them
    or a folder inside it.  If a batch archive returned a report without
    a failure, the same call after it moves nothing: it returns a report
    with an empty [results] and both counts 0, and leaves the disk as
    the first call left it. *)
Theorem second_batchArchive_moves_nothing (themeId : Z)
    (videoPaths : list string) (theme : Theme) w w1 (report : ArchiveReport) :
  ThemeModel.findById themeId w = Some theme →
  tameName (ThemeService.effectiveArchiveFolderName theme) = true →
  well_formed (disk w) = true →
  forallb (localRoot w) (resourcePaths theme) = true →
  separateRoots (ThemeService.effectiveArchiveFolderName theme) w
    (resourcePaths theme) = true →
  ThemeService.batchArchiveVideos themeId videoPaths w = (Ok report, w1) →
  failed report = 0 →
  ThemeService.batchArchiveVideos themeId videoPaths w1
  = (Ok (mkArchiveReport (length videoPaths) 0 0 []), w1).
Proof.
  intros Hth Hafn Hwf Hroots Hsep Hrun Hfailed.
  set (afn := ThemeService.effectiveArchiveFolderName theme) in *.
  rewrite batchArchiveVideos_spec, Hth in Hrun.
  destruct (ThemeService.getThemeVideos themeId w) as [allVideos|e] eqn:Hall;
    [|discriminate Hrun].
  cbv zeta in Hrun.
  pose proof (attempts_length (ThemeService.archiveVideo themeId)
                (eligible false videoPaths allVideos) w) as Hlen.
  destruct (attempts (ThemeService.archiveVideo themeId)
              (eligible false videoPaths allVideos) w) as [rs wr] eqn:Hatt.
  simpl in Hrun, Hlen. injection Hrun as <- <-. simpl in Hfailed.
  apply no_failure_all_ok in Hfailed; [|done].
  assert (Hpicked : ∀ v, v ∈ eligible false videoPaths allVideos →
            v ∈ allVideos ∧ isPublished v = false).
  { intros v (Hv & Hf)%elem_of_List_filter.
    apply andb_prop in Hf as [_ Hf]. split; [done|].
    now destruct (isPublished v). }
  destruct (attempts_files themeId theme (eligible false videoPaths allVideos)
              w rs wr Hth) as [Hw1 Hfiles];
    [|done|done|].
  { intros v [Hv Hunpub]%Hpicked.
    destruct (eligible_main themeId theme w videoPaths allVideos v
                Hth Hall Hroots Hv Hunpub)
      as (rp & this & _ & r & _ & Hlib & _ & _ & _ & _ & _ & ->).
    now exists this. }
  assert (Hth1 : ThemeModel.findById themeId wr = Some theme)
    by now rewrite Hw1.
  assert (Hlibs : ∀ lid, ResourceService.getLibraryInstance lid wr
                         = ResourceService.getLibraryInstance lid w)
    by (intros lid; now rewrite Hw1).
  rewrite batchArchiveVideos_spec, Hth1.
  destruct (getThemeVideos_total themeId wr theme Hth1) as [allVideos1 Hall1].
  rewrite Hall1. cbv zeta.
  assert (Hnone : eligible false videoPaths allVideos1 = []).
  { apply List_filter_none, Forall_forall. intros v' Hv'.
    destruct (Js.includes videoPaths (fullPath v')) eqn:Hinc; [|done].
    destruct (isPublished v') eqn:Hunpub'; [done|]. exfalso.
    assert (Hroots1 : forallb (localRoot wr) (resourcePaths theme) = true).
    { rewrite Hw1. exact Hroots. }
    destruct (eligible_main themeId theme wr videoPaths allVideos1 v'
                Hth1 Hall1 Hroots1 Hv' Hunpub')
      as (rp' & this' & l' & r' & Hrp' & Hlib' & Hbase' & Hfp' & Hlist'
          & Hin' & Hty' & HV').
    rewrite Hlibs in Hlib'.
    destruct (mem_local_list_video this' _ _ l' r' Hlist' Hin' Hty')
      as (Hres1 & Hdot' & Hentry1 & size & mtime & Hfile1).
    set (K' := lkey this' (rp_folderPath rp')) in *.
    destruct (Hfiles _ _ _ Hfile1)
      as [(v & this & Hv & Hlib & Hpre) | [Hfile0 Hne]].
    - (* it would sit in the archive folder of a resource path *)
      destruct (Hpicked v Hv) as [Hv0 Hunpub].
      destruct (eligible_main themeId theme w videoPaths allVideos v
                  Hth Hall Hroots Hv0 Hunpub)
        as (rp & this_ & l & r & Hrp & Hlib_ & Hbase & Hfp & Hlist
            & Hin & Hty & HV).
      assert (Hlid : libraryId v = rp_libraryId rp) by now subst v.
      rewrite Hlid, Hlib_ in Hlib. injection Hlib as <-.
      destruct (mem_local_list_video this_ _ _ l r Hlist Hin Hty)
        as (_ & _ & _ & size0 & mtime0 & Hfile).
      destruct (well_formed_folder _ _ _ _ Hwf Hfile) as [_ Hname].
      destruct (local_archive_keys this_ Hbase (rp_folderPath rp) (name r) afn
                  Hfp Hname Hafn) as (_ & _ & Kt & _).
      assert (Hfull : fullPath v = rp_folderPath rp +:+ "/" +:+ name r)
        by now subst v.
      fold afn in Hpre. rewrite Hfull, Kt in Hpre.
      apply is_prefix_folder in Hpre.
      unfold separateRoots in Hsep. rewrite forallb_forall in Hsep.
      specialize (Hsep rp (proj1 (list_elem_of_In _ _) Hrp)).
      rewrite forallb_forall in Hsep.
      specialize (Hsep rp' (proj1 (list_elem_of_In _ _) Hrp')).
      unfold rootKey in Hsep. rewrite Hlib_, Hlib' in Hsep.
      fold K' in Hsep. rewrite Hpre in Hsep. discriminate Hsep.
    - (* it was in the folder before, and would have been picked *)
      destruct (well_formed_folder _ _ _ _ Hwf Hfile0) as [Hres0 Hname'].
      assert (Hentry0 : LocalResourceLibrary.list_entry this' (rp_folderPath rp')
                          (mkDirent (name r') false) (disk w) = Ok (Some r')).
      { rewrite <- Hentry1. symmetry.
        now apply (mem_local_list_entry_same this' _ _ _ _
                     (MemFs.NFile size mtime)). }
      destruct (mem_local_list_file this' (rp_folderPath rp') (disk w) (name r')
                  size mtime r' Hres0 Hfile0 Hdot' Hentry0) as (l0 & Hl0 & Hin0).
      assert (Hmain : v' ∈ mainEntries w rp').
      { apply mainEntries_elem. exists (LocalLib this'), l0, r'.
        repeat split; done. }
      assert (Hv0 : v' ∈ allVideos).
      { apply (getThemeVideos_elem themeId w theme allVideos v' Hth Hall).
        exists rp'. split; [done|]. now left. }
      assert (Hv : v' ∈ eligible false videoPaths allVideos).
      { apply elem_of_List_filter. split; [done|].
        now rewrite Hinc, Hunpub'. }
      assert (Hlid : libraryId v' = rp_libraryId rp') by now subst v'.
      apply (Hne v' this' Hv); [now rewrite Hlid|].
      destruct (local_archive_keys this' Hbase' (rp_folderPath rp') (name r') afn
                  Hfp' Hname' Hafn) as (Ks & _).
      assert (Hfull : fullPath v' = rp_folderPath rp' +:+ "/" +:+ name r')
        by now subst v'.
      now rewrite Hfull, Ks. }
  rewrite Hnone. reflexivity.
Qed.

End Settled.

Lemma second_batchArchive_moves_nothing_witness :
  let w1 := (ThemeService.batchArchiveVideos 1 ["/v/a.mp4"]
               Examples.twinWorld).2 in
  ThemeService.batchArchiveVideos 1 ["/v/a.mp4"] w1
  = (Ok (mkArchiveReport 1 0 0 []), w1).
Proof.
  intros w1. subst w1.
  assert (Hr : ∃ report,
             (ThemeService.batchArchiveVideos 1 ["/v/a.mp4"]
                Examples.twinWorld).1 = Ok report
             ∧ archived report = 2 ∧ failed report = 0).
  { eexists. split; [vm_compute; reflexivity|]. split; reflexivity. }
  destruct Hr as (report & Hr & _ & Hfailed).
  destruct (ThemeService.batchArchiveVideos 1 ["/v/a.mp4"] Examples.twinWorld)
    as [r w1] eqn:Hrun.
  simpl in Hr. subst r. simpl.
  apply (second_batchArchive_moves_nothing 1 ["/v/a.mp4"]
           (mkTheme "twin" None
              [mkThemeResourcePath 1 "/v"; mkThemeResourcePath 2 "/v"])
           Examples.twinWorld w1 report).
  - vm_compute. reflexivity.
  - vm_compute. reflexivity.
  - vm_compute. reflexivity.
  - vm_compute. reflexivity.
  - vm_compute. reflexivity.
  - exact Hrun.
  - exact Hfailed.
Defined.

(* ===================================================================== *)
(** * [rename] on a WebDAV library                                        *)
(* ===================================================================== *)

(** X21. On a WebDAV library, when the server answers the [stat] of the
    new name (something has that name already), [rename] raises no
    [目标名称已存在] error: it sends the move all the same and returns
    what [moveFile] returns.  It does the same when the [stat] fails
    without a response or with status 404, and raises the error of the
    [stat], sending no move, only when that error carries another
    status. *)
Theorem webdav_rename_sends_the_move_onto_a_taken_name
    {R : Type} `{WebDAVClient R} (this : WebDAVResourceConfig)
    (oldPath newName : string) (r : R) :
  let fullOldPath := WebDAVResourceLibrary.fullPathOf this oldPath in
  let fullNewPath :=
    WebDAVResourceLibrary.normalizePath
      (NodePath.join2 (NodePath.dirname fullOldPath) newName) in
  ((∃ stat, dav_stat fullNewPath r = Ok stat)
   ∨ (∃ e, dav_stat fullNewPath r = Err e
           ∧ (response_status e = None ∨ response_status e = Some 404%nat))
   → WebDAVResourceFiles.rename this oldPath newName r
     = dav_moveFile fullOldPath fullNewPath r)
  ∧ (∀ e status,
       dav_stat fullNewPath r = Err e → response_status e = Some status →
       status ≠ 404%nat →
       WebDAVResourceFiles.rename this oldPath newName r = (Err e, r)).
Proof.
  intros fullOldPath fullNewPath.
  unfold WebDAVResourceFiles.rename. fold fullOldPath. fold fullNewPath.
  unfold_async. split.
  - intros [[stat Hs] | (e & Hs & [He | He])]; rewrite Hs; simpl;
      rewrite ?He; simpl;
      destruct (dav_moveFile fullOldPath fullNewPath r) as [[[]|e'] r'];
      reflexivity.
  - intros e status Hs He Hne. rewrite Hs. simpl. rewrite He.
    rewrite bool_decide_eq_true_2 by done. reflexivity.
Qed.

(** On the in-memory server: [b.mp4] is replaced by [a.mp4]. *)
Lemma webdav_rename_sends_the_move_onto_a_taken_name_witness :
  let run := WebDAVResourceFiles.rename Examples.davConfig "/data/v/a.mp4" "b.mp4"
               (Some Examples.collisionTree) in
  Examples.collisionTree !! ["data"; "v"; "b.mp4"] = Some (MemFs.NFile 20 2)
  ∧ run.1 = Ok ()
  ∧ (tree ← run.2; tree !! ["data"; "v"; "b.mp4"]) = Some (MemFs.NFile 10 1)
  ∧ (tree ← run.2; tree !! ["data"; "v"; "a.mp4"]) = None.
Proof.
  intros run. subst run.
  rewrite (proj1 (webdav_rename_sends_the_move_onto_a_taken_name
                    Examples.davConfig "/data/v/a.mp4" "b.mp4"
                    (Some Examples.collisionTree))).
  - repeat split; vm_compute; reflexivity.
  - left. eexists. vm_compute. reflexivity.
Defined.

(* ===================================================================== *)
(** * Browsing in order                                                    *)
(* ===================================================================== *)

Lemma sort_insert_sorted {A} (cmp : A → A → Z) (x : A) (l : list A) :
  (∀ a b, (cmp a b <= 0)%Z ∨ (cmp b a <= 0)%Z) →
  (∀ a b c, (cmp a b <= 0)%Z → (cmp b c <= 0)%Z → (cmp a c <= 0)%Z) →
  inOrder (λ a b, (cmp a b <= 0)%Z) l →
  inOrder (λ a b, (cmp a b <= 0)%Z) (BaseResourceLibrary.sort_insert cmp x l).
Proof.
  intros Htot Htrans. induction l as [|y l IH]; simpl.
  - done.
  - intros [Hy Hl]. destruct (Z.leb_spec (cmp x y) 0) as [Hle | Hgt]; simpl.
    + split; [|done]. constructor; [done|].
      eapply Forall_impl; [exact Hy|]. intros z Hz. now apply (Htrans x y z).
    + split; [|now apply IH].
      rewrite (sort_insert_perm cmp x l). constructor; [|done].
      destruct (Htot x y) as [Hxy | Hyx]; [lia|done].
Qed.

Lemma array_sort_sorted {A} (cmp : A → A → Z) (l : list A) :
  (∀ a b, (cmp a b <= 0)%Z ∨ (cmp b a <= 0)%Z) →
  (∀ a b c, (cmp a b <= 0)%Z → (cmp b c <= 0)%Z → (cmp a c <= 0)%Z) →
  inOrder (λ a b, (cmp a b <= 0)%Z) (BaseResourceLibrary.array_sort cmp l).
Proof.
  intros Htot Htrans. induction l as [|x l IH]; simpl; [done|].
  now apply sort_insert_sorted.
Qed.

Lemma inOrder_weaken {A} (P Q : A → A → Prop) (l : list A) :
  (∀ a b, P a b → Q a b) → inOrder P l → inOrder Q l.
Proof.
  intros HPQ. induction l as [|x l IH]; simpl; [done|].
  intros [Hx Hl]. split; [|now apply IH].
  eapply Forall_impl; [exact Hx|]. intros y. apply HPQ.
Qed.

Section Browsing.
Context {D R : Type} `{FsPromises D} `{WebDAVClient (option R)} `{Locale}.

(** Without a sort option the call is the one the theme service
    makes. *)
Lemma browseLibrary_unsorted (libraryId : Z) (p : string)
    (ty : option ResourceType) (sortOrder : option SortOrder.t) (w : World D R) :
  ResourceBrowsing.browseLibrary libraryId p
    (Some (mkBrowseOptions ty None sortOrder)) w
  = ResourceService.browseLibrary libraryId p ty w.
Proof. reflexivity. Qed.

(** X22. [browseLibrary] with [sortBy] set to [size] or [date] returns
    the resources of the listing that have the asked type, each as often
    as the listing has it, in the order of their sizes (dates), a missing
    one counting as 0: ascending, or descending when [sortOrder] is
    [desc].  Folders are not kept in front. *)
Theorem browseLibrary_sorts_by_size_or_date (libraryId : Z) (p : string)
    (ty : option ResourceType) (sortBy : SortBy.t)
    (sortOrder : option SortOrder.t) (w : World D R)
    (resources : list ResourceInfo) :
  sortBy ≠ SortBy.name →
  ResourceBrowsing.browseLibrary libraryId p
    (Some (mkBrowseOptions ty (Some sortBy) sortOrder)) w = Ok resources →
  (∃ listing, ResourceService.browseLibrary libraryId p ty w = Ok listing
              ∧ resources ≡ₚ listing)
  ∧ inOrder
      (λ a b, if bool_decide (sortOrder = Some SortOrder.desc)
              then (sortKey sortBy b <= sortKey sortBy a)%Z
              else (sortKey sortBy a <= sortKey sortBy b)%Z)
      resources.
Proof.
  intros Hby. unfold ResourceBrowsing.browseLibrary, ResourceService.browseLibrary.
  destruct (ResourceService.getLibraryInstance libraryId w) as [instance|e];
    [|discriminate]. simpl.
  destruct (IResourceLibrary.list instance p w) as [listing|e]; [|discriminate].
  simpl. intros [= <-]. split.
  - eexists. split; [reflexivity|]. apply array_sort_perm.
  - eapply inOrder_weaken; [|apply array_sort_sorted].
    + intros a b. unfold ResourceBrowsing.comparator.
      destruct (bool_decide (sortOrder = Some SortOrder.desc));
        destruct sortBy; try done; simpl; lia.
    + intros a b. unfold ResourceBrowsing.comparator.
      destruct (bool_decide (sortOrder = Some SortOrder.desc));
        destruct sortBy; try done; simpl; lia.
    + intros a b c. unfold ResourceBrowsing.comparator.
      destruct (bool_decide (sortOrder = Some SortOrder.desc));
        destruct sortBy; try done; simpl; lia.
Qed.

End Browsing.

(** The food folder by size, largest first: the folder comes last. *)
Lemma browseLibrary_sorts_by_size_or_date_witness :
  ∃ resources,
    ResourceBrowsing.browseLibrary 1 "/videos/food"
      (Some (mkBrowseOptions None (Some SortBy.size) (Some SortOrder.desc)))
      Examples.foodWorld = Ok resources
    ∧ map name resources = ["b.mp4"; "a.mp4"; "published"]
    ∧ inOrder (λ a b, (sortKey SortBy.size b <= sortKey SortBy.size a)%Z)
        resources.
Proof.
  eexists. split; [vm_compute; reflexivity|]. split; [reflexivity|].
  refine (proj2 (browseLibrary_sorts_by_size_or_date 1 "/videos/food" None
                   SortBy.size (Some SortOrder.desc) Examples.foodWorld _ _ _)).
  - discriminate.
  - vm_compute. reflexivity.
Defined.

(* ===================================================================== *)
(** * The default library                                                  *)
(* ===================================================================== *)

Section DefaultLibrary.
Context {Config : Type} (configToString : Config → string).
Implicit Types t : gmap Z LibraryRecord.

Lemma lookup_updateManyDefaults (except : option Z) t (j : Z) :
  ResourceLibraryModel.updateManyDefaults except t !! j
  = (λ r, if lr_isDefault r && negb (bool_decide (except = Some j))
          then ResourceLibraryModel.withDefault false r else r) <$> t !! j.
Proof.
  unfold ResourceLibraryModel.updateManyDefaults. rewrite map_lookup_imap.
  now destruct (t !! j).
Qed.

(** After [updateMany] no row is the default, but the excepted one if it
    was. *)
Lemma updateManyDefaults_default (except : option Z) t (j : Z) rj :
  ResourceLibraryModel.updateManyDefaults except t !! j = Some rj →
  lr_isDefault rj = true →
  except = Some j ∧ t !! j = Some rj.
Proof.
  rewrite lookup_updateManyDefaults. destruct (t !! j) as [r|]; [|done].
  simpl. destruct (lr_isDefault r) eqn:Hd; simpl.
  - destruct (bool_decide_reflect (except = Some j)) as [He | He]; simpl.
    + intros [= <-]. done.
    + intros [= <-]. done.
  - intros [= <-]. congruence.
Qed.

Lemma oneDefault_insert_only (id : Z) (record : LibraryRecord) t :
  (∀ j rj, t !! j = Some rj → lr_isDefault rj = true → j = id) →
  oneDefault (<[id := record]> t).
Proof.
  intros Honly i j ri rj Hi Hj Hdi Hdj.
  destruct (decide (i = id)) as [-> | Hni], (decide (j = id)) as [-> | Hnj];
    try done.
  - rewrite lookup_insert_ne in Hj by done. symmetry. eauto.
  - rewrite lookup_insert_ne in Hi by done. eauto.
  - rewrite lookup_insert_ne in Hi, Hj by done.
    rewrite (Honly i ri Hi Hdi). symmetry. eauto.
Qed.

Lemma theDefault_insert_only (id : Z) (record : LibraryRecord) t :
  lr_isDefault record = true →
  (∀ j rj, t !! j = Some rj → lr_isDefault rj = true → j = id) →
  theDefault id (<[id := record]> t).
Proof.
  intros Hd Honly. split.
  - exists record. now rewrite lookup_insert_eq.
  - intros j rj Hj Hdj. destruct (decide (j = id)) as [-> | Hne]; [done|].
    rewrite lookup_insert_ne in Hj by done. eauto.
Qed.

Lemma oneDefault_insert_same (id : Z) (record : LibraryRecord) t :
  oneDefault t →
  (lr_isDefault record = true →
   ∃ r, t !! id = Some r ∧ lr_isDefault r = true) →
  oneDefault (<[id := record]> t).
Proof.
  intros Hone Hwas i j ri rj Hi Hj Hdi Hdj.
  destruct (decide (i = id)) as [-> | Hni], (decide (j = id)) as [-> | Hnj];
    try done.
  - rewrite lookup_insert_eq in Hi. injection Hi as <-.
    rewrite lookup_insert_ne in Hj by done.
    destruct (Hwas Hdi) as (r & Hr & Hdr). exact (Hone _ _ _ _ Hr Hj Hdr Hdj).
  - rewrite lookup_insert_eq in Hj. injection Hj as <-.
    rewrite lookup_insert_ne in Hi by done.
    destruct (Hwas Hdj) as (r & Hr & Hdr). exact (Hone _ _ _ _ Hi Hr Hdi Hdr).
  - rewrite lookup_insert_ne in Hi, Hj by done. exact (Hone _ _ _ _ Hi Hj Hdi Hdj).
Qed.

Lemma updateManyDefaults_only (id : Z) t :
  ∀ j rj, ResourceLibraryModel.updateManyDefaults (Some id) t !! j = Some rj →
          lr_isDefault rj = true → j = id.
Proof.
  intros j rj Hj Hdj.
  destruct (updateManyDefaults_default _ _ _ _ Hj Hdj) as [[= ->] _]. done.
Qed.

Lemma updateManyDefaults_none (id : Z) t :
  ∀ j rj, ResourceLibraryModel.updateManyDefaults None t !! j = Some rj →
          lr_isDefault rj = true → j = id.
Proof.
  intros j rj Hj Hdj.
  destruct (updateManyDefaults_default _ _ _ _ Hj Hdj) as [[=] _].
Qed.

(** X23. When no two rows of the table of resource libraries are marked
    as the default, none are after [create], [update], [setDefault] or
    [delete], whatever their arguments and whether they return or
    raise. *)
Theorem library_model_keeps_one_default t :
  oneDefault t →
  (∀ data newId,
     oneDefault (ResourceLibraryModel.create Config configToString data newId t).2)
  ∧ (∀ id data,
       oneDefault (ResourceLibraryModel.update Config configToString id data t).2)
  ∧ (∀ id, oneDefault (ResourceLibraryModel.setDefault id t).2)
  ∧ (∀ id, oneDefault (ResourceLibraryModel.delete id t).2).
Proof.
  intros Hone. split; [|split; [|split]].
  - intros data newId. unfold ResourceLibraryModel.create. simpl.
    destruct (ResourceLibraryModel.c_isDefault _ data) as [[]|]; simpl.
    + apply oneDefault_insert_only, updateManyDefaults_none.
    + now apply oneDefault_insert_same.
    + now apply oneDefault_insert_same.
  - intros id data. unfold ResourceLibraryModel.update.
    destruct (ResourceLibraryModel.u_isDefault _ data) as [[]|] eqn:Hd; simpl.
    + destruct (ResourceLibraryModel.updateManyDefaults (Some id) t !! id)
        as [r|] eqn:Hr; simpl.
      * apply oneDefault_insert_only, updateManyDefaults_only.
      * intros i j ri rj Hi Hj Hdi Hdj.
        rewrite (updateManyDefaults_only id t i ri Hi Hdi).
        now rewrite (updateManyDefaults_only id t j rj Hj Hdj).
    + destruct (t !! id) as [r|] eqn:Hr; simpl; [|done].
      now apply oneDefault_insert_same.
    + destruct (t !! id) as [r|] eqn:Hr; simpl; [|done].
      apply oneDefault_insert_same; [done|]. simpl. intros Hdr. now exists r.
  - intros id. unfold ResourceLibraryModel.setDefault.
    destruct (ResourceLibraryModel.updateManyDefaults None t !! id)
      as [r|] eqn:Hr; simpl.
    + apply oneDefault_insert_only, updateManyDefaults_none.
    + intros i j ri rj Hi Hj Hdi Hdj.
      rewrite (updateManyDefaults_none id t i ri Hi Hdi).
      now rewrite (updateManyDefaults_none id t j rj Hj Hdj).
  - intros id. unfold ResourceLibraryModel.delete.
    destruct (t !! id) as [r|] eqn:Hr; simpl; [|done].
    intros i j ri rj Hi Hj.
    apply lookup_delete_Some in Hi as [_ Hi].
    apply lookup_delete_Some in Hj as [_ Hj]. now apply Hone.
Qed.

(** X24. Marking a library as the default unmarks every other one: after
    a [create] with [isDefault: true] the new row, and after a
    [setDefault(id)] or an [update(id, …)] with [isDefault: true] that
    returns the row [id], is the default and the only one.  When
    [setDefault(id)] raises because no row has the id, the table is left
    without any default. *)
Theorem marking_a_default_unmarks_the_others t :
  (∀ data newId,
     ResourceLibraryModel.c_isDefault _ data = Some true →
     theDefault newId
       (ResourceLibraryModel.create Config configToString data newId t).2)
  ∧ (∀ id data record t',
       ResourceLibraryModel.u_isDefault _ data = Some true →
       ResourceLibraryModel.update Config configToString id data t
       = (Ok record, t') →
       theDefault id t')
  ∧ (∀ id record t',
       ResourceLibraryModel.setDefault id t = (Ok record, t') →
       theDefault id t')
  ∧ (∀ id e t',
       ResourceLibraryModel.setDefault id t = (Err e, t') →
       t !! id = None
       ∧ ∀ j rj, t' !! j = Some rj → lr_isDefault rj = false).
Proof.
  split; [|split; [|split]].
  - intros data newId Hd. unfold ResourceLibraryModel.create. rewrite Hd. simpl.
    apply theDefault_insert_only; [done|]. apply updateManyDefaults_none.
  - intros id data record t' Hd. unfold ResourceLibraryModel.update.
    rewrite Hd. simpl.
    destruct (ResourceLibraryModel.updateManyDefaults (Some id) t !! id)
      as [r|]; [|discriminate].
    intros [= <- <-].
    apply theDefault_insert_only; [done|]. apply updateManyDefaults_only.
  - intros id record t'. unfold ResourceLibraryModel.setDefault.
    destruct (ResourceLibraryModel.updateManyDefaults None t !! id)
      as [r|]; [|discriminate].
    intros [= <- <-].
    apply theDefault_insert_only; [done|]. apply updateManyDefaults_none.
  - intros id e t'. unfold ResourceLibraryModel.setDefault.
    destruct (ResourceLibraryModel.updateManyDefaults None t !! id)
      as [r|] eqn:Hr; [discriminate|].
    intros [= _ <-]. split.
    + rewrite lookup_updateManyDefaults in Hr. now destruct (t !! id).
    + intros j rj Hj. destruct (lr_isDefault rj) eqn:Hd; [|done].
      now destruct (updateManyDefaults_default _ _ _ _ Hj Hd) as [[=] _].
Qed.

End DefaultLibrary.

(** A table with the default library 1: marking 2 leaves 2 as the only
    default, and so does every call after it. *)
Lemma library_model_keeps_one_default_witness :
  let t : gmap Z LibraryRecord :=
    {[ 1%Z := mkLibraryRecord "a" "local" "{}" true true;
       2%Z := mkLibraryRecord "b" "webdav" "{}" false true ]} in
  oneDefault t
  ∧ oneDefault (ResourceLibraryModel.update string id 2
                  (ResourceLibraryModel.mkUpdateData string None None None None
                     (Some true)) t).2.
Proof.
  intros t.
  assert (Hone : oneDefault t).
  { intros i j ri rj Hi Hj Hdi Hdj. subst t.
    destruct (decide (i = 1%Z)) as [-> | Hi1], (decide (j = 1%Z)) as [-> | Hj1];
      try done.
    - rewrite lookup_insert_ne in Hj by done.
      apply lookup_singleton_Some in Hj as [_ <-]. discriminate Hdj.
    - rewrite lookup_insert_ne in Hi by done.
      apply lookup_singleton_Some in Hi as [_ <-]. discriminate Hdi.
    - rewrite lookup_insert_ne in Hi by done.
      apply lookup_singleton_Some in Hi as [_ <-]. discriminate Hdi. }
  split; [exact Hone|].
  apply (proj1 (proj2 (library_model_keeps_one_default id t Hone))).
Defined.

Lemma marking_a_default_unmarks_the_others_witness :
  let t : gmap Z LibraryRecord :=
    {[ 1%Z := mkLibraryRecord "a" "local" "{}" true true;
       2%Z := mkLibraryRecord "b" "webdav" "{}" false true ]} in
  theDefault 2 (ResourceLibraryModel.setDefault 2 t).2
  ∧ ∀ j rj, (ResourceLibraryModel.setDefault 3 t).2 !! j = Some rj →
            lr_isDefault rj = false.
Proof.
  intros t. split.
  - destruct (ResourceLibraryModel.setDefault 2 t) as [r t'] eqn:Hrun.
    assert (Hr : ∃ record, r = Ok record).
    { apply (f_equal fst) in Hrun. simpl in Hrun. subst r.
      eexists. vm_compute. reflexivity. }
    destruct Hr as [record ->]. simpl.
    exact (proj1 (proj2 (proj2 (marking_a_default_unmarks_the_others
                                  (@id string) t))) 2%Z record t' Hrun).
  - destruct (ResourceLibraryModel.setDefault 3 t) as [r t'] eqn:Hrun.
    assert (Hr : ∃ e, r = Err e).
    { apply (f_equal fst) in Hrun. simpl in Hrun. subst r.
      eexists. vm_compute. reflexivity. }
    destruct Hr as [e ->]. simpl.
    exact (proj2 (proj2 (proj2 (proj2 (marking_a_default_unmarks_the_others
                                         (@id string) t))) 3%Z e t' Hrun)).
Defined.
